(** * GfxRenderer2: render instances, their pool and the instance manager

    A shallow embedding of [src/gfx/render/GfxRenderer2.ts].

    Conventions of the embedding.
    - JavaScript objects that are shared by reference (the pooled
      [GfxRenderInst] objects, the dynamic uniform buffers) live in a store
      and are named by their position in it; the pool array holds
      references, so that sorting the array moves references, not contents.
    - A call that raises is [Throw]; the state after a raise is not tracked.
    - [undefined] and [null] are [None].
    - JavaScript numbers that the code only uses as integers are [Z]; the two
      pool counters, which are only incremented, decremented when positive,
      or zeroed, are [nat].
    - [Array.prototype.sort] is the host's; it is modelled as V8 sorts (see
      [arraySort]). *)

From Stdlib Require Import ZArith List Lia Sorted Permutation.
From stdpp Require Import base list sorting.
Import ListNotations.

(** ** Errors *)

Inductive JsError : Type :=
| AssertionError   (* util.assert failed *)
| TypeError.       (* property access on undefined *)

Inductive result (A : Type) : Type :=
| Ok (a : A)
| Throw (e : JsError).
Arguments Ok {A} a.
Arguments Throw {A} e.

#[global] Instance result_ret : MRet result := fun A a => Ok a.

#[global] Instance result_bind : MBind result := fun A B k m =>
  match m with
  | Ok a => k a
  | Throw e => Throw e
  end.

Definition assert (b : bool) : result unit :=
  if b then Ok tt else Throw AssertionError.

(** A property access on a value that may be undefined. *)
Definition defined {A : Type} (o : option A) : result A :=
  match o with
  | Some a => Ok a
  | None => Throw TypeError
  end.

(** ** Handles of the graphics platform

    The objects of [GfxPlatform] are owned elsewhere; the renderer only
    stores and compares references to them. *)

Definition GfxProgram := nat.
Definition GfxInputLayout := nat.
Definition GfxInputState := nat.
Definition GfxSampler := nat.
Definition GfxTexture := nat.
Definition GfxBuffer := nat.
Definition GfxRenderPipeline := nat.
Definition GfxBindings := nat.

(** [GfxPrimitiveTopology] is a numeric enum. *)
Definition GfxPrimitiveTopology := nat.
Definition TRIANGLES : GfxPrimitiveTopology := 0.

(** Modelled from the spec: the mega-state descriptor and its helpers live in
    [GfxMegaStateDescriptorHelpers], which is not part of this file. The
    spec describes the mega-state as the blend/depth/stencil/cull state. *)
Record GfxMegaStateDescriptor : Type := {
  blend : Z;
  depth : Z;
  stencil : Z;
  cull : Z;
}.

(** [Partial<GfxMegaStateDescriptor>]: every field may be absent. *)
Record PartialMegaState : Type := {
  blend_opt : option Z;
  depth_opt : option Z;
  stencil_opt : option Z;
  cull_opt : option Z;
}.

(** A full descriptor passed where a partial one is expected. *)
Definition fullMegaState (m : GfxMegaStateDescriptor) : PartialMegaState :=
  {| blend_opt := Some (blend m);
     depth_opt := Some (depth m);
     stencil_opt := Some (stencil m);
     cull_opt := Some (cull m) |}.

Module Helpers.

(** Modelled from the spec: [setMegaStateFlags(dst, partial)] of
    [GfxMegaStateDescriptorHelpers] overlays only the fields present in
    [partial]. *)
Definition setMegaStateFlags (dst : GfxMegaStateDescriptor) (src : PartialMegaState)
  : GfxMegaStateDescriptor :=
  {| blend := default (blend dst) (blend_opt src);
     depth := default (depth dst) (depth_opt src);
     stencil := default (stencil dst) (stencil_opt src);
     cull := default (cull dst) (cull_opt src) |}.

(** Modelled from the spec: default-state construction and full copy of
    [GfxMegaStateDescriptorHelpers]. *)
Definition defaultMegaState : GfxMegaStateDescriptor :=
  {| blend := 0; depth := 0; stencil := 0; cull := 0 |}.

Definition copyMegaState (m : GfxMegaStateDescriptor) : GfxMegaStateDescriptor := m.

End Helpers.

(** ** Descriptors

    The descriptor types are declared in [GfxPlatform]; the records have
    the fields this file reads and writes. *)

Record GfxBindingLayoutDescriptor : Type := {
  numUniformBuffers : nat;
  numSamplers : nat;
}.

Record GfxSamplerBinding : Type := {
  sampler : option GfxSampler;
  texture : option GfxTexture;
}.

Record TextureMapping : Type := {
  gfxTexture : option GfxTexture;
  gfxSampler : option GfxSampler;
}.

Record GfxBufferBinding : Type := {
  buffer : option GfxBuffer;
  wordCount : Z;
  wordOffset : Z;
}.

Record GfxBindingsDescriptor : Type := {
  bindingLayout : option GfxBindingLayoutDescriptor;
  samplerBindings : list GfxSamplerBinding;
  uniformBufferBindings : list GfxBufferBinding;
}.

Record GfxRenderPipelineDescriptor : Type := {
  bindingLayouts : list GfxBindingLayoutDescriptor;
  inputLayout : option GfxInputLayout;
  megaStateDescriptor : GfxMegaStateDescriptor;
  program : option GfxProgram;
  topology : GfxPrimitiveTopology;
}.

(** ** The dynamic uniform buffer

    Modelled from the spec: [GfxRenderDynamicUniformBuffer] is an external
    collaborator; [allocateChunk(wordCount)] is a monotonic allocation that
    returns the offset of the chunk, and the object exposes the underlying
    buffer handle. *)
Record GfxRenderDynamicUniformBuffer : Type := {
  gfxBuffer : GfxBuffer;
  currentWordOffset : Z;
}.

Definition allocateChunk (ub : GfxRenderDynamicUniformBuffer) (wordCount : Z)
  : GfxRenderDynamicUniformBuffer * Z :=
  ({| gfxBuffer := gfxBuffer ub;
      currentWordOffset := (currentWordOffset ub + wordCount)%Z |},
   currentWordOffset ub).

(** References into the two stores. *)
Abbreviation UniformBufferRef := nat.
Abbreviation RenderInstRef := nat.
Abbreviation UniformBufferStore := (list GfxRenderDynamicUniformBuffer).

(** ** Device, cache and render pass

    The device and the pipeline/bindings cache answer queries; the render
    pass receives commands, which are collected in order. *)
Record Collaborators : Type := {
  createRenderPipeline : GfxRenderPipelineDescriptor -> GfxRenderPipeline;
  queryPipelineReady : GfxRenderPipeline -> bool;
  createBindings : GfxBindingsDescriptor -> GfxBindings;
  queryInputStateLayout : GfxInputState -> GfxInputLayout;
}.

Inductive PassCommand : Type :=
| setPipeline (p : GfxRenderPipeline)
| setInputStateCmd (s : option GfxInputState)
| setBindings (index : nat) (b : GfxBindings) (dynamicOffsets : list (option Z))
| draw (count start : option Z)
| drawIndexed (count start : option Z).

(** ** Flags *)

Module GfxRenderInstFlags.
Definition VISIBLE : Z := Z.shiftl 1 0.
Definition DRAW_INDEXED : Z := Z.shiftl 1 1.
End GfxRenderInstFlags.
Import GfxRenderInstFlags.

(** Truthiness of [flags & bit]. *)
Definition hasFlag (flags bit : Z) : bool := negb (Z.land flags bit =? 0)%Z.

(** ** JavaScript arrays *)

(** [a[i] = v]: in range it overwrites; past the end it extends the array,
    leaving holes that read as undefined. *)
Definition arraySet {A : Type} (a : list (option A)) (i : nat) (v : A) : list (option A) :=
  if decide (i < length a) then <[i := Some v]> a
  else a ++ replicate (i - length a) None ++ [Some v].

(** [a[0] = v] on an array without holes. *)
Definition arraySetFirst {A : Type} (a : list A) (v : A) : list A :=
  match a with
  | [] => [v]
  | _ :: rest => v :: rest
  end.

(** [a.findIndex(f)]: the first index whose element satisfies [f], or -1. *)
Fixpoint findIndexFrom {A : Type} (f : A -> bool) (a : list A) (i : Z) : Z :=
  match a with
  | [] => (-1)%Z
  | x :: rest => if f x then i else findIndexFrom f rest (i + 1)%Z
  end.

Definition findIndex {A : Type} (f : A -> bool) (a : list A) : Z :=
  findIndexFrom f a 0%Z.

(** [a[i]] for a number [i]: undefined when negative or past the end. *)
Definition arrayGet {A : Type} (a : list A) (i : Z) : option A :=
  if (i <? 0)%Z then None else a !! Z.to_nat i.

(** ** GfxRenderInst *)

Record GfxRenderInst : Type := {
  sortKey : Z;
  passMask : Z;
  _renderPipelineDescriptor : GfxRenderPipelineDescriptor;
  _uniformBuffer : option UniformBufferRef;
  (* _bindingDescriptors is an array of exactly one descriptor; this is
     _bindingDescriptors[0]. *)
  _bindingDescriptors0 : GfxBindingsDescriptor;
  _dynamicUniformBufferOffsets : list (option Z);
  _flags : Z;
  _parentTemplateIndex : Z;
  _inputState : option GfxInputState;
  _drawStart : option Z;
  _drawCount : option Z;
}.

(** Field updates. *)
Definition set_sortKey (v : Z) (r : GfxRenderInst) : GfxRenderInst :=
  {| sortKey := v; passMask := passMask r;
     _renderPipelineDescriptor := _renderPipelineDescriptor r;
     _uniformBuffer := _uniformBuffer r;
     _bindingDescriptors0 := _bindingDescriptors0 r;
     _dynamicUniformBufferOffsets := _dynamicUniformBufferOffsets r;
     _flags := _flags r; _parentTemplateIndex := _parentTemplateIndex r;
     _inputState := _inputState r; _drawStart := _drawStart r;
     _drawCount := _drawCount r |}.

Definition set_passMask (v : Z) (r : GfxRenderInst) : GfxRenderInst :=
  {| sortKey := sortKey r; passMask := v;
     _renderPipelineDescriptor := _renderPipelineDescriptor r;
     _uniformBuffer := _uniformBuffer r;
     _bindingDescriptors0 := _bindingDescriptors0 r;
     _dynamicUniformBufferOffsets := _dynamicUniformBufferOffsets r;
     _flags := _flags r; _parentTemplateIndex := _parentTemplateIndex r;
     _inputState := _inputState r; _drawStart := _drawStart r;
     _drawCount := _drawCount r |}.

Definition set_pipeline (v : GfxRenderPipelineDescriptor) (r : GfxRenderInst) : GfxRenderInst :=
  {| sortKey := sortKey r; passMask := passMask r;
     _renderPipelineDescriptor := v;
     _uniformBuffer := _uniformBuffer r;
     _bindingDescriptors0 := _bindingDescriptors0 r;
     _dynamicUniformBufferOffsets := _dynamicUniformBufferOffsets r;
     _flags := _flags r; _parentTemplateIndex := _parentTemplateIndex r;
     _inputState := _inputState r; _drawStart := _drawStart r;
     _drawCount := _drawCount r |}.

Definition set_uniformBuffer (v : option UniformBufferRef) (r : GfxRenderInst) : GfxRenderInst :=
  {| sortKey := sortKey r; passMask := passMask r;
     _renderPipelineDescriptor := _renderPipelineDescriptor r;
     _uniformBuffer := v;
     _bindingDescriptors0 := _bindingDescriptors0 r;
     _dynamicUniformBufferOffsets := _dynamicUniformBufferOffsets r;
     _flags := _flags r; _parentTemplateIndex := _parentTemplateIndex r;
     _inputState := _inputState r; _drawStart := _drawStart r;
     _drawCount := _drawCount r |}.

Definition set_bindings (v : GfxBindingsDescriptor) (r : GfxRenderInst) : GfxRenderInst :=
  {| sortKey := sortKey r; passMask := passMask r;
     _renderPipelineDescriptor := _renderPipelineDescriptor r;
     _uniformBuffer := _uniformBuffer r;
     _bindingDescriptors0 := v;
     _dynamicUniformBufferOffsets := _dynamicUniformBufferOffsets r;
     _flags := _flags r; _parentTemplateIndex := _parentTemplateIndex r;
     _inputState := _inputState r; _drawStart := _drawStart r;
     _drawCount := _drawCount r |}.

Definition set_dynamicOffsets (v : list (option Z)) (r : GfxRenderInst) : GfxRenderInst :=
  {| sortKey := sortKey r; passMask := passMask r;
     _renderPipelineDescriptor := _renderPipelineDescriptor r;
     _uniformBuffer := _uniformBuffer r;
     _bindingDescriptors0 := _bindingDescriptors0 r;
     _dynamicUniformBufferOffsets := v;
     _flags := _flags r; _parentTemplateIndex := _parentTemplateIndex r;
     _inputState := _inputState r; _drawStart := _drawStart r;
     _drawCount := _drawCount r |}.

Definition set_flags (v : Z) (r : GfxRenderInst) : GfxRenderInst :=
  {| sortKey := sortKey r; passMask := passMask r;
     _renderPipelineDescriptor := _renderPipelineDescriptor r;
     _uniformBuffer := _uniformBuffer r;
     _bindingDescriptors0 := _bindingDescriptors0 r;
     _dynamicUniformBufferOffsets := _dynamicUniformBufferOffsets r;
     _flags := v; _parentTemplateIndex := _parentTemplateIndex r;
     _inputState := _inputState r; _drawStart := _drawStart r;
     _drawCount := _drawCount r |}.

Definition set_parentTemplateIndex (v : Z) (r : GfxRenderInst) : GfxRenderInst :=
  {| sortKey := sortKey r; passMask := passMask r;
     _renderPipelineDescriptor := _renderPipelineDescriptor r;
     _uniformBuffer := _uniformBuffer r;
     _bindingDescriptors0 := _bindingDescriptors0 r;
     _dynamicUniformBufferOffsets := _dynamicUniformBufferOffsets r;
     _flags := _flags r; _parentTemplateIndex := v;
     _inputState := _inputState r; _drawStart := _drawStart r;
     _drawCount := _drawCount r |}.

Definition set_inputState (v : option GfxInputState) (r : GfxRenderInst) : GfxRenderInst :=
  {| sortKey := sortKey r; passMask := passMask r;
     _renderPipelineDescriptor := _renderPipelineDescriptor r;
     _uniformBuffer := _uniformBuffer r;
     _bindingDescriptors0 := _bindingDescriptors0 r;
     _dynamicUniformBufferOffsets := _dynamicUniformBufferOffsets r;
     _flags := _flags r; _parentTemplateIndex := _parentTemplateIndex r;
     _inputState := v; _drawStart := _drawStart r;
     _drawCount := _drawCount r |}.

Definition set_drawRange (count start : option Z) (r : GfxRenderInst) : GfxRenderInst :=
  {| sortKey := sortKey r; passMask := passMask r;
     _renderPipelineDescriptor := _renderPipelineDescriptor r;
     _uniformBuffer := _uniformBuffer r;
     _bindingDescriptors0 := _bindingDescriptors0 r;
     _dynamicUniformBufferOffsets := _dynamicUniformBufferOffsets r;
     _flags := _flags r; _parentTemplateIndex := _parentTemplateIndex r;
     _inputState := _inputState r; _drawStart := start;
     _drawCount := count |}.

Definition set_megaState (v : GfxMegaStateDescriptor) (d : GfxRenderPipelineDescriptor)
  : GfxRenderPipelineDescriptor :=
  {| bindingLayouts := bindingLayouts d; inputLayout := inputLayout d;
     megaStateDescriptor := v; program := program d; topology := topology d |}.

Definition set_program (v : option GfxProgram) (d : GfxRenderPipelineDescriptor)
  : GfxRenderPipelineDescriptor :=
  {| bindingLayouts := bindingLayouts d; inputLayout := inputLayout d;
     megaStateDescriptor := megaStateDescriptor d; program := v; topology := topology d |}.

Definition set_inputLayout (v : option GfxInputLayout) (d : GfxRenderPipelineDescriptor)
  : GfxRenderPipelineDescriptor :=
  {| bindingLayouts := bindingLayouts d; inputLayout := v;
     megaStateDescriptor := megaStateDescriptor d; program := program d;
     topology := topology d |}.

Definition set_topology (v : GfxPrimitiveTopology) (d : GfxRenderPipelineDescriptor)
  : GfxRenderPipelineDescriptor :=
  {| bindingLayouts := bindingLayouts d; inputLayout := inputLayout d;
     megaStateDescriptor := megaStateDescriptor d; program := program d;
     topology := v |}.

Definition set_bindingLayouts (v : list GfxBindingLayoutDescriptor)
  (d : GfxRenderPipelineDescriptor) : GfxRenderPipelineDescriptor :=
  {| bindingLayouts := v; inputLayout := inputLayout d;
     megaStateDescriptor := megaStateDescriptor d; program := program d;
     topology := topology d |}.

Definition set_wordCount (v : Z) (b : GfxBufferBinding) : GfxBufferBinding :=
  {| buffer := buffer b; wordCount := v; wordOffset := wordOffset b |}.

Definition set_wordOffset (v : Z) (b : GfxBufferBinding) : GfxBufferBinding :=
  {| buffer := buffer b; wordCount := wordCount b; wordOffset := v |}.

Definition set_buffer (v : option GfxBuffer) (b : GfxBufferBinding) : GfxBufferBinding :=
  {| buffer := v; wordCount := wordCount b; wordOffset := wordOffset b |}.

Module Inst.

(** The field initialisers and the constructor. [_inputState],
    [_uniformBuffer], [_drawStart] and [_drawCount] have no initialiser and
    start out undefined. *)
Definition new : GfxRenderInst :=
  {| sortKey := 0;
     passMask := 0;
     _renderPipelineDescriptor :=
       {| bindingLayouts := [];
          inputLayout := None;
          megaStateDescriptor := Helpers.copyMegaState Helpers.defaultMegaState;
          program := None;
          topology := TRIANGLES |};
     _uniformBuffer := None;
     _bindingDescriptors0 :=
       {| bindingLayout := None; samplerBindings := []; uniformBufferBindings := [] |};
     _dynamicUniformBufferOffsets := replicate 4 (Some 0%Z);
     _flags := 0;
     _parentTemplateIndex := -1;
     _inputState := None;
     _drawStart := None;
     _drawCount := None |}.

Definition reset (this : GfxRenderInst) : GfxRenderInst :=
  set_passMask 0 (set_sortKey 0 this).


Definition setMegaStateFlags (r : PartialMegaState) (this : GfxRenderInst) : GfxRenderInst :=
  let d := _renderPipelineDescriptor this in
  set_pipeline (set_megaState (Helpers.setMegaStateFlags (megaStateDescriptor d) r) d) this.

Definition setInputState (env : Collaborators) (inputState : option GfxInputState)
  (this : GfxRenderInst) : GfxRenderInst :=
  let this1 := set_inputState inputState this in
  set_pipeline
    (set_inputLayout (queryInputStateLayout env <$> inputState)
       (_renderPipelineDescriptor this1))
    this1.

Definition drawIndexes (indexCount indexStart : Z) (this : GfxRenderInst) : GfxRenderInst :=
  set_drawRange (Some indexCount) (Some indexStart)
    (set_flags (Z.lor (_flags this) DRAW_INDEXED) this).

Definition drawPrimitives (primitiveCount primitiveStart : Z) (this : GfxRenderInst)
  : GfxRenderInst :=
  set_drawRange (Some primitiveCount) (Some primitiveStart) this.

(** The two growth loops of [_setBindingLayout] push default entries until
    the arrays reach the declared counts; they never shrink them. *)
Definition growTo {A : Type} (n : nat) (d : A) (a : list A) : list A :=
  a ++ replicate (n - length a) d.

Definition _setBindingLayout (bindingLayout : GfxBindingLayoutDescriptor)
  (this : GfxRenderInst) : result GfxRenderInst :=
  assert (bool_decide (numUniformBuffers bindingLayout
                            < length (_dynamicUniformBufferOffsets this)));;
  let d := _renderPipelineDescriptor this in
  let this1 := set_pipeline (set_bindingLayouts (arraySetFirst (bindingLayouts d) bindingLayout) d) this in
  let b := _bindingDescriptors0 this1 in
  Ok (set_bindings
        {| bindingLayout := Some bindingLayout;
           samplerBindings :=
             growTo (numSamplers bindingLayout)
               {| sampler := None; texture := None |} (samplerBindings b);
           uniformBufferBindings :=
             growTo (numUniformBuffers bindingLayout)
               {| buffer := None; wordCount := 0; wordOffset := 0 |}
               (uniformBufferBindings b) |}
        this1).

(** [bindingLayouts[0]] of a caller-supplied array of layouts; both
    assertions are on its length. *)
Definition setBindingBase (bindingLayouts : list GfxBindingLayoutDescriptor)
  (uniformBuffer : UniformBufferRef) (this : GfxRenderInst) : result GfxRenderInst :=
  assert (bool_decide (length bindingLayouts <= 1));;
  assert (bool_decide (length bindingLayouts = 1));;
  l ← defined (bindingLayouts !! 0);
  this1 ← _setBindingLayout l this;
  Ok (set_uniformBuffer (Some uniformBuffer) this1).

(** The body of the loop shared by [setSamplerBindings] and
    [setSamplerBindingsFromTextureMappings]: entry [i] of the source
    overwrites both fields of entry [i] of the destination, and a
    destination that is too short raises. *)
Fixpoint overwriteSamplers (m dst : list GfxSamplerBinding)
  : result (list GfxSamplerBinding) :=
  match m, dst with
  | [], _ => Ok dst
  | _ :: _, [] => Throw TypeError
  | s :: m', _ :: dst' =>
      rest ← overwriteSamplers m' dst';
      Ok ({| sampler := sampler s; texture := texture s |} :: rest)
  end.

Definition with_samplerBindings (v : list GfxSamplerBinding) (b : GfxBindingsDescriptor)
  : GfxBindingsDescriptor :=
  {| bindingLayout := bindingLayout b; samplerBindings := v;
     uniformBufferBindings := uniformBufferBindings b |}.

Definition with_uniformBufferBindings (v : list GfxBufferBinding) (b : GfxBindingsDescriptor)
  : GfxBindingsDescriptor :=
  {| bindingLayout := bindingLayout b; samplerBindings := samplerBindings b;
     uniformBufferBindings := v |}.

Definition setSamplerBindings (m : list GfxSamplerBinding) (this : GfxRenderInst)
  : result GfxRenderInst :=
  let b := _bindingDescriptors0 this in
  s ← overwriteSamplers m (samplerBindings b);
  Ok (set_bindings (with_samplerBindings s b) this).

Definition setSamplerBindingsFromTextureMappings (m : list TextureMapping)
  (this : GfxRenderInst) : result GfxRenderInst :=
  setSamplerBindings
    (map (fun t => {| sampler := gfxSampler t; texture := gfxTexture t |}) m) this.

(** The last loop of [setFromTemplate]: the word counts of the first [n]
    uniform-buffer bindings are copied from [src]. *)
Fixpoint copyWordCounts (n : nat) (src dst : list GfxBufferBinding)
  : result (list GfxBufferBinding) :=
  match n with
  | 0 => Ok dst
  | S n' =>
      match src, dst with
      | s :: src', d :: dst' =>
          rest ← copyWordCounts n' src' dst';
          Ok (set_wordCount (wordCount s) d :: rest)
      | _, _ => Throw TypeError
      end
  end.

(** [this.setFromTemplate(o)]. The pool can hand out the template's own
    object, in which case [this] and [o] are one object: [aliased] says
    so, and the reads of [o] that follow a write to [this] then see that
    write. *)
Definition setFromTemplate (aliased : bool) (o this : GfxRenderInst) : result GfxRenderInst :=
  let od := _renderPipelineDescriptor o in
  let d := _renderPipelineDescriptor this in
  let d1 :=
    set_topology (topology od)
      (set_inputLayout (inputLayout od)
         (set_program (program od)
            (set_megaState
               (Helpers.setMegaStateFlags
                  (megaStateDescriptor d) (fullMegaState (megaStateDescriptor od)))
               d))) in
  let this1 := set_uniformBuffer (_uniformBuffer o)
                 (set_inputState (_inputState o) (set_pipeline d1 this)) in
  l ← defined (bindingLayout (_bindingDescriptors0 o));
  this2 ← _setBindingLayout l this1;
  let o2 := if aliased then this2 else o in
  this3 ← setSamplerBindings (samplerBindings (_bindingDescriptors0 o2)) this2;
  let o3 := if aliased then this3 else o in
  let b := _bindingDescriptors0 this3 in
  u ← copyWordCounts (numUniformBuffers l)
         (uniformBufferBindings (_bindingDescriptors0 o3)) (uniformBufferBindings b);
  Ok (set_bindings (with_uniformBufferBindings u b) this3).

(** [allocateUniformBuffer(bufferIndex, wordCount)]. The only assertion
    compares the layout's uniform-buffer count with the length of the
    offsets array. The returned value is read back from the entry that
    was just written. *)
Definition allocateUniformBuffer (ubs : UniformBufferStore) (bufferIndex : nat)
  (wordCount : Z) (this : GfxRenderInst)
  : result (UniformBufferStore * GfxRenderInst * Z) :=
  let b := _bindingDescriptors0 this in
  l ← defined (bindingLayout b);
  assert (bool_decide (numUniformBuffers l < length (_dynamicUniformBufferOffsets this)));;
  r ← defined (_uniformBuffer this);
  ub ← defined (ubs !! r);
  let '(ub', offset) := allocateChunk ub wordCount in
  let this1 :=
    set_dynamicOffsets (arraySet (_dynamicUniformBufferOffsets this) bufferIndex offset) this in
  dst ← defined (uniformBufferBindings b !! bufferIndex);
  let dst' := set_wordCount wordCount (set_wordOffset 0 dst) in
  Ok (<[r := ub']> ubs,
      set_bindings
        (with_uniformBufferBindings (<[bufferIndex := dst']> (uniformBufferBindings b)) b)
        this1,
      offset).

Definition copyUniformBufferBinding (bufferIndex : nat) (src this : GfxRenderInst)
  : result GfxRenderInst :=
  let b := _bindingDescriptors0 this in
  l ← defined (bindingLayout b);
  assert (bool_decide (numUniformBuffers l < length (_dynamicUniformBufferOffsets this)));;
  s ← defined (uniformBufferBindings (_bindingDescriptors0 src) !! bufferIndex);
  dst ← defined (uniformBufferBindings b !! bufferIndex);
  Ok (set_bindings
        (with_uniformBufferBindings
           (<[bufferIndex := set_wordOffset (wordOffset s) dst]> (uniformBufferBindings b)) b)
        this).

(** The loop of [drawOnPass] that fills in the buffer of every
    uniform-buffer binding; [this._uniformBuffer] is only read when there
    is at least one binding. *)
Definition fillBuffers (ubs : UniformBufferStore) (this : GfxRenderInst)
  : result (list GfxBufferBinding) :=
  match uniformBufferBindings (_bindingDescriptors0 this) with
  | [] => Ok []
  | bs =>
      r ← defined (_uniformBuffer this);
      ub ← defined (ubs !! r);
      Ok (map (set_buffer (Some (gfxBuffer ub))) bs)
  end.

Definition drawCommand (this : GfxRenderInst) : PassCommand :=
  if hasFlag (_flags this) DRAW_INDEXED
  then drawIndexed (_drawCount this) (_drawStart this)
  else draw (_drawCount this) (_drawStart this).

(** [drawOnPass(device, cache, passRenderer)]: the updated instance and
    the commands issued on the render pass, in order. *)
Definition drawOnPass (env : Collaborators) (ubs : UniformBufferStore)
  (this : GfxRenderInst) : result (GfxRenderInst * list PassCommand) :=
  let gfxPipeline := createRenderPipeline env (_renderPipelineDescriptor this) in
  if negb (queryPipelineReady env gfxPipeline) then Ok (this, [])
  else
    bs ← fillBuffers ubs this;
    let this1 :=
      set_bindings (with_uniformBufferBindings bs (_bindingDescriptors0 this)) this in
    let gfxBindings := createBindings env (_bindingDescriptors0 this1) in
    Ok (this1,
        [ setPipeline gfxPipeline;
          setInputStateCmd (_inputState this1);
          setBindings 0 gfxBindings (_dynamicUniformBufferOffsets this1);
          drawCommand this1 ]).

End Inst.

(** ** GfxRenderInstPool

    The render instances are objects in a store; [pool] is the array of
    references to them. *)

Abbreviation RenderInstStore := (list GfxRenderInst).

Record GfxRenderInstPool : Type := {
  pool : list RenderInstRef;
  renderInstAllocCount : nat;
  renderInstFreeCount : nat;
}.

Module Pool.

Definition new : GfxRenderInstPool :=
  {| pool := []; renderInstAllocCount := 0; renderInstFreeCount := 0 |}.

(** The callback of [findIndex]: [renderInst._flags === 0]. *)
Definition isFree (h : RenderInstStore) (r : RenderInstRef) : bool :=
  match h !! r with
  | Some renderInst => (_flags renderInst =? 0)%Z
  | None => false
  end.

Definition allocRenderInstIndex (h : RenderInstStore) (p : GfxRenderInstPool)
  : RenderInstStore * GfxRenderInstPool * Z :=
  if bool_decide (0 < renderInstFreeCount p) then
    (h,
     {| pool := pool p;
        renderInstAllocCount := renderInstAllocCount p;
        renderInstFreeCount := renderInstFreeCount p - 1 |},
     findIndex (isFree h) (pool p))
  else
    let allocCount := S (renderInstAllocCount p) in
    if bool_decide (length (pool p) < allocCount) then
      (h ++ [Inst.new],
       {| pool := pool p ++ [length h];
          renderInstAllocCount := allocCount;
          renderInstFreeCount := renderInstFreeCount p |},
       (Z.of_nat allocCount - 1)%Z)
    else
      (h,
       {| pool := pool p;
          renderInstAllocCount := allocCount;
          renderInstFreeCount := renderInstFreeCount p |},
       (Z.of_nat allocCount - 1)%Z).

Definition returnRenderInst (h : RenderInstStore) (p : GfxRenderInstPool)
  (renderInst : RenderInstRef) : RenderInstStore * GfxRenderInstPool :=
  (alter (set_flags 0) renderInst h,
   {| pool := pool p;
      renderInstAllocCount := renderInstAllocCount p;
      renderInstFreeCount := S (renderInstFreeCount p) |}).

(** The loop of [reset]: [pool[i]._flags = 0] for [i] from [i] up to
    [i + n - 1]; an index past the end of the array raises. *)
Fixpoint clearFlags (h : RenderInstStore) (a : list RenderInstRef) (i n : nat)
  : result RenderInstStore :=
  match n with
  | 0 => Ok h
  | S n' =>
      r ← defined (a !! i);
      clearFlags (alter (set_flags 0) r h) a (S i) n'
  end.

Definition reset (h : RenderInstStore) (p : GfxRenderInstPool)
  : result (RenderInstStore * GfxRenderInstPool) :=
  h' ← clearFlags h (pool p) 0 (renderInstAllocCount p);
  Ok (h',
      {| pool := pool p;
         renderInstAllocCount := 0;
         renderInstFreeCount := renderInstFreeCount p |}).

Definition destroy (p : GfxRenderInstPool) : GfxRenderInstPool :=
  {| pool := [];
     renderInstAllocCount := 0;
     renderInstFreeCount := renderInstFreeCount p |}.

End Pool.

Definition compareRenderInsts (a b : GfxRenderInst) : Z :=
  if negb (hasFlag (_flags a) VISIBLE) then 1%Z
  else if negb (hasFlag (_flags b) VISIBLE) then (-1)%Z
  else (sortKey a - sortKey b)%Z.

(** ** Array.prototype.sort

    The sort is the host's built-in. [compareRenderInsts] answers 1 both
    ways on two invisible instances, so ECMAScript does not fix the
    resulting order and the engine decides. The model follows V8 (Chrome,
    Node), which asks the comparator only whether its answer is negative.
    An array shorter than 64 is sorted as one run, as below:
    [countAndMakeRun] finds the run the array starts with (the longest
    prefix that never descends, or that strictly descends and is then
    reversed), and [binaryInsertionSort] inserts every later element into
    the sorted prefix, behind the elements it is not less than. A longer
    array is cut into runs of 32 to 64 elements, each made this way, which
    the engine merges, keeping the order of elements neither of which is
    less than the other; the definition below inserts those elements one
    by one instead. Where the negative answers are those of an order, as
    for [compareRenderInsts] on integer sort keys, the result is the same:
    the arrangement that is in order and keeps the order of such elements
    is unique ([arraySort_unique]). *)

Section ArraySort.
Context {A : Type} (comparefn : A -> A -> Z).

(** [ReverseRange(array, 0, to)]. *)
Definition reverseRange (a : list A) (to : nat) : list A :=
  rev (take to a) ++ drop to a.

(** The loop of [CountAndMakeRun]: the number of elements of [rest] that
    continue the run after [previousElement]. *)
Fixpoint continueRun (isDescending : bool) (previousElement : A) (rest : list A) : nat :=
  match rest with
  | [] => 0
  | currentElement :: rest' =>
      let order := comparefn currentElement previousElement in
      if isDescending then
        if (order >=? 0)%Z then 0
        else S (continueRun isDescending currentElement rest')
      else
        if (order <? 0)%Z then 0
        else S (continueRun isDescending currentElement rest')
  end.

(** [CountAndMakeRun(0, length)]: the array, with a descending run
    reversed, and the length of the run. *)
Definition countAndMakeRun (a : list A) : list A * nat :=
  match a with
  | elementHigh :: elementLow :: rest =>
      let isDescending := (comparefn elementLow elementHigh <? 0)%Z in
      let runLength := 2 + continueRun isDescending elementLow rest in
      (if isDescending then reverseRange a runLength else a, runLength)
  | _ => (a, length a)
  end.

(** The binary search of [BinaryInsertionSort] between [left] and
    [right]; every step halves the distance, so [right - left] steps are
    more than it takes. *)
Fixpoint findInsertionPoint (a : list A) (pivot : A) (left right steps : nat) : nat :=
  match steps with
  | 0 => left
  | S steps' =>
      if bool_decide (left < right) then
        let mid := left + Nat.div2 (right - left) in
        match a !! mid with
        | Some midElement =>
            if (comparefn pivot midElement <? 0)%Z
            then findInsertionPoint a pivot left mid steps'
            else findInsertionPoint a pivot (S mid) right steps'
        | None => left
        end
      else left
  end.

(** One round of [BinaryInsertionSort]: the element at [start] is moved
    to its place in the sorted prefix [0, start) and the elements between
    slide one slot to the right. *)
Definition insertPivot (a : list A) (start : nat) : list A :=
  match a !! start with
  | Some pivot =>
      let left := findInsertionPoint a pivot 0 start start in
      take left a ++ pivot :: take (start - left) (drop left a) ++ drop (S start) a
  | None => a
  end.

(** [BinaryInsertionSort(0, start, start + count)]. *)
Fixpoint binaryInsertionSort (a : list A) (start count : nat) : list A :=
  match count with
  | 0 => a
  | S count' => binaryInsertionSort (insertPivot a start) (S start) count'
  end.

Definition arraySort (a : list A) : list A :=
  if length a <? 2 then a
  else
    let '(a1, runLength) := countAndMakeRun a in
    binaryInsertionSort a1 runLength (length a - runLength).

End ArraySort.

(** ** GfxRenderInstManager *)

Record GfxRenderInstManager : Type := {
  gfxRenderInstPool : GfxRenderInstPool;
  renderInstTemplateIndex : Z;
}.

Module Manager.

Definition new : GfxRenderInstManager :=
  {| gfxRenderInstPool := Pool.new; renderInstTemplateIndex := -1 |}.

(** [renderInst.setFromTemplate(pool[templateIndex])] on the store. *)
Definition inheritFromTemplate (h : RenderInstStore) (p : GfxRenderInstPool)
  (templateIndex : Z) (renderInst : option RenderInstRef)
  : result (RenderInstRef * GfxRenderInst) :=
  r ← defined renderInst;
  this ← defined (h !! r);
  t ← defined (arrayGet (pool p) templateIndex);
  o ← defined (h !! t);
  this' ← Inst.setFromTemplate (bool_decide (r = t)) o this;
  Ok (r, this').

Definition pushRenderInst (h : RenderInstStore) (m : GfxRenderInstManager)
  : result (RenderInstStore * GfxRenderInstManager * RenderInstRef) :=
  let '(h1, p1, renderInstIndex) := Pool.allocRenderInstIndex h (gfxRenderInstPool m) in
  let renderInst := arrayGet (pool p1) renderInstIndex in
  '(r, this') ←
    (if (0 <=? renderInstTemplateIndex m)%Z
     then inheritFromTemplate h1 p1 (renderInstTemplateIndex m) renderInst
     else
       r ← defined renderInst;
       this ← defined (h1 !! r);
       Ok (r, Inst.reset this));
  Ok (<[r := set_flags VISIBLE this']> h1,
      {| gfxRenderInstPool := p1;
         renderInstTemplateIndex := renderInstTemplateIndex m |},
      r).

(** Without an active template the new template object is not touched,
    so an undefined [pool[newTemplateIndex]] is returned as it is. *)
Definition pushTemplateRenderInst (h : RenderInstStore) (m : GfxRenderInstManager)
  : result (RenderInstStore * GfxRenderInstManager * option RenderInstRef) :=
  let '(h1, p1, newTemplateIndex) := Pool.allocRenderInstIndex h (gfxRenderInstPool m) in
  let newTemplate := arrayGet (pool p1) newTemplateIndex in
  h2 ←
    (if (0 <=? renderInstTemplateIndex m)%Z
     then
       '(r, this') ← inheritFromTemplate h1 p1 (renderInstTemplateIndex m) newTemplate;
       Ok (<[r := set_parentTemplateIndex (renderInstTemplateIndex m) this']> h1)
     else Ok h1);
  Ok (h2,
      {| gfxRenderInstPool := p1; renderInstTemplateIndex := newTemplateIndex |},
      newTemplate).

Definition popTemplateRenderInst (h : RenderInstStore) (m : GfxRenderInstManager)
  : result (RenderInstStore * GfxRenderInstManager) :=
  let p := gfxRenderInstPool m in
  renderInst ← defined (arrayGet (pool p) (renderInstTemplateIndex m));
  _ ← defined (h !! renderInst);
  let '(h1, p1) := Pool.returnRenderInst h p renderInst in
  this ← defined (h1 !! renderInst);
  Ok (h1,
      {| gfxRenderInstPool := p1;
         renderInstTemplateIndex := _parentTemplateIndex this |}).

(** [compareRenderInsts] on the objects two array entries refer to. *)
Definition compareRefs (h : RenderInstStore) (a b : RenderInstRef) : Z :=
  match h !! a, h !! b with
  | Some x, Some y => compareRenderInsts x y
  | _, _ => 0%Z
  end.

Definition sortPool (h : RenderInstStore) (p : GfxRenderInstPool) : GfxRenderInstPool :=
  {| pool := arraySort (compareRefs h) (pool p);
     renderInstAllocCount := renderInstAllocCount p;
     renderInstFreeCount := renderInstFreeCount p |}.

(** The submission loop of [executeOnPass], from index [i] for at most
    [n] iterations, with its [break] at the first invisible instance. *)
Fixpoint drawLoop (env : Collaborators) (ubs : UniformBufferStore)
  (h : RenderInstStore) (a : list RenderInstRef) (i n : nat)
  : result (RenderInstStore * list PassCommand) :=
  match n with
  | 0 => Ok (h, [])
  | S n' =>
      r ← defined (a !! i);
      this ← defined (h !! r);
      if negb (hasFlag (_flags this) VISIBLE) then Ok (h, [])
      else
        '(this', cmds) ← Inst.drawOnPass env ubs this;
        '(h', rest) ← drawLoop env ubs (<[r := this']> h) a (S i) n';
        Ok (h', cmds ++ rest)
  end.

Definition executeOnPass (env : Collaborators) (ubs : UniformBufferStore)
  (h : RenderInstStore) (m : GfxRenderInstManager)
  : result (RenderInstStore * GfxRenderInstManager * list PassCommand) :=
  if bool_decide (renderInstAllocCount (gfxRenderInstPool m) = 0) then Ok (h, m, [])
  else
    let p1 := sortPool h (gfxRenderInstPool m) in
    '(h1, cmds) ← drawLoop env ubs h (pool p1) 0 (renderInstAllocCount p1);
    '(h2, p2) ← Pool.reset h1 p1;
    Ok (h2,
        {| gfxRenderInstPool := p2;
           renderInstTemplateIndex := renderInstTemplateIndex m |},
        cmds).

Definition destroy (m : GfxRenderInstManager) : GfxRenderInstManager :=
  {| gfxRenderInstPool := Pool.destroy (gfxRenderInstPool m);
     renderInstTemplateIndex := renderInstTemplateIndex m |}.

End Manager.

(** ** Predicates used in the statements *)

Definition visible (r : GfxRenderInst) : bool := hasFlag (_flags r) VISIBLE.

(** The order the sort step is meant to establish between an earlier
    instance [a] and a later instance [b]. *)
Definition inOrder (a b : GfxRenderInst) : Prop :=
  (visible a = true /\ visible b = true /\ (sortKey a <= sortKey b)%Z)
  \/ visible b = false.

Definition refsInOrder (h : RenderInstStore) (ra rb : RenderInstRef) : Prop :=
  exists a b, h !! ra = Some a /\ h !! rb = Some b /\ inOrder a b.

(** [x] comes before [y] in [l]. *)
Fixpoint before {A : Type} (l : list A) (x y : A) : Prop :=
  match l with
  | [] => False
  | z :: rest => (z = x /\ y ∈ rest) \/ before rest x y
  end.

(** [a'] keeps every pair of [a] in its order unless the comparator says
    the later element is less than the earlier one. *)
Definition keepsOrder {A : Type} (comparefn : A -> A -> Z) (a a' : list A) : Prop :=
  forall x y, before a x y -> (comparefn y x >= 0)%Z -> before a' x y.

(** Every reference held by the pool array names an object of the store. *)
Definition poolRefsValid (h : RenderInstStore) (p : GfxRenderInstPool) : Prop :=
  Forall (fun r => is_Some (h !! r)) (pool p).

(** The object found at index [i] of the pool array. *)
Definition instAt (h : RenderInstStore) (p : GfxRenderInstPool) (i : nat)
  : option GfxRenderInst :=
  r ← pool p !! i; h !! r.

(** ** Callers

    A caller holds the reference it was handed and calls methods on the
    object through it. *)
Definition withInst (r : RenderInstRef) (method : GfxRenderInst -> result GfxRenderInst)
  (h : RenderInstStore) : result RenderInstStore :=
  this ← defined (h !! r);
  this' ← method this;
  Ok (<[r := this']> h).

Definition withInst' (r : RenderInstRef) (method : GfxRenderInst -> GfxRenderInst)
  (h : RenderInstStore) : result RenderInstStore :=
  withInst r (fun this => Ok (method this)) h.

(** ** A small scene used in the examples *)

Module Scene.

(** Every pipeline is ready. *)
Definition env : Collaborators :=
  {| createRenderPipeline := fun _ => 7;
     queryPipelineReady := fun _ => true;
     createBindings := fun _ => 9;
     queryInputStateLayout := fun s => s |}.

(** No pipeline is ready. *)
Definition envPending : Collaborators :=
  {| createRenderPipeline := fun _ => 7;
     queryPipelineReady := fun _ => false;
     createBindings := fun _ => 9;
     queryInputStateLayout := fun s => s |}.

(** One dynamic uniform buffer whose next chunk starts at word 64. *)
Definition uniformBuffers : UniformBufferStore :=
  [ {| gfxBuffer := 42; currentWordOffset := 64 |} ].

Definition layout (nUniformBuffers nSamplers : nat) : GfxBindingLayoutDescriptor :=
  {| numUniformBuffers := nUniformBuffers; numSamplers := nSamplers |}.

(** An invisible object and two visible ones with sort keys 10 and 5. *)
Definition threeInsts : RenderInstStore :=
  [ Inst.new;
    set_sortKey 10 (set_flags VISIBLE Inst.new);
    set_sortKey 5 (set_flags VISIBLE Inst.new) ].

Definition threeInstsPool : GfxRenderInstPool :=
  {| pool := [0; 1; 2]; renderInstAllocCount := 3; renderInstFreeCount := 0 |}.

(** An instance whose binding layout was first set to three uniform
    buffers and then to one: the bindings array keeps its three entries. *)
Definition shrunkLayoutInst : result GfxRenderInst :=
  this ← Inst.setBindingBase [layout 3 0] 0 Inst.new;
  Inst.setBindingBase [layout 1 0] 0 this.

(** A fresh instance with room for one uniform buffer and one sampler. *)
Definition boundInst : result GfxRenderInst :=
  Inst.setBindingBase [layout 1 1] 0 (set_flags VISIBLE Inst.new).

(** [pushTemplateRenderInst()] followed by [setBindingBase] on the new
    template. *)
Definition pushTemplateWithLayout (h : RenderInstStore) (m : GfxRenderInstManager)
  : result (RenderInstStore * GfxRenderInstManager * RenderInstRef) :=
  '(h, m, t) ← Manager.pushTemplateRenderInst h m;
  t ← defined t;
  h ← withInst t (Inst.setBindingBase [layout 1 1] 0) h;
  Ok (h, m, t).

(** A frame of a fresh manager: a template, one instance under it, and
    the template popped. *)
Definition templateFrame : result (RenderInstStore * GfxRenderInstManager) :=
  '(h, m, _) ← pushTemplateWithLayout [] Manager.new;
  '(h, m, _) ← Manager.pushRenderInst h m;
  Manager.popTemplateRenderInst h m.

(** An outer template is pushed, an inner template is pushed and popped;
    the outer template is still active. *)
Definition nestedTemplates
  : result (RenderInstStore * GfxRenderInstManager * RenderInstRef) :=
  '(h, m, outer) ← pushTemplateWithLayout [] Manager.new;
  '(h, m, _) ← Manager.pushTemplateRenderInst h m;
  '(h, m) ← Manager.popTemplateRenderInst h m;
  Ok (h, m, outer).

(** A first frame that draws three instances, then a second frame in
    which a template is pushed, one instance is pushed under it, and the
    template is not popped. *)
Definition templateStillPushed : result (RenderInstStore * GfxRenderInstManager) :=
  '(h, m, _) ← Manager.pushRenderInst [] Manager.new;
  '(h, m, _) ← Manager.pushRenderInst h m;
  '(h, m, _) ← Manager.pushRenderInst h m;
  '(h, m, _) ← Manager.executeOnPass env uniformBuffers h m;
  '(h, m, _) ← pushTemplateWithLayout h m;
  '(h, m, _) ← Manager.pushRenderInst h m;
  Ok (h, m).

(** A first frame with two nested templates and no instance, then a
    second frame that pushes three instances and gives the second one
    sort key 3 and the third one sort key 9. *)
Definition secondFrameAfterTemplates : result (RenderInstStore * GfxRenderInstManager) :=
  '(h, m, _) ← pushTemplateWithLayout [] Manager.new;
  '(h, m, _) ← Manager.pushTemplateRenderInst h m;
  '(h, m) ← Manager.popTemplateRenderInst h m;
  '(h, m) ← Manager.popTemplateRenderInst h m;
  '(h, m, _) ← Manager.executeOnPass env uniformBuffers h m;
  '(h, m, _) ← Manager.pushRenderInst h m;
  '(h, m, r2) ← Manager.pushRenderInst h m;
  h ← withInst' r2 (set_sortKey 3) h;
  '(h, m, r3) ← Manager.pushRenderInst h m;
  h ← withInst' r3 (set_sortKey 9) h;
  Ok (h, m).

(** A template is pushed and allocates its uniform buffer 0: the store,
    the manager and the template. *)
Definition allocatedTemplate
  : result (RenderInstStore * GfxRenderInstManager * RenderInstRef) :=
  '(h, m, t) ← pushTemplateWithLayout [] Manager.new;
  T ← defined (h !! t);
  '(_, T', _) ← Inst.allocateUniformBuffer uniformBuffers 0 16 T;
  Ok (<[t := T']> h, m, t).

(** Then an instance is pushed under it. *)
Definition instanceUnderAllocatedTemplate
  : result (RenderInstStore * GfxRenderInstManager * RenderInstRef * RenderInstRef) :=
  '(h, m, t) ← allocatedTemplate;
  '(h, m, r) ← Manager.pushRenderInst h m;
  Ok (h, m, t, r).



End Scene.

(** The uniform buffer of [this] can be read whenever [drawOnPass] needs
    it: either there is no uniform-buffer binding to fill, or
    [_uniformBuffer] refers to a buffer of the store. *)
Definition uniformBufferBound (ubs : UniformBufferStore) (this : GfxRenderInst) : Prop :=
  uniformBufferBindings (_bindingDescriptors0 this) = []
  \/ exists r ub, _uniformBuffer this = Some r /\ ubs !! r = Some ub.

(** [allocateUniformBuffer(bufferIndex, wordCount)] on [this], whose
    dynamic uniform buffer is [ub] at reference [r], returns: the offset
    returned by the collaborator is recorded for the slot and returned,
    and the slot's binding has the word count. *)
Definition allocatesSlot (ubs : UniformBufferStore) (bufferIndex : nat) (words : Z)
  (this : GfxRenderInst) (r : nat) (ub : GfxRenderDynamicUniformBuffer) : Prop :=
  exists ubs' this' dst',
    Inst.allocateUniformBuffer ubs bufferIndex words this
    = Ok (ubs', this', snd (allocateChunk ub words))
    /\ ubs' !! r = Some (fst (allocateChunk ub words))
    /\ _dynamicUniformBufferOffsets this' !! bufferIndex
       = Some (Some (snd (allocateChunk ub words)))
    /\ uniformBufferBindings (_bindingDescriptors0 this') !! bufferIndex = Some dst'
    /\ wordCount dst' = words.

(** What the public methods maintain: the bindings array is empty until a
    binding layout is set, and once a layout is set the uniform buffer is
    set as well. *)
Definition bindingBaseSet (ubs : UniformBufferStore) (this : GfxRenderInst) : Prop :=
  match bindingLayout (_bindingDescriptors0 this) with
  | None => uniformBufferBindings (_bindingDescriptors0 this) = []
  | Some _ => exists r ub, _uniformBuffer this = Some r /\ ubs !! r = Some ub
  end.

Definition isDrawCall (c : PassCommand) : bool :=
  match c with
  | draw _ _ | drawIndexed _ _ => true
  | _ => false
  end.

(** The number of slots within [0, allocCount) whose flags are 0. *)
Definition freeSlotsInLiveRange (h : RenderInstStore) (p : GfxRenderInstPool) : nat :=
  length (filter (fun r => Pool.isFree h r = true) (take (renderInstAllocCount p) (pool p))).

(** The pool invariant of the data model. *)
Definition poolInvariant (h : RenderInstStore) (p : GfxRenderInstPool) : Prop :=
  renderInstFreeCount p <= renderInstAllocCount p
  /\ renderInstAllocCount p <= length (pool p)
  /\ renderInstFreeCount p = freeSlotsInLiveRange h p.

(** The claim of template inheritance as stated: bindings (layout, sampler
    bindings, word counts and word offsets of the uniform-buffer bindings,
    dynamic uniform offsets) and pipeline state (mega-state, program, input
    layout and state, topology) of [R] are those of [T]. *)
Definition sameBindingsAndPipelineState (T R : GfxRenderInst) : Prop :=
  let bT := _bindingDescriptors0 T in
  let bR := _bindingDescriptors0 R in
  let dT := _renderPipelineDescriptor T in
  let dR := _renderPipelineDescriptor R in
  bindingLayout bR = bindingLayout bT
  /\ samplerBindings bR = samplerBindings bT
  /\ map wordCount (uniformBufferBindings bR) = map wordCount (uniformBufferBindings bT)
  /\ map wordOffset (uniformBufferBindings bR) = map wordOffset (uniformBufferBindings bT)
  /\ _dynamicUniformBufferOffsets R = _dynamicUniformBufferOffsets T
  /\ megaStateDescriptor dR = megaStateDescriptor dT
  /\ program dR = program dT
  /\ inputLayout dR = inputLayout dT
  /\ _inputState R = _inputState T
  /\ topology dR = topology dT.

(** What [setFromTemplate] copies from the template [T] into [R]. *)
Definition copiedFromTemplate (T R : GfxRenderInst) : Prop :=
  let bT := _bindingDescriptors0 T in
  let bR := _bindingDescriptors0 R in
  let dT := _renderPipelineDescriptor T in
  let dR := _renderPipelineDescriptor R in
  megaStateDescriptor dR = megaStateDescriptor dT
  /\ program dR = program dT
  /\ inputLayout dR = inputLayout dT
  /\ topology dR = topology dT
  /\ _inputState R = _inputState T
  /\ _uniformBuffer R = _uniformBuffer T
  /\ bindingLayout bR = bindingLayout bT
  /\ (forall i s, samplerBindings bT !! i = Some s -> samplerBindings bR !! i = Some s)
  /\ (forall l i, bindingLayout bT = Some l -> i < numUniformBuffers l ->
        exists bt br,
          uniformBufferBindings bT !! i = Some bt
          /\ uniformBufferBindings bR !! i = Some br
          /\ wordCount br = wordCount bt).

(** What [setFromTemplate] leaves in [R] as it was in [old]: the dynamic
    uniform offsets and the word offset of every uniform-buffer binding
    that [old] had. *)
Definition offsetsKept (old R : GfxRenderInst) : Prop :=
  _dynamicUniformBufferOffsets R = _dynamicUniformBufferOffsets old
  /\ (forall i b, uniformBufferBindings (_bindingDescriptors0 old) !! i = Some b ->
        exists b', uniformBufferBindings (_bindingDescriptors0 R) !! i = Some b'
                   /\ wordOffset b' = wordOffset b).

(** The fields that neither [reset] nor [setFromTemplate] writes. *)
Definition unwrittenFieldsKept (old R : GfxRenderInst) : Prop :=
  _drawStart R = _drawStart old
  /\ _drawCount R = _drawCount old
  /\ _dynamicUniformBufferOffsets R = _dynamicUniformBufferOffsets old.



(** ** Mapping an allocated uniform buffer *)

(** Modelled from the spec: [mapBufferF32(offset, wordCount)] of the dynamic
    uniform buffer returns a writable view over [wordCount] words starting
    at [offset]; a view is represented by that range of its buffer. *)
Record Float32View : Type := {
  viewBuffer : GfxBuffer;
  viewOffset : option Z;
  viewLength : Z;
}.

Definition mapBufferF32 (ub : GfxRenderDynamicUniformBuffer) (offset : option Z)
  (wordCount : Z) : Float32View :=
  {| viewBuffer := gfxBuffer ub; viewOffset := offset; viewLength := wordCount |}.

(** [GfxRenderInst.mapUniformBufferF32(bufferIndex)]: the offset is read
    from the dynamic-offsets array (undefined past its end or in a hole), the
    word count from the binding, which must exist. *)
Definition mapUniformBufferF32 (ubs : UniformBufferStore) (bufferIndex : nat)
  (this : GfxRenderInst) : result Float32View :=
  r ← defined (_uniformBuffer this);
  ub ← defined (ubs !! r);
  dst ← defined (uniformBufferBindings (_bindingDescriptors0 this) !! bufferIndex);
  Ok (mapBufferF32 ub (mjoin (_dynamicUniformBufferOffsets this !! bufferIndex))
        (wordCount dst)).

(** ** Further predicates *)

(** The pipeline descriptor lists exactly the binding layout of the
    bindings descriptor: none before a layout is set, that one afterwards. *)
Definition layoutsConsistent (this : GfxRenderInst) : Prop :=
  bindingLayouts (_renderPipelineDescriptor this)
  = match bindingLayout (_bindingDescriptors0 this) with
    | Some l => [l]
    | None => []
    end.

(** The default entries pushed by [_setBindingLayout]. *)
Definition defaultSamplerBinding : GfxSamplerBinding :=
  {| sampler := None; texture := None |}.

Definition defaultBufferBinding : GfxBufferBinding :=
  {| buffer := None; wordCount := 0; wordOffset := 0 |}.

(** The pool array names pairwise distinct objects of the store, and the
    allocation count does not exceed its length. *)
Definition poolWellFormed (h : RenderInstStore) (p : GfxRenderInstPool) : Prop :=
  NoDup (pool p)
  /\ poolRefsValid h p
  /\ renderInstAllocCount p <= length (pool p).

(** The public calls of the manager that change its state. *)
Inductive ManagerCall : Type :=
| CallPushRenderInst
| CallPushTemplateRenderInst
| CallPopTemplateRenderInst
| CallExecuteOnPass (env : Collaborators) (ubs : UniformBufferStore).

Definition runCall (c : ManagerCall) (h : RenderInstStore) (m : GfxRenderInstManager)
  : result (RenderInstStore * GfxRenderInstManager) :=
  match c with
  | CallPushRenderInst =>
      '(h', m', _) ← Manager.pushRenderInst h m; Ok (h', m')
  | CallPushTemplateRenderInst =>
      '(h', m', _) ← Manager.pushTemplateRenderInst h m; Ok (h', m')
  | CallPopTemplateRenderInst => Manager.popTemplateRenderInst h m
  | CallExecuteOnPass env ubs =>
      '(h', m', _) ← Manager.executeOnPass env ubs h m; Ok (h', m')
  end.

(** The commands one instance is submitted with. *)
Definition submitted (env : Collaborators) (ubs : UniformBufferStore)
  (this : GfxRenderInst) : list PassCommand :=
  match Inst.drawOnPass env ubs this with
  | Ok (_, cmds) => cmds
  | Throw _ => []
  end.

(** The instances of a sequence up to its first invisible one. *)
Fixpoint leadingVisible (l : list GfxRenderInst) : list GfxRenderInst :=
  match l with
  | [] => []
  | x :: rest => if visible x then x :: leadingVisible rest else []
  end.

(** The objects an array of references names, when all of them exist. *)
Fixpoint derefAll (h : RenderInstStore) (a : list nat) : option (list GfxRenderInst) :=
  match a with
  | [] => Some []
  | r :: rest =>
      x ← h !! r;
      xs ← derefAll h rest;
      Some (x :: xs)
  end.

(** The objects in the first [n] slots of an array of references. *)
Definition instsAt (h : RenderInstStore) (a : list nat) (n : nat)
  : option (list GfxRenderInst) :=
  derefAll h (take n a).

(** A frame in which a template is pushed, two instances are pushed under
    it with sort keys 10 and 5, and the template is popped. *)
Definition twoKeysFrame : result (RenderInstStore * GfxRenderInstManager) :=
  '(h, m, _) ← Scene.pushTemplateWithLayout [] Manager.new;
  '(h, m, r1) ← Manager.pushRenderInst h m;
  h ← withInst' r1 (set_sortKey 10) h;
  '(h, m, r2) ← Manager.pushRenderInst h m;
  h ← withInst' r2 (set_sortKey 5) h;
  Manager.popTemplateRenderInst h m.

(** Within one frame: a template with a nested template, both popped,
    and then an instance pushed with no template active. The instance
    reuses the object of the outer template; the object of the nested
    template, whose parent template index is 0, is the next free one. *)
Definition staleParentScene : result (RenderInstStore * GfxRenderInstManager) :=
  '(h, m, _) ← Scene.pushTemplateWithLayout [] Manager.new;
  '(h, m, _) ← Manager.pushTemplateRenderInst h m;
  '(h, m) ← Manager.popTemplateRenderInst h m;
  '(h, m) ← Manager.popTemplateRenderInst h m;
  '(h, m, _) ← Manager.pushRenderInst h m;
  Ok (h, m).

(** [x'] is [x] except for its flags and for the buffers of its
    uniform-buffer bindings. *)
Definition onlyFlagsAndBuffersWritten (x x' : GfxRenderInst) : Prop :=
  x' = set_flags (_flags x')
         (set_bindings
            (Inst.with_uniformBufferBindings
               (uniformBufferBindings (_bindingDescriptors0 x'))
               (_bindingDescriptors0 x))
            x)
  /\ map wordCount (uniformBufferBindings (_bindingDescriptors0 x'))
     = map wordCount (uniformBufferBindings (_bindingDescriptors0 x))
  /\ map wordOffset (uniformBufferBindings (_bindingDescriptors0 x'))
     = map wordOffset (uniformBufferBindings (_bindingDescriptors0 x)).

(** [x'] is [x] except for its flags. *)
Definition onlyFlagsWritten (x x' : GfxRenderInst) : Prop :=
  x' = set_flags (_flags x') x.

(** * Properties *)

(** A sequence of calls that returns has returned at every call. *)
Lemma bind_Ok {A B : Type} (m : result A) (k : A -> result B) (b : B) :
  (m ≫= k) = Ok b -> exists a, m = Ok a /\ k a = Ok b.
Proof. destruct m as [a|e]; simpl; [eauto|discriminate]. Qed.

(** Closed goals about the example scenes are settled by evaluation. *)
Ltac by_evaluation := repeat split; vm_compute; reflexivity.

(** ** The sort, for a comparator whose [order < 0] answers decide an order *)

Lemma StronglySorted_lookup {A : Type} (R : A -> A -> Prop) (l : list A) i j x y :
  StronglySorted R l -> i < j -> l !! i = Some x -> l !! j = Some y -> R x y.
Proof.
  intros Hs. revert i j. induction Hs as [|z l Hl IH Hz]; intros i j Hij Hi Hj.
  - by rewrite lookup_nil in Hi.
  - destruct j as [|j]; [lia|]. simpl in Hj.
    destruct i as [|i]; simpl in Hi.
    + injection Hi as ->. rewrite Forall_forall in Hz.
      apply Hz, list_elem_of_lookup. eauto.
    + apply (IH i j); [lia|done..].
Qed.

Section Sorting.
Context {A : Type} (comparefn : A -> A -> Z) (le : A -> A -> Prop) (P : A -> Prop).
Hypothesis le_of_negative :
  forall x y, P x -> P y -> (comparefn x y < 0)%Z -> le x y.
Hypothesis le_of_nonnegative :
  forall x y, P x -> P y -> (comparefn x y >= 0)%Z -> le y x.
Hypothesis le_transitive : forall x y z, le x y -> le y z -> le x z.

Lemma reverseRange_Permutation (a : list A) to : Permutation (reverseRange a to) a.
Proof.
  unfold reverseRange. rewrite <- Permutation_rev. by rewrite take_drop.
Qed.

Lemma continueRun_length d prev (rest : list A) :
  continueRun comparefn d prev rest <= length rest.
Proof.
  revert prev. induction rest as [|c rest IH]; intros prev; simpl; [lia|].
  destruct d.
  - destruct (_ >=? _)%Z; [lia|]. specialize (IH c). lia.
  - destruct (_ <? _)%Z; [lia|]. specialize (IH c). lia.
Qed.

Lemma countAndMakeRun_Permutation a :
  Permutation (fst (countAndMakeRun comparefn a)) a.
Proof.
  destruct a as [|x [|y rest]]; simpl; [done..|].
  destruct (_ <? _)%Z; [|done]. apply reverseRange_Permutation.
Qed.

Lemma countAndMakeRun_length a :
  snd (countAndMakeRun comparefn a) <= length a.
Proof.
  destruct a as [|x [|y rest]]; simpl; [lia..|].
  pose proof (continueRun_length (comparefn y x <? 0)%Z y rest). lia.
Qed.

Lemma findInsertionPoint_bounds a pivot steps :
  forall left right, left <= right ->
    left <= findInsertionPoint comparefn a pivot left right steps <= right.
Proof.
  induction steps as [|steps IH]; intros left right Hle; cbn [findInsertionPoint]; [lia|].
  case_bool_decide as Hlt; [|lia].
  pose proof (Nat.lt_div2 (right - left) ltac:(lia)) as Hd.
  set (mid := left + Nat.div2 (right - left)) in *.
  assert (left <= mid < right) as Hmid.
  { unfold mid. revert Hd. generalize (Nat.div2 (right - left)). intros d Hd. lia. }
  clearbody mid. clear Hd.
  destruct (a !! mid); [|lia].
  destruct (_ <? _)%Z.
  - specialize (IH left mid ltac:(lia)). lia.
  - specialize (IH (S mid) right ltac:(lia)). lia.
Qed.

(** The binary search is over within [right - left] steps: more steps
    change nothing. *)
Lemma findInsertionPoint_steps a pivot steps :
  forall steps' left right,
    right - left <= steps -> right - left <= steps' ->
    findInsertionPoint comparefn a pivot left right steps
    = findInsertionPoint comparefn a pivot left right steps'.
Proof.
  induction steps as [|steps IH]; intros steps' left right Hs Hs'.
  - destruct steps' as [|steps']; [done|]. cbn [findInsertionPoint].
    rewrite bool_decide_eq_false_2 by lia. done.
  - destruct steps' as [|steps'].
    { cbn [findInsertionPoint]. rewrite bool_decide_eq_false_2 by lia. done. }
    cbn [findInsertionPoint]. case_bool_decide as Hlt; [|done].
    pose proof (Nat.lt_div2 (right - left) ltac:(lia)) as Hd.
    set (mid := left + Nat.div2 (right - left)) in *.
    assert (left <= mid < right) as Hmid.
    { unfold mid. revert Hd. generalize (Nat.div2 (right - left)). intros d Hd. lia. }
    clearbody mid. clear Hd.
    destruct (a !! mid); [|done].
    destruct (_ <? _)%Z; apply IH; lia.
Qed.

Lemma insertPivot_eq a start pivot :
  a !! start = Some pivot ->
  exists left,
    left = findInsertionPoint comparefn a pivot 0 start start
    /\ left <= start
    /\ insertPivot comparefn a start
       = (take left (take start a) ++ pivot :: drop left (take start a))
         ++ drop (S start) a.
Proof.
  intros Hp. unfold insertPivot. rewrite Hp.
  pose proof (findInsertionPoint_bounds a pivot start 0 start ltac:(lia)) as [_ Hl].
  eexists. split; [reflexivity|]. split; [done|].
  rewrite take_take, Nat.min_l by done.
  rewrite <- app_assoc. simpl. f_equal. f_equal.
  by rewrite skipn_firstn_comm.
Qed.

Lemma insertPivot_Permutation a start : Permutation (insertPivot comparefn a start) a.
Proof.
  destruct (a !! start) as [pivot|] eqn:Hp.
  - destruct (insertPivot_eq a start pivot Hp) as (left & _ & Hl & ->).
    rewrite <- Permutation_middle.
    rewrite take_drop.
    rewrite <- (take_drop_middle a start pivot Hp) at 3.
    by rewrite <- Permutation_middle.
  - unfold insertPivot. by rewrite Hp.
Qed.

Lemma binaryInsertionSort_Permutation count :
  forall a start, Permutation (binaryInsertionSort comparefn a start count) a.
Proof.
  induction count as [|count IH]; intros a start; simpl; [done|].
  by rewrite IH, insertPivot_Permutation.
Qed.

Lemma arraySort_Permutation a : Permutation (arraySort comparefn a) a.
Proof.
  unfold arraySort. destruct (_ <? _); [done|].
  destruct (countAndMakeRun comparefn a) as [a1 run] eqn:E.
  rewrite binaryInsertionSort_Permutation.
  change a1 with (fst (a1, run)). rewrite <- E. apply countAndMakeRun_Permutation.
Qed.

Lemma StronglySorted_rev_flip (l : list A) :
  StronglySorted (flip le) l -> StronglySorted le (rev l).
Proof.
  induction 1 as [|x l Hl IH Hx]; simpl; [constructor|].
  apply StronglySorted_app_2; [|done|repeat constructor].
  intros x1 x2 H1 H2. apply list_elem_of_singleton in H2 as ->.
  rewrite Forall_forall in Hx. apply Hx.
  apply list_elem_of_In, in_rev in H1. by apply list_elem_of_In.
Qed.

(** The binary search of [binaryInsertionSort] finds, in a sorted prefix,
    the place of the pivot. *)
Lemma findInsertionPoint_spec a pivot start :
  Forall P a -> P pivot -> start <= length a ->
  StronglySorted le (take start a) ->
  forall steps left right,
    left <= right <= start -> right - left <= steps ->
    (forall i x, i < left -> a !! i = Some x -> le x pivot) ->
    (forall i x, right <= i < start -> a !! i = Some x -> le pivot x) ->
    (forall i x, i < findInsertionPoint comparefn a pivot left right steps ->
       a !! i = Some x -> le x pivot)
    /\ (forall i x, findInsertionPoint comparefn a pivot left right steps <= i < start ->
          a !! i = Some x -> le pivot x).
Proof.
  intros HP Hpivot Hlen Hs.
  assert (forall i j x y, i < j < start -> a !! i = Some x -> a !! j = Some y -> le x y)
    as Hsorted.
  { intros i j x y Hij Hi Hj.
    apply (StronglySorted_lookup le (take start a) i j x y Hs); [lia|..].
    - rewrite lookup_take_lt by lia. done.
    - rewrite lookup_take_lt by lia. done. }
  induction steps as [|steps IH]; intros left right Hlr Hsteps Hl Hr;
    cbn [findInsertionPoint].
  - assert (left = right) as -> by lia. done.
  - case_bool_decide as Hlt.
    2:{ assert (left = right) as -> by lia. done. }
    pose proof (Nat.lt_div2 (right - left) ltac:(lia)) as Hd.
    set (mid := left + Nat.div2 (right - left)) in *.
    assert (left <= mid < right) as Hmid.
    { unfold mid. revert Hd. generalize (Nat.div2 (right - left)). intros d Hd. lia. }
    clearbody mid. clear Hd.
    destruct (lookup_lt_is_Some_2 a mid ltac:(lia)) as [m Hm]. rewrite Hm.
    assert (P m) as Pm.
    { rewrite Forall_forall in HP. apply HP, list_elem_of_lookup. eauto. }
    destruct (Z.ltb_spec (comparefn pivot m) 0) as [Hc|Hc].
    + apply IH; [lia|lia|done|].
      intros i x Hi Hx.
      assert (le pivot m) as Hpm by (by apply le_of_negative).
      destruct (decide (i = mid)) as [->|Hne]; [congruence|].
      destruct (decide (i < right)) as [Hir|Hir]; [|apply (Hr i x); [lia|done]].
      apply (le_transitive _ m); [done|]. apply (Hsorted mid i); [lia|done..].
    + apply IH; [lia|lia| |done].
      intros i x Hi Hx.
      assert (le m pivot) as Hmp by (apply le_of_nonnegative; [done..|lia]).
      destruct (decide (i = mid)) as [->|Hne]; [congruence|].
      destruct (decide (i < left)) as [Hil|Hil]; [by apply (Hl i x)|].
      apply (le_transitive _ m); [|done]. apply (Hsorted i mid); [lia|done..].
Qed.

Lemma insertPivot_sorted a start pivot :
  Forall P a -> a !! start = Some pivot ->
  StronglySorted le (take start a) ->
  StronglySorted le (take (S start) (insertPivot comparefn a start)).
Proof.
  intros HP Hp Hs.
  pose proof (lookup_lt_Some _ _ _ Hp) as Hlt.
  assert (P pivot) as Ppivot.
  { rewrite Forall_forall in HP. apply HP, list_elem_of_lookup. eauto. }
  destruct (insertPivot_eq a start pivot Hp) as (left & Hleft & Hl & ->).
  destruct (findInsertionPoint_spec a pivot start HP Ppivot ltac:(lia) Hs start 0 start)
    as [Hbefore Hafter]; [lia|lia|intros; lia|intros; lia|].
  rewrite <- Hleft in Hbefore, Hafter.
  rewrite take_app_length'.
  2:{ rewrite length_app. simpl. rewrite length_take, length_drop, length_take. lia. }
  rewrite <- (take_drop left (take start a)) in Hs.
  apply StronglySorted_app_2.
  - intros x1 x2 H1 [->|H2]%elem_of_cons.
    + apply elem_of_take in H1 as (i & Hi & Hlti).
      apply lookup_take_Some in Hi as [Hi _]. by apply (Hbefore i).
    + by apply (StronglySorted_app_1_elem_of _ _ _ _ _ Hs).
  - by apply StronglySorted_app_1_l in Hs.
  - constructor; [by apply StronglySorted_app_1_r in Hs|].
    apply Forall_forall. intros x Hx.
    apply list_elem_of_lookup in Hx as [j Hj].
    rewrite lookup_drop in Hj. apply lookup_take_Some in Hj as [Hj Hjs].
    apply (Hafter (left + j)); [lia|done].
Qed.

Lemma insertPivot_Forall a start : Forall P a -> Forall P (insertPivot comparefn a start).
Proof. intros H. by rewrite insertPivot_Permutation. Qed.

Lemma binaryInsertionSort_sorted count :
  forall a start,
    Forall P a -> start + count <= length a ->
    StronglySorted le (take start a) ->
    StronglySorted le (take (start + count) (binaryInsertionSort comparefn a start count)).
Proof.
  induction count as [|count IH]; intros a start HP Hlen Hs; simpl.
  - by rewrite Nat.add_0_r.
  - destruct (lookup_lt_is_Some_2 a start ltac:(lia)) as [pivot Hp].
    replace (start + S count) with (S start + count) by lia.
    apply IH.
    + by apply insertPivot_Forall.
    + rewrite (Permutation_length (insertPivot_Permutation a start)). lia.
    + by eapply insertPivot_sorted.
Qed.

Lemma continueRun_ascending prev rest :
  P prev -> Forall P rest ->
  Sorted le (prev :: take (continueRun comparefn false prev rest) rest).
Proof.
  revert prev. induction rest as [|c rest IH]; intros prev Pp HP; simpl.
  - repeat constructor.
  - inversion HP as [|? ? Pc Prest]; subst.
    destruct (Z.ltb_spec (comparefn c prev) 0) as [Hc|Hc]; simpl.
    + repeat constructor.
    + constructor; [by apply IH|]. constructor.
      apply le_of_nonnegative; [done..|lia].
Qed.

Lemma continueRun_descending prev rest :
  P prev -> Forall P rest ->
  Sorted (flip le) (prev :: take (continueRun comparefn true prev rest) rest).
Proof.
  revert prev. induction rest as [|c rest IH]; intros prev Pp HP; simpl.
  - repeat constructor.
  - inversion HP as [|? ? Pc Prest]; subst.
    destruct (Z.geb_spec (comparefn c prev) 0) as [Hc|Hc]; simpl.
    + repeat constructor.
    + constructor; [by apply IH|]. constructor.
      unfold flip. apply le_of_negative; [done..|lia].
Qed.

(** [countAndMakeRun] leaves a sorted run at the front of the array. *)
Lemma countAndMakeRun_sorted a :
  Forall P a ->
  StronglySorted le
    (take (snd (countAndMakeRun comparefn a)) (fst (countAndMakeRun comparefn a))).
Proof.
  intros HP. destruct a as [|x [|y rest]]; simpl.
  - constructor.
  - repeat constructor.
  - inversion HP as [|? ? Px HP']; subst. inversion HP' as [|? ? Py Prest]; subst.
    pose proof (continueRun_length (comparefn y x <? 0)%Z y rest) as Hk.
    destruct (Z.ltb_spec (comparefn y x) 0) as [Hc|Hc].
    + unfold reverseRange.
      rewrite take_app_length' by (rewrite length_rev, length_take; simpl; lia).
      apply StronglySorted_rev_flip.
      apply Sorted_StronglySorted.
      { intros u v w. unfold flip. eauto. }
      simpl. constructor; [by apply continueRun_descending|].
      constructor. unfold flip. by apply le_of_negative.
    + apply Sorted_StronglySorted.
      { intros u v w. eauto. }
      simpl. constructor; [by apply continueRun_ascending|].
      constructor. apply le_of_nonnegative; [done..|lia].
Qed.

Lemma arraySort_StronglySorted a :
  Forall P a -> StronglySorted le (arraySort comparefn a).
Proof.
  intros HP. unfold arraySort.
  destruct (Nat.ltb_spec (length a) 2) as [Hshort|Hlong].
  - destruct a as [|x [|y rest]]; [constructor|repeat constructor|simpl in Hshort; lia].
  - pose proof (countAndMakeRun_sorted a HP) as Hs.
    pose proof (countAndMakeRun_Permutation a) as Hperm.
    pose proof (countAndMakeRun_length a) as Hrun.
    destruct (countAndMakeRun comparefn a) as [a1 run]. simpl in *.
    pose proof (Permutation_length Hperm) as Hlen.
    rewrite <- (take_ge (binaryInsertionSort comparefn a1 run (length a - run))
                  (run + (length a - run))).
    2:{ rewrite (Permutation_length (binaryInsertionSort_Permutation _ _ _)). lia. }
    apply binaryInsertionSort_sorted; [by rewrite Hperm|lia|done].
Qed.

End Sorting.

(** ** The sort keeps the order of elements it does not rank *)

Section Before.
Context {A : Type}.
Implicit Types l : list A.

Lemma before_elem_of l x y : before l x y -> x ∈ l /\ y ∈ l.
Proof.
  induction l as [|z l IH]; simpl; [done|].
  intros [[-> Hy]|H].
  - split; [left|by right].
  - destruct (IH H). split; by right.
Qed.

Lemma before_app l1 l2 x y :
  before (l1 ++ l2) x y
  <-> before l1 x y \/ before l2 x y \/ (x ∈ l1 /\ y ∈ l2).
Proof.
  induction l1 as [|z l1 IH]; simpl.
  - split; [auto|]. intros [[]|[H|[H _]]]; [done|]. by apply elem_of_nil in H.
  - rewrite IH, elem_of_app. split.
    + intros [[-> [Hy|Hy]]|[H|[H|[Hx Hy]]]]; auto.
      * right. right. split; [left|done].
      * right. right. split; [by right|done].
    + intros [[[-> Hy]|H]|[H|[Hx Hy]]]; auto.
      apply elem_of_cons in Hx as [->|Hx]; auto.
Qed.

Lemma elem_of_rev' l x : x ∈ rev l <-> x ∈ l.
Proof. rewrite !list_elem_of_In. symmetry. apply in_rev. Qed.

Lemma before_rev l x y : before (rev l) x y <-> before l y x.
Proof.
  induction l as [|z l IH]; simpl; [done|].
  rewrite before_app, IH, elem_of_rev'. simpl. split.
  - intros [H|[[[-> H]|[]]|[Hx Hy]]]; auto.
    + by apply elem_of_nil in H.
    + apply list_elem_of_singleton in Hy as ->. auto.
  - intros [[-> Hx]|H]; auto.
    right. right. split; [done|]. by apply list_elem_of_singleton.
Qed.

Lemma before_NoDup_asymmetric l x y : NoDup l -> before l x y -> before l y x -> False.
Proof.
  induction 1 as [|z l Hz Hnd IH]; simpl; [done|].
  intros [[-> Hy]|H1] [[E Hx]|H2].
  - subst. done.
  - apply before_elem_of in H2 as [_ ?]. done.
  - subst. apply before_elem_of in H1 as [_ ?]. done.
  - by apply IH.
Qed.

Lemma before_total l x y : x ∈ l -> y ∈ l -> x <> y -> before l x y \/ before l y x.
Proof.
  induction l as [|z l IH]; simpl; intros Hx Hy Hne.
  - by apply elem_of_nil in Hx.
  - apply elem_of_cons in Hx as [->|Hx], Hy as [->|Hy]; [done|auto..].
    destruct (IH Hx Hy Hne); auto.
Qed.

(** Two arrangements of the same distinct elements in which every pair
    comes in the same order are equal. *)
Lemma before_determines l1 :
  forall l2, NoDup l1 -> Permutation l1 l2 ->
    (forall x y, before l1 x y -> before l2 x y) -> l1 = l2.
Proof.
  induction l1 as [|x l1 IH]; intros l2 Hnd Hperm Hb.
  - by apply Permutation_nil in Hperm.
  - apply NoDup_cons in Hnd as [Hx Hnd].
    destruct l2 as [|z l2]; [by apply Permutation_sym, Permutation_nil in Hperm|].
    assert (NoDup (z :: l2)) as Hnd2.
    { rewrite <- Hperm. by apply NoDup_cons. }
    apply NoDup_cons in Hnd2 as [Hz Hnd2].
    assert (z ∈ x :: l1) as Hzin by (rewrite Hperm; left).
    apply elem_of_cons in Hzin as [->|Hzl].
    + f_equal. apply IH; [done|by eapply Permutation_cons_inv|].
      intros a b Hab.
      destruct (Hb a b) as [[-> _]|H]; [simpl; by right| |done].
      apply before_elem_of in Hab as [? _]. done.
    + destruct (Hb x z) as [[E _]|H]; [simpl; by left|by subst|].
      apply before_elem_of in H as [_ ?]. done.
Qed.

End Before.

Lemma StronglySorted_before {A : Type} (R : A -> A -> Prop) (l : list A) x y :
  StronglySorted R l -> before l x y -> R x y.
Proof.
  induction 1 as [|z l Hl IH Hz]; simpl; [done|].
  intros [[-> Hy]|H]; [|by apply IH].
  rewrite Forall_forall in Hz. by apply Hz.
Qed.

Lemma before_NoDup_ne {A : Type} (l : list A) x y : NoDup l -> before l x y -> x <> y.
Proof.
  induction 1 as [|z l Hz Hnd IH]; simpl; [done|].
  intros [[-> Hy]|H]; [|by apply IH]. intros ->. done.
Qed.

Lemma keepsOrder_trans {A : Type} (comparefn : A -> A -> Z) (a b c : list A) :
  keepsOrder comparefn a b -> keepsOrder comparefn b c -> keepsOrder comparefn a c.
Proof. unfold keepsOrder. eauto. Qed.

Section StableSorting.
Context {A : Type} (comparefn : A -> A -> Z) (le : A -> A -> Prop) (P : A -> Prop).
Hypothesis le_of_negative :
  forall x y, P x -> P y -> (comparefn x y < 0)%Z -> le x y.
Hypothesis le_of_nonnegative :
  forall x y, P x -> P y -> (comparefn x y >= 0)%Z -> le y x.
Hypothesis le_transitive : forall x y z, le x y -> le y z -> le x z.
Hypothesis negative_not_le :
  forall x y, P x -> P y -> (comparefn x y < 0)%Z -> ~ le y x.

Lemma negative_le_trans x y z :
  P x -> P y -> P z -> (comparefn x y < 0)%Z -> le y z -> (comparefn x z < 0)%Z.
Proof.
  intros Px Py Pz Hxy Hyz.
  destruct (Z_lt_ge_dec (comparefn x z) 0) as [|Hge]; [done|].
  exfalso. apply (negative_not_le x y Px Py Hxy).
  apply (le_transitive _ z); [done|]. by apply le_of_nonnegative.
Qed.

Lemma negative_trans x y z :
  P x -> P y -> P z ->
  (comparefn x y < 0)%Z -> (comparefn y z < 0)%Z -> (comparefn x z < 0)%Z.
Proof.
  intros Px Py Pz Hxy Hyz. apply (negative_le_trans x y z); [done..|].
  by apply le_of_negative.
Qed.

(** The binary search stops behind the elements the pivot is not less
    than, in front of the elements the pivot is less than. *)
Lemma findInsertionPoint_strict a pivot start :
  Forall P a -> P pivot -> start <= length a ->
  StronglySorted le (take start a) ->
  forall steps left right,
    left <= right <= start -> right - left <= steps ->
    (forall i x, i < left -> a !! i = Some x -> (comparefn pivot x >= 0)%Z) ->
    (forall i x, right <= i < start -> a !! i = Some x -> (comparefn pivot x < 0)%Z) ->
    (forall i x, i < findInsertionPoint comparefn a pivot left right steps ->
       a !! i = Some x -> (comparefn pivot x >= 0)%Z)
    /\ (forall i x, findInsertionPoint comparefn a pivot left right steps <= i < start ->
          a !! i = Some x -> (comparefn pivot x < 0)%Z).
Proof.
  intros HP Hpivot Hlen Hs.
  assert (forall i x, a !! i = Some x -> P x) as HPa.
  { intros i x Hx. rewrite Forall_forall in HP. apply HP, list_elem_of_lookup. eauto. }
  assert (forall i j x y, i < j < start -> a !! i = Some x -> a !! j = Some y -> le x y)
    as Hsorted.
  { intros i j x y Hij Hi Hj.
    apply (StronglySorted_lookup le (take start a) i j x y Hs); [lia|..].
    - rewrite lookup_take_lt by lia. done.
    - rewrite lookup_take_lt by lia. done. }
  induction steps as [|steps IH]; intros left right Hlr Hsteps Hl Hr;
    cbn [findInsertionPoint].
  - assert (left = right) as -> by lia. done.
  - case_bool_decide as Hlt.
    2:{ assert (left = right) as -> by lia. done. }
    pose proof (Nat.lt_div2 (right - left) ltac:(lia)) as Hd.
    set (mid := left + Nat.div2 (right - left)) in *.
    assert (left <= mid < right) as Hmid.
    { unfold mid. revert Hd. generalize (Nat.div2 (right - left)). intros d Hd. lia. }
    clearbody mid. clear Hd.
    destruct (lookup_lt_is_Some_2 a mid ltac:(lia)) as [m Hm]. rewrite Hm.
    destruct (Z.ltb_spec (comparefn pivot m) 0) as [Hc|Hc].
    + apply IH; [lia|lia|done|].
      intros i x Hi Hx.
      destruct (decide (i = mid)) as [->|Hne]; [congruence|].
      destruct (decide (i < right)) as [Hir|Hir]; [|apply (Hr i x); [lia|done]].
      apply (negative_le_trans pivot m x); eauto.
      apply (Hsorted mid i); [lia|done..].
    + apply IH; [lia|lia| |done].
      intros i x Hi Hx.
      destruct (decide (i = mid)) as [->|Hne]; [assert (x = m) as -> by congruence; lia|].
      destruct (decide (i < left)) as [Hil|Hil]; [by apply (Hl i x)|].
      destruct (Z_lt_ge_dec (comparefn pivot x) 0) as [Hlt'|]; [|done].
      exfalso. assert (comparefn pivot m < 0)%Z; [|lia].
      apply (negative_le_trans pivot x m); eauto.
      apply (Hsorted i mid); [lia|done..].
Qed.

Lemma insertPivot_keepsOrder a start :
  Forall P a -> StronglySorted le (take start a) ->
  keepsOrder comparefn a (insertPivot comparefn a start).
Proof.
  intros HP Hs.
  destruct (a !! start) as [pivot|] eqn:Hp.
  2:{ unfold insertPivot. rewrite Hp. by intros x y. }
  pose proof (lookup_lt_Some _ _ _ Hp) as Hlt.
  assert (P pivot) as Ppivot.
  { rewrite Forall_forall in HP. apply HP, list_elem_of_lookup. eauto. }
  destruct (insertPivot_eq comparefn a start pivot Hp) as (left & Hleft & Hl & ->).
  destruct (findInsertionPoint_strict a pivot start HP Ppivot ltac:(lia) Hs start 0 start)
    as [_ Hafter]; [lia|lia|intros; lia|intros; lia|].
  rewrite <- Hleft in Hafter.
  assert (forall e, e ∈ drop left (take start a) -> (comparefn pivot e < 0)%Z) as Hless.
  { intros e He. apply list_elem_of_lookup in He as [j Hj].
    rewrite lookup_drop in Hj. apply lookup_take_Some in Hj as [Hj Hjs].
    apply (Hafter (left + j)); [lia|done]. }
  intros x y Hb Hc.
  rewrite <- (take_drop_middle a start pivot Hp) in Hb.
  rewrite <- (take_drop left (take start a)) in Hb.
  revert Hb. generalize (drop (S start) a) as R.
  revert Hless. generalize (drop left (take start a)) as A2.
  generalize (take left (take start a)) as A1.
  intros A1 A2 Hless R.
  assert (x ∈ A2 -> y = pivot -> False) as Hbad.
  { intros Hx ->. specialize (Hless x Hx). lia. }
  clear Hless Hc.
  rewrite !before_app. cbn [before]. rewrite ?before_app, !elem_of_app, !elem_of_cons.
  intros Hb. intuition (subst; auto 10).
Qed.

Lemma binaryInsertionSort_keepsOrder count :
  forall a start,
    Forall P a -> start + count <= length a ->
    StronglySorted le (take start a) ->
    keepsOrder comparefn a (binaryInsertionSort comparefn a start count).
Proof.
  induction count as [|count IH]; intros a start HP Hlen Hs; simpl.
  - by intros x y.
  - destruct (lookup_lt_is_Some_2 a start ltac:(lia)) as [pivot Hp].
    eapply keepsOrder_trans; [by apply insertPivot_keepsOrder|].
    apply IH.
    + by rewrite insertPivot_Permutation.
    + rewrite (Permutation_length (insertPivot_Permutation comparefn a start)). lia.
    + by eapply (insertPivot_sorted comparefn le P).
Qed.

Lemma continueRun_strictly_descending prev rest :
  P prev -> Forall P rest ->
  forall x y,
    before (prev :: take (continueRun comparefn true prev rest) rest) x y ->
    (comparefn y x < 0)%Z.
Proof.
  revert prev. induction rest as [|c rest IH]; intros prev Pp HP x y.
  - simpl. intros [[_ H]|[]]. by apply elem_of_nil in H.
  - inversion HP as [|? ? Pc Prest]; subst.
    cbn [continueRun].
    destruct (Z.geb_spec (comparefn c prev) 0) as [Hc|Hc].
    { simpl. intros [[_ H]|[]]. by apply elem_of_nil in H. }
    rewrite firstn_cons. intros [[-> Hy]|H]; [|by apply (IH c)].
    apply elem_of_cons in Hy as [->|Hy]; [lia|].
    assert (P y) as Py.
    { rewrite Forall_forall in Prest. apply Prest.
      apply elem_of_take in Hy as (i & Hi & _). apply list_elem_of_lookup. eauto. }
    apply (negative_trans y c x); [done..| |lia].
    apply (IH c Pc Prest). simpl. by left.
Qed.

Lemma countAndMakeRun_keepsOrder a :
  Forall P a -> keepsOrder comparefn a (fst (countAndMakeRun comparefn a)).
Proof.
  intros HP. destruct a as [|eh [|el rest]]; [by intros x y..|].
  inversion HP as [|? ? Ph HP']; subst. inversion HP' as [|? ? Pl Prest]; subst.
  cbn [countAndMakeRun].
  destruct (Z.ltb_spec (comparefn el eh) 0) as [Hc|Hc]; [|by intros x y].
  cbn [fst]. unfold reverseRange.
  set (k := continueRun comparefn true el rest).
  assert (forall x y, before (take (2 + k) (eh :: el :: rest)) x y ->
                      (comparefn y x < 0)%Z) as Hrun.
  { cbn [Nat.add]. rewrite !firstn_cons. intros x y [[-> Hy]|H].
    - apply elem_of_cons in Hy as [->|Hy]; [done|].
      assert (P y) as Py.
      { rewrite Forall_forall in Prest. apply Prest.
        apply elem_of_take in Hy as (i & Hi & _). apply list_elem_of_lookup. eauto. }
      apply (negative_trans y el x); [done..| |done].
      apply (continueRun_strictly_descending el rest Pl Prest). simpl. by left.
    - by apply (continueRun_strictly_descending el rest Pl Prest). }
  intros x y Hb Hcmp.
  rewrite <- (take_drop (2 + k) (eh :: el :: rest)) in Hb.
  rewrite before_app in *. rewrite before_rev, elem_of_rev'.
  destruct Hb as [H|[H|H]]; auto.
  specialize (Hrun _ _ H). lia.
Qed.

(** The sort keeps two elements in their order unless the later one is
    less than the earlier one. *)
Lemma arraySort_keepsOrder a :
  Forall P a -> keepsOrder comparefn a (arraySort comparefn a).
Proof.
  intros HP. unfold arraySort.
  destruct (Nat.ltb_spec (length a) 2) as [Hshort|Hlong]; [by intros x y|].
  pose proof (countAndMakeRun_keepsOrder a HP) as Hk.
  pose proof (countAndMakeRun_sorted comparefn le P le_of_negative le_of_nonnegative
                le_transitive a HP) as Hs.
  pose proof (countAndMakeRun_Permutation comparefn a) as Hperm.
  pose proof (countAndMakeRun_length comparefn a) as Hrun.
  destruct (countAndMakeRun comparefn a) as [a1 run]. simpl in *.
  eapply keepsOrder_trans; [exact Hk|].
  apply binaryInsertionSort_keepsOrder; [by rewrite Hperm| |done].
  rewrite (Permutation_length Hperm). lia.
Qed.

(** The sorted array is the only arrangement of distinct elements that is
    in order and keeps apart the order of elements neither of which is
    less than the other. *)
Lemma arraySort_unique a a' :
  NoDup a -> Forall P a ->
  Permutation a' a -> StronglySorted le a' -> keepsOrder comparefn a a' ->
  a' = arraySort comparefn a.
Proof.
  intros Hnd HP Hperm Hs Hk.
  assert (forall x, x ∈ a -> P x) as HPa.
  { intros x Hx. rewrite Forall_forall in HP. by apply HP. }
  pose proof (arraySort_Permutation comparefn a) as Hperm'.
  pose proof (arraySort_StronglySorted comparefn le P le_of_negative le_of_nonnegative
                le_transitive a HP) as Hs'.
  pose proof (arraySort_keepsOrder a HP) as Hk'.
  assert (NoDup a') as Hnd' by (by rewrite Hperm).
  assert (NoDup (arraySort comparefn a)) as Hnd'' by (by rewrite Hperm').
  apply before_determines; [done|by rewrite Hperm, Hperm'|].
  intros x y Hb.
  pose proof (before_NoDup_ne _ _ _ Hnd' Hb) as Hne.
  destruct (before_elem_of _ _ _ Hb) as [Hx Hy].
  rewrite Hperm in Hx, Hy.
  destruct (before_total a x y Hx Hy Hne) as [Ha|Ha].
  - destruct (Z_lt_ge_dec (comparefn y x) 0) as [Hlt|Hge]; [|by apply Hk'].
    exfalso. apply (negative_not_le y x); auto.
    by apply (StronglySorted_before le a').
  - destruct (Z_lt_ge_dec (comparefn x y) 0) as [Hlt|Hge].
    + destruct (before_total (arraySort comparefn a) x y) as [|Hb'];
        [by rewrite Hperm'..|done|done|].
      exfalso. apply (negative_not_le x y); auto.
      by apply (StronglySorted_before le (arraySort comparefn a)).
    + exfalso. apply (before_NoDup_asymmetric a' x y); auto.
Qed.

End StableSorting.

(** ** The sort step of [executeOnPass] *)

Lemma compareRefs_negative h x y :
  is_Some (h !! x) -> is_Some (h !! y) ->
  (Manager.compareRefs h x y < 0)%Z -> refsInOrder h x y.
Proof.
  intros [a Ha] [b Hb]. unfold Manager.compareRefs, refsInOrder. rewrite Ha, Hb.
  intros Hc. exists a, b. split; [done|]. split; [done|].
  unfold compareRenderInsts, inOrder, visible in *.
  destruct (hasFlag (_flags a) VISIBLE); simpl in *; [|lia].
  destruct (hasFlag (_flags b) VISIBLE); simpl in *; [|by right].
  left. repeat split; lia.
Qed.

Lemma compareRefs_nonnegative h x y :
  is_Some (h !! x) -> is_Some (h !! y) ->
  (Manager.compareRefs h x y >= 0)%Z -> refsInOrder h y x.
Proof.
  intros [a Ha] [b Hb]. unfold Manager.compareRefs, refsInOrder. rewrite Ha, Hb.
  intros Hc. exists b, a. split; [done|]. split; [done|].
  unfold compareRenderInsts, inOrder, visible in *.
  destruct (hasFlag (_flags a) VISIBLE); simpl in *; [|by right].
  destruct (hasFlag (_flags b) VISIBLE); simpl in *; [|lia].
  left. repeat split; lia.
Qed.

Lemma inOrder_transitive a b c : inOrder a b -> inOrder b c -> inOrder a c.
Proof.
  unfold inOrder. intros Hab [(Hb & Hc & Hbc)|Hc]; [|by right].
  destruct Hab as [(Ha & _ & Hab)|Hb']; [|congruence].
  left. repeat split; [done..|lia].
Qed.

Lemma refsInOrder_transitive h x y z :
  refsInOrder h x y -> refsInOrder h y z -> refsInOrder h x z.
Proof.
  intros (a & b & Ha & Hb & Hab) (b' & c & Hb' & Hc & Hbc).
  assert (b' = b) as -> by congruence.
  exists a, c. eauto using inOrder_transitive.
Qed.

(** The sort step moves references only: the array holds the same objects. *)
Lemma sortPool_Permutation h p :
  Permutation (pool (Manager.sortPool h p)) (pool p).
Proof. apply arraySort_Permutation. Qed.

Lemma sortPool_StronglySorted h p :
  poolRefsValid h p -> StronglySorted (refsInOrder h) (pool (Manager.sortPool h p)).
Proof.
  intros Hv. simpl.
  apply (arraySort_StronglySorted (Manager.compareRefs h) (refsInOrder h)
           (fun r => is_Some (h !! r))); [..|done].
  - intros x y. apply compareRefs_negative.
  - intros x y. apply compareRefs_nonnegative.
  - apply refsInOrder_transitive.
Qed.

Lemma compareRefs_negative_not h x y :
  is_Some (h !! x) -> is_Some (h !! y) ->
  (Manager.compareRefs h x y < 0)%Z -> ~ refsInOrder h y x.
Proof.
  intros [a Ha] [b Hb]. unfold Manager.compareRefs, refsInOrder. rewrite Ha, Hb.
  intros Hc (b' & a' & Hb' & Ha' & Hord).
  assert (b' = b) as -> by congruence. assert (a' = a) as -> by congruence.
  unfold compareRenderInsts, inOrder, visible in *.
  destruct (hasFlag (_flags a) VISIBLE); simpl in *; [|lia].
  destruct (hasFlag (_flags b) VISIBLE); simpl in *.
  - destruct Hord as [(_ & _ & Hle)|Hn]; [lia|done].
  - destruct Hord as [(Hv & _)|Hn]; done.
Qed.

(** The sort step keeps two objects in their order unless the comparator
    says the later one comes first: instances with equal sort keys stay in
    their order, and so do invisible objects. *)
Lemma sortPool_keepsOrder h p :
  poolRefsValid h p ->
  keepsOrder (Manager.compareRefs h) (pool p) (pool (Manager.sortPool h p)).
Proof.
  intros Hv. simpl.
  apply (arraySort_keepsOrder (Manager.compareRefs h) (refsInOrder h)
           (fun r => is_Some (h !! r))); [..|done].
  - intros x y. apply compareRefs_negative.
  - intros x y. apply compareRefs_nonnegative.
  - apply refsInOrder_transitive.
  - intros x y. apply compareRefs_negative_not.
Qed.

(** The array after the sort step is the only arrangement of the pool's
    references that is in order and keeps the order of the objects the
    comparator does not rank: a sort that merges runs, or any other that
    keeps that order, leaves the same array. *)
Lemma sortPool_unique h p a' :
  poolRefsValid h p -> NoDup (pool p) ->
  Permutation a' (pool p) ->
  StronglySorted (refsInOrder h) a' ->
  keepsOrder (Manager.compareRefs h) (pool p) a' ->
  a' = pool (Manager.sortPool h p).
Proof.
  intros Hv Hnd Hperm Hs Hk. simpl.
  apply (arraySort_unique (Manager.compareRefs h) (refsInOrder h)
           (fun r => is_Some (h !! r))); [..|done|done|done|done|done].
  - intros x y. apply compareRefs_negative.
  - intros x y. apply compareRefs_nonnegative.
  - apply refsInOrder_transitive.
  - intros x y. apply compareRefs_negative_not.
Qed.

(** C1. After the sort step of [executeOnPass], for any two positions
    [i < j] of the live range [0, allocCount), either both instances are
    visible and the sort key at [i] is at most the sort key at [j], or the
    instance at [j] is not visible. *)
Theorem sort_step_orders_live_range h p i j a b :
  poolRefsValid h p ->
  i < j -> j < renderInstAllocCount p ->
  instAt h (Manager.sortPool h p) i = Some a ->
  instAt h (Manager.sortPool h p) j = Some b ->
  (visible a = true /\ visible b = true /\ (sortKey a <= sortKey b)%Z)
  \/ visible b = false.
Proof.
  intros Hv Hij _ Hi Hj. unfold instAt in *.
  destruct (pool (Manager.sortPool h p) !! i) as [ri|] eqn:Hri; [|done].
  destruct (pool (Manager.sortPool h p) !! j) as [rj|] eqn:Hrj; [|done].
  cbn in Hi, Hj.
  destruct (StronglySorted_lookup _ _ i j ri rj (sortPool_StronglySorted h p Hv) Hij Hri Hrj)
    as (a' & b' & Ha & Hb & Hab).
  assert (a' = a) as -> by congruence.
  assert (b' = b) as -> by congruence.
  exact Hab.
Qed.

Lemma sort_step_orders_live_range_witness :
  (visible (set_sortKey 5 (set_flags VISIBLE Inst.new)) = true
   /\ visible (set_sortKey 10 (set_flags VISIBLE Inst.new)) = true
   /\ (sortKey (set_sortKey 5 (set_flags VISIBLE Inst.new))
       <= sortKey (set_sortKey 10 (set_flags VISIBLE Inst.new)))%Z)
  \/ visible (set_sortKey 10 (set_flags VISIBLE Inst.new)) = false.
Proof.
  apply (sort_step_orders_live_range Scene.threeInsts Scene.threeInstsPool 0 1).
  - repeat constructor; eexists; reflexivity.
  - lia.
  - simpl. lia.
  - reflexivity.
  - reflexivity.
Defined.

(** ** Submission of one instance *)

Lemma bindingBaseSet_bound ubs this :
  bindingBaseSet ubs this -> uniformBufferBound ubs this.
Proof.
  unfold bindingBaseSet, uniformBufferBound.
  destruct (bindingLayout (_bindingDescriptors0 this)); eauto.
Qed.

Lemma new_bindingBaseSet ubs : bindingBaseSet ubs Inst.new.
Proof. reflexivity. Qed.

Lemma setBindingLayout_fields l this this' :
  Inst._setBindingLayout l this = Ok this' ->
  bindingLayout (_bindingDescriptors0 this') = Some l
  /\ _uniformBuffer this' = _uniformBuffer this
  /\ _dynamicUniformBufferOffsets this' = _dynamicUniformBufferOffsets this
  /\ numUniformBuffers l < length (_dynamicUniformBufferOffsets this).
Proof.
  unfold Inst._setBindingLayout. intros H.
  apply bind_Ok in H as ([] & Ha & H). injection H as <-.
  unfold assert in Ha. case_bool_decide; [done|discriminate].
Qed.

Lemma setBindingBase_bindingBaseSet ubs ls r ub this this' :
  ubs !! r = Some ub ->
  Inst.setBindingBase ls r this = Ok this' -> bindingBaseSet ubs this'.
Proof.
  intros Hr H. unfold Inst.setBindingBase in H.
  apply bind_Ok in H as (_ & _ & H). apply bind_Ok in H as (_ & _ & H).
  apply bind_Ok in H as (l & _ & H). apply bind_Ok in H as (this1 & H1 & H).
  injection H as <-. apply setBindingLayout_fields in H1 as (Hl & _).
  unfold bindingBaseSet. simpl. rewrite Hl. eauto.
Qed.

(** C7. When the pipeline resolved for an instance is not ready,
    [drawOnPass] returns without issuing any command on the render pass,
    leaves the instance as it is and does not raise. When it is ready (and
    the uniform buffer can be read), it issues setPipeline, setInputState,
    setBindings and then exactly one draw call. *)
Theorem drawOnPass_pipeline_readiness env ubs this :
  let gfxPipeline := createRenderPipeline env (_renderPipelineDescriptor this) in
  (queryPipelineReady env gfxPipeline = false ->
   Inst.drawOnPass env ubs this = Ok (this, []))
  /\ (queryPipelineReady env gfxPipeline = true ->
      uniformBufferBound ubs this ->
      exists this' gfxBindings d,
        Inst.drawOnPass env ubs this
        = Ok (this',
              [ setPipeline gfxPipeline;
                setInputStateCmd (_inputState this);
                setBindings 0 gfxBindings (_dynamicUniformBufferOffsets this);
                d ])
        /\ isDrawCall d = true).
Proof.
  intros gfxPipeline. unfold Inst.drawOnPass. fold gfxPipeline. split.
  - intros ->. reflexivity.
  - intros -> Hb. simpl.
    assert (exists bs, Inst.fillBuffers ubs this = Ok bs) as [bs Hbs].
    { unfold Inst.fillBuffers.
      destruct Hb as [->|(r & ub & -> & Hr)]; [eauto|].
      simpl. rewrite Hr. simpl.
      destruct (uniformBufferBindings (_bindingDescriptors0 this)); eauto. }
    rewrite Hbs. simpl. eexists _, _, _. split; [reflexivity|].
    unfold Inst.drawCommand. simpl.
    by destruct (hasFlag (_flags this) DRAW_INDEXED).
Qed.

Lemma drawOnPass_pipeline_readiness_witness :
  Inst.drawOnPass Scene.envPending Scene.uniformBuffers Inst.new = Ok (Inst.new, [])
  /\ exists this' gfxBindings d,
       Inst.drawOnPass Scene.env Scene.uniformBuffers Inst.new
       = Ok (this',
             [ setPipeline 7; setInputStateCmd None;
               setBindings 0 gfxBindings (_dynamicUniformBufferOffsets Inst.new); d ])
       /\ isDrawCall d = true.
Proof.
  split.
  - apply (drawOnPass_pipeline_readiness Scene.envPending Scene.uniformBuffers Inst.new).
    reflexivity.
  - apply (drawOnPass_pipeline_readiness Scene.env Scene.uniformBuffers Inst.new).
    + reflexivity.
    + left. reflexivity.
Defined.

(** ** Uniform-buffer allocation *)

Lemma arraySet_lookup {A : Type} (a : list (option A)) (i : nat) (v : A) :
  arraySet a i v !! i = Some (Some v).
Proof.
  unfold arraySet. case_decide as Hi.
  - by apply list_lookup_insert_eq.
  - rewrite lookup_app_r by lia.
    rewrite lookup_app_r; rewrite length_replicate; [|lia].
    by replace (i - length a - (i - length a)) with 0 by lia.
Qed.

(** C8, as the code has it. On an instance whose binding layout and
    uniform buffer are set, with the layout's uniform-buffer count below
    the capacity of the dynamic-offsets array and at most the number of
    uniform-buffer bindings (as [setBindingBase] and the copy from a
    template leave them), the assertion of [allocateUniformBuffer] holds
    whatever the slot. The call fails, with a TypeError, exactly for a slot
    that has no uniform-buffer binding, that is a slot at or beyond the
    length of the bindings array. For a slot within the layout's count, and
    as well for a slot beyond it that has a binding, the call records the
    offset returned by the collaborator for that slot, sets that binding's
    word count and returns the offset. *)
Theorem allocateUniformBuffer_fails_only_without_binding
  ubs bufferIndex words this l r ub :
  bindingLayout (_bindingDescriptors0 this) = Some l ->
  numUniformBuffers l < length (_dynamicUniformBufferOffsets this) ->
  numUniformBuffers l <= length (uniformBufferBindings (_bindingDescriptors0 this)) ->
  _uniformBuffer this = Some r ->
  ubs !! r = Some ub ->
  (length (uniformBufferBindings (_bindingDescriptors0 this)) <= bufferIndex ->
   Inst.allocateUniformBuffer ubs bufferIndex words this = Throw TypeError)
  /\ (bufferIndex < numUniformBuffers l -> allocatesSlot ubs bufferIndex words this r ub)
  /\ (bufferIndex < length (uniformBufferBindings (_bindingDescriptors0 this)) ->
      allocatesSlot ubs bufferIndex words this r ub).
Proof.
  intros Hl Hcap Hfit Hr Hub.
  assert (forall dst,
            uniformBufferBindings (_bindingDescriptors0 this) !! bufferIndex = dst ->
            Inst.allocateUniformBuffer ubs bufferIndex words this
            = match dst with
              | Some dst =>
                  Ok (<[r := fst (allocateChunk ub words)]> ubs,
                      set_bindings
                        (Inst.with_uniformBufferBindings
                           (<[bufferIndex := set_wordCount words (set_wordOffset 0 dst)]>
                              (uniformBufferBindings (_bindingDescriptors0 this)))
                           (_bindingDescriptors0 this))
                        (set_dynamicOffsets
                           (arraySet (_dynamicUniformBufferOffsets this) bufferIndex
                              (snd (allocateChunk ub words)))
                           this),
                      snd (allocateChunk ub words))
              | None => Throw TypeError
              end) as Hcall.
  { intros dst Hdst. unfold Inst.allocateUniformBuffer. rewrite Hl. simpl.
    unfold assert. rewrite bool_decide_eq_true_2 by lia. simpl.
    rewrite Hr. simpl. rewrite Hub. simpl.
    destruct (allocateChunk ub words) as [ub' offset]. rewrite Hdst.
    by destruct dst. }
  assert (bufferIndex < length (uniformBufferBindings (_bindingDescriptors0 this)) ->
          allocatesSlot ubs bufferIndex words this r ub) as Hok.
  { intros Hlt.
    destruct (lookup_lt_is_Some_2 _ _ Hlt) as [dst Hdst].
    unfold allocatesSlot. eexists _, _, _.
    split; [exact (Hcall _ Hdst)|]. simpl.
    split; [apply list_lookup_insert_eq; by eapply lookup_lt_Some|].
    split; [apply arraySet_lookup|].
    split; [by apply list_lookup_insert_eq|].
    reflexivity. }
  split; [|split].
  - intros Hge. apply (Hcall None). by apply lookup_ge_None_2.
  - intros Hin. apply Hok. lia.
  - exact Hok.
Qed.

Lemma allocateUniformBuffer_fails_only_without_binding_witness :
  exists this,
    Scene.shrunkLayoutInst = Ok this
    /\ numUniformBuffers <$> bindingLayout (_bindingDescriptors0 this) = Some 1
    /\ length (uniformBufferBindings (_bindingDescriptors0 this)) = 3
    /\ Inst.allocateUniformBuffer Scene.uniformBuffers 3 16 this = Throw TypeError
    /\ allocatesSlot Scene.uniformBuffers 0 16 this 0
         {| gfxBuffer := 42; currentWordOffset := 64 |}
    /\ allocatesSlot Scene.uniformBuffers 2 16 this 0
         {| gfxBuffer := 42; currentWordOffset := 64 |}.
Proof.
  let t := eval vm_compute in Scene.shrunkLayoutInst in
  match t with
  | Ok ?this =>
      exists this; split; [reflexivity|];
      split; [reflexivity|];
      split; [reflexivity|];
      pose proof (fun i =>
        allocateUniformBuffer_fails_only_without_binding
          Scene.uniformBuffers i 16 this (Scene.layout 1 0) 0
          {| gfxBuffer := 42; currentWordOffset := 64 |}
          eq_refl ltac:(simpl; lia) ltac:(simpl; lia) eq_refl eq_refl) as H
  end.
  split; [exact (proj1 (H 3) ltac:(simpl; lia))|].
  split; [exact (proj1 (proj2 (H 0)) ltac:(simpl; lia))|].
  exact (proj2 (proj2 (H 2)) ltac:(simpl; lia)).
Defined.

(** C8, counterexample to the claim as stated. An instance whose layout
    declares one uniform buffer accepts slot 2: the call neither asserts
    nor raises, and returns the offset. *)
Lemma allocateUniformBuffer_slot_beyond_layout_succeeds :
  exists this ubs' this',
    Scene.shrunkLayoutInst = Ok this
    /\ numUniformBuffers <$> bindingLayout (_bindingDescriptors0 this) = Some 1
    /\ Inst.allocateUniformBuffer Scene.uniformBuffers 2 16 this = Ok (ubs', this', 64%Z).
Proof.
  let v := eval vm_compute in Scene.shrunkLayoutInst in
  match v with
  | Ok ?this =>
      let w := eval vm_compute in (Inst.allocateUniformBuffer Scene.uniformBuffers 2 16 this) in
      match w with
      | Ok (?ubs', ?this', _) => exists this, ubs', this'
      end
  end.
  by_evaluation.
Qed.

(** ** Indexed and non-indexed draws *)

(** [drawOnPass] issues [drawIndexed] exactly when the DRAW_INDEXED bit is
    set. *)
Lemma drawCommand_indexed this :
  Inst.drawCommand this
  = if hasFlag (_flags this) DRAW_INDEXED
    then drawIndexed (_drawCount this) (_drawStart this)
    else draw (_drawCount this) (_drawStart this).
Proof. reflexivity. Qed.

(** [drawPrimitives] leaves the flags alone. *)
Lemma drawPrimitives_flags count start this :
  _flags (Inst.drawPrimitives count start this) = _flags this.
Proof. reflexivity. Qed.

(** C9, the code at the failing input. An instance is pushed, then
    [drawIndexes(6, 0)] and [drawPrimitives(3, 0)] are called on it; the
    frame's submission issues an indexed draw of the range (3, 0). *)
Theorem drawPrimitives_after_drawIndexes_draws_indexed :
  ('(h, m, r) ← Manager.pushRenderInst [] Manager.new;
   h ← withInst' r (Inst.drawIndexes 6 0) h;
   h ← withInst' r (Inst.drawPrimitives 3 0) h;
   '(_, _, cmds) ← Manager.executeOnPass Scene.env Scene.uniformBuffers h m;
   Ok cmds)
  = Ok [ setPipeline 7;
         setInputStateCmd None;
         setBindings 0 9 [Some 0%Z; Some 0%Z; Some 0%Z; Some 0%Z];
         drawIndexed (Some 3%Z) (Some 0%Z) ].
Proof. vm_compute. reflexivity. Qed.

(** ** The pool *)

Lemma clearFlags_length h a i n h' :
  Pool.clearFlags h a i n = Ok h' -> length h' = length h.
Proof.
  revert h i. induction n as [|n IH]; intros h i H; simpl in H.
  - by injection H as <-.
  - apply bind_Ok in H as (r & _ & H). apply IH in H.
    by rewrite length_alter in H.
Qed.

Lemma clearFlags_in_range h a i n :
  i + n <= length a -> exists h', Pool.clearFlags h a i n = Ok h'.
Proof.
  revert h i. induction n as [|n IH]; intros h i Hn; simpl; [eauto|].
  destruct (lookup_lt_is_Some_2 a i) as [r Hr]; [lia|].
  rewrite Hr. simpl. apply IH. lia.
Qed.

(** What [reset] does establish: the allocation count is 0, the array of
    references is the same array, and no object is created or dropped. It
    raises only when the allocation count exceeds the length of the array. *)
Lemma reset_retains_objects h p h' p' :
  Pool.reset h p = Ok (h', p') ->
  renderInstAllocCount p' = 0 /\ pool p' = pool p /\ length h' = length h.
Proof.
  unfold Pool.reset. intros H. apply bind_Ok in H as (h1 & H1 & H).
  injection H as <- <-. simpl. eauto using clearFlags_length.
Qed.

Lemma reset_total h p :
  renderInstAllocCount p <= length (pool p) -> exists h' p', Pool.reset h p = Ok (h', p').
Proof.
  intros Hn. unfold Pool.reset.
  destruct (clearFlags_in_range h (pool p) 0 (renderInstAllocCount p)) as [h' ->]; [lia|].
  simpl. eauto.
Qed.

Lemma clearFlags_keeps_cleared h a i n h' r :
  Pool.clearFlags h a i n = Ok h' ->
  _flags <$> h !! r = Some 0%Z -> _flags <$> h' !! r = Some 0%Z.
Proof.
  revert h i. induction n as [|n IH]; intros h i H Hr; simpl in H.
  - by injection H as <-.
  - apply bind_Ok in H as (r0 & _ & H). eapply IH; [exact H|].
    destruct (decide (r0 = r)) as [->|Hne].
    + rewrite list_lookup_alter_eq. by destruct (h !! r).
    + by rewrite list_lookup_alter_ne.
Qed.

Lemma clearFlags_clears h a i n h' k r :
  Pool.clearFlags h a i n = Ok h' ->
  i <= k < i + n -> a !! k = Some r -> is_Some (h !! r) ->
  _flags <$> h' !! r = Some 0%Z.
Proof.
  revert h i. induction n as [|n IH]; intros h i H Hk Hr Hv; simpl in H; [lia|].
  apply bind_Ok in H as (r0 & Hr0 & H).
  destruct (decide (k = i)) as [->|Hne].
  - rewrite Hr in Hr0. injection Hr0 as <-.
    eapply clearFlags_keeps_cleared; [exact H|].
    rewrite list_lookup_alter_eq. by destruct Hv as [x ->].
  - eapply IH; [exact H|lia|done|].
    destruct (decide (r0 = r)) as [->|Hne'].
    + rewrite list_lookup_alter_eq. by destruct Hv as [x ->].
    + by rewrite list_lookup_alter_ne.
Qed.

(** After [reset], every slot of the previously allocated prefix has
    flags 0. *)
Lemma reset_clears_flags h p h' p' i r :
  Pool.reset h p = Ok (h', p') ->
  i < renderInstAllocCount p -> pool p !! i = Some r -> is_Some (h !! r) ->
  _flags <$> h' !! r = Some 0%Z.
Proof.
  unfold Pool.reset. intros H Hi Hr Hv. apply bind_Ok in H as (h1 & H1 & H).
  injection H as <- <-.
  apply (clearFlags_clears h (pool p) 0 (renderInstAllocCount p) h1 i r); [done|lia|done..].
Qed.

(** The allocation count never exceeds the length of the array: every
    pool operation and the sort step maintain it. *)
Lemma allocRenderInstIndex_allocCount h p h1 p1 index :
  Pool.allocRenderInstIndex h p = (h1, p1, index) ->
  renderInstAllocCount p <= length (pool p) ->
  renderInstAllocCount p1 <= length (pool p1).
Proof.
  unfold Pool.allocRenderInstIndex. intros H Hle.
  repeat case_bool_decide; injection H as <- <- <-; simpl;
    rewrite ?length_app; simpl; lia.
Qed.

Lemma returnRenderInst_allocCount h p r h1 p1 :
  Pool.returnRenderInst h p r = (h1, p1) ->
  renderInstAllocCount p <= length (pool p) ->
  renderInstAllocCount p1 <= length (pool p1).
Proof. unfold Pool.returnRenderInst. intros H. by injection H as <- <-. Qed.

Lemma reset_allocCount h p h1 p1 :
  Pool.reset h p = Ok (h1, p1) -> renderInstAllocCount p1 <= length (pool p1).
Proof. intros H. apply reset_retains_objects in H as (-> & _). lia. Qed.

Lemma sortPool_allocCount h p :
  renderInstAllocCount p <= length (pool p) ->
  renderInstAllocCount (Manager.sortPool h p) <= length (pool (Manager.sortPool h p)).
Proof.
  intros Hle. rewrite (Permutation_length (sortPool_Permutation h p)). exact Hle.
Qed.

(** When no slot is counted free, [allocRenderInstIndex] returns the last
    index of the grown live range, which is an index of the array. *)
Lemma allocRenderInstIndex_grow h p h1 p1 index :
  Pool.allocRenderInstIndex h p = (h1, p1, index) ->
  renderInstFreeCount p = 0 ->
  renderInstAllocCount p <= length (pool p) ->
  index = Z.of_nat (renderInstAllocCount p)
  /\ (0 <= index < Z.of_nat (length (pool p1)))%Z.
Proof.
  unfold Pool.allocRenderInstIndex. intros H Hfree Hle.
  rewrite bool_decide_eq_false_2 in H by lia.
  case_bool_decide; injection H as <- <- <-; simpl;
    rewrite ?length_app; simpl; lia.
Qed.

(** [reset] does not touch the free count. *)
Lemma reset_freeCount h p h' p' :
  Pool.reset h p = Ok (h', p') -> renderInstFreeCount p' = renderInstFreeCount p.
Proof.
  unfold Pool.reset. intros H. apply bind_Ok in H as (h1 & H1 & H).
  by injection H as <- <-.
Qed.

(** C4, the code at the failing input. After a frame in which a template
    was pushed, an instance pushed under it and the template popped,
    [reset] leaves the allocation count at 0, keeps the array of
    references and clears the flags, but the free count is still 1; the
    same holds after the [executeOnPass] that ends the frame. *)
Theorem reset_leaves_freeCount :
  ('(h, m) ← Scene.templateFrame;
   '(h', p') ← Pool.reset h (gfxRenderInstPool m);
   Ok (renderInstAllocCount (gfxRenderInstPool m),
       renderInstFreeCount (gfxRenderInstPool m),
       pool (gfxRenderInstPool m),
       (renderInstAllocCount p', renderInstFreeCount p', pool p', map _flags h')))
  = Ok (2, 1, [0; 1], (0, 1, [0; 1], [0%Z; 0%Z]))
  /\ ('(h, m) ← Scene.templateFrame;
      '(_, m', _) ← Manager.executeOnPass Scene.env Scene.uniformBuffers h m;
      Ok (renderInstAllocCount (gfxRenderInstPool m'),
          renderInstFreeCount (gfxRenderInstPool m')))
     = Ok (0, 1).
Proof. split; vm_compute; reflexivity. Qed.

(** C5, the code at the failing input. While the outer template is still
    active at index 0, and after an inner template was pushed and popped,
    [allocRenderInstIndex] returns index 0, and [pushRenderInst] hands out
    the outer template's own object. *)
Theorem allocRenderInstIndex_returns_live_template :
  ('(h, m, outer) ← Scene.nestedTemplates;
   let '(_, _, index) := Pool.allocRenderInstIndex h (gfxRenderInstPool m) in
   '(_, m', r) ← Manager.pushRenderInst h m;
   Ok (renderInstTemplateIndex m, pool (gfxRenderInstPool m) !! 0, outer,
       index, r, renderInstTemplateIndex m'))
  = Ok (0%Z, Some 0, 0, 0%Z, 0, 0%Z).
Proof. vm_compute. reflexivity. Qed.

(** C6, the code at the failing inputs. The invariant holds in the initial
    state. It is broken by [pushTemplateRenderInst] on a fresh manager
    (one slot of the live range has flags 0 while the free count is 0), and
    by the [reset] that ends a frame which popped a template (the free
    count 1 exceeds the allocation count 0). *)
Theorem poolInvariant_not_preserved :
  poolInvariant [] Pool.new
  /\ (exists h m t,
        Manager.pushTemplateRenderInst [] Manager.new = Ok (h, m, t)
        /\ renderInstFreeCount (gfxRenderInstPool m) = 0
        /\ freeSlotsInLiveRange h (gfxRenderInstPool m) = 1
        /\ ~ poolInvariant h (gfxRenderInstPool m))
  /\ (exists h m h' p',
        Scene.templateFrame = Ok (h, m)
        /\ Pool.reset h (gfxRenderInstPool m) = Ok (h', p')
        /\ renderInstFreeCount p' = 1
        /\ renderInstAllocCount p' = 0
        /\ ~ poolInvariant h' p').
Proof.
  split; [|split].
  - unfold poolInvariant. simpl. repeat split; lia.
  - let v := eval vm_compute in (Manager.pushTemplateRenderInst [] Manager.new) in
    match v with
    | Ok (?h, ?m, ?t) => exists h, m, t
    end.
    split; [by_evaluation|]. split; [by_evaluation|]. split; [by_evaluation|].
    intros (_ & _ & H). vm_compute in H. discriminate.
  - let v := eval vm_compute in Scene.templateFrame in
    match v with
    | Ok (?h, ?m) =>
        let w := eval vm_compute in (Pool.reset h (gfxRenderInstPool m)) in
        match w with
        | Ok (?h', ?p') => exists h, m, h', p'
        end
    end.
    split; [by_evaluation|]. split; [by_evaluation|].
    split; [by_evaluation|]. split; [by_evaluation|].
    intros (H & _). vm_compute in H. lia.
Qed.

(** ** Indices across [executeOnPass] *)

(** C10. The sort step of [executeOnPass] sorts the whole pool array.
    There are states, reached through the manager, in which the object at
    an index changes across [executeOnPass]: the index of a template that
    is still pushed (first state: index 0 held object 0, the template, and
    holds object 1, the only visible instance, afterwards), and an index at
    or beyond the allocation count (second state: the allocation count is
    1, and index 1 holds another object afterwards than before; the objects
    at indices 0 and 1 are both visible, with sort keys 9 and 3, so the
    sort must exchange them). *)
Theorem executeOnPass_moves_objects :
  (exists h m h' m' cmds,
     Scene.templateStillPushed = Ok (h, m)
     /\ Manager.executeOnPass Scene.env Scene.uniformBuffers h m = Ok (h', m', cmds)
     /\ renderInstTemplateIndex m = 0%Z
     /\ renderInstTemplateIndex m' = 0%Z
     /\ pool (gfxRenderInstPool m) !! 0 = Some 0
     /\ pool (gfxRenderInstPool m') !! 0 = Some 1)
  /\ (exists h m h' m' cmds before after,
        Scene.secondFrameAfterTemplates = Ok (h, m)
        /\ Manager.executeOnPass Scene.env Scene.uniformBuffers h m = Ok (h', m', cmds)
        /\ renderInstAllocCount (gfxRenderInstPool m) = 1
        /\ pool (gfxRenderInstPool m) !! 1 = Some before
        /\ pool (gfxRenderInstPool m') !! 1 = Some after
        /\ before <> after).
Proof.
  split.
  - let v := eval vm_compute in Scene.templateStillPushed in
    match v with
    | Ok (?h, ?m) =>
        let w := eval vm_compute in
                   (Manager.executeOnPass Scene.env Scene.uniformBuffers h m) in
        match w with
        | Ok (?h', ?m', ?cmds) => exists h, m, h', m', cmds
        end
    end.
    by_evaluation.
  - let v := eval vm_compute in Scene.secondFrameAfterTemplates in
    match v with
    | Ok (?h, ?m) =>
        let w := eval vm_compute in
                   (Manager.executeOnPass Scene.env Scene.uniformBuffers h m) in
        match w with
        | Ok (?h', ?m', ?cmds) =>
            let x := eval vm_compute in (pool (gfxRenderInstPool m) !! 1) in
            let y := eval vm_compute in (pool (gfxRenderInstPool m') !! 1) in
            match x with
            | Some ?before =>
                match y with
                | Some ?after => exists h, m, h', m', cmds, before, after
                end
            end
        end
    end.
    split; [by_evaluation|]. split; [by_evaluation|].
    split; [by_evaluation|]. split; [by_evaluation|].
    split; [by_evaluation|]. discriminate.
Qed.

(** ** Copy from a template *)

Lemma setMegaStateFlags_full dst src :
  Helpers.setMegaStateFlags dst (fullMegaState src) = src.
Proof. by destruct src. Qed.

Lemma overwriteSamplers_lookup m dst res :
  Inst.overwriteSamplers m dst = Ok res ->
  forall i s, m !! i = Some s -> res !! i = Some s.
Proof.
  revert dst res. induction m as [|s0 m IH]; intros dst res H i s Hi.
  - by rewrite lookup_nil in Hi.
  - destruct dst as [|d dst]; simpl in H; [discriminate|].
    apply bind_Ok in H as (rest & Hrest & H). injection H as <-.
    destruct i as [|i]; simpl in *.
    + injection Hi as <-. by destruct s0.
    + by eapply IH.
Qed.

Lemma growTo_lookup {A : Type} (n : nat) (d : A) (a : list A) i x :
  a !! i = Some x -> Inst.growTo n d a !! i = Some x.
Proof. intros H. unfold Inst.growTo. by apply lookup_app_l_Some. Qed.

Lemma copyWordCounts_lookup n src dst res :
  Inst.copyWordCounts n src dst = Ok res ->
  (forall i, i < n ->
     exists s d, src !! i = Some s /\ dst !! i = Some d
                 /\ res !! i = Some (set_wordCount (wordCount s) d))
  /\ (forall i d, dst !! i = Some d ->
        exists d', res !! i = Some d' /\ wordOffset d' = wordOffset d).
Proof.
  revert src dst res. induction n as [|n IH]; intros src dst res H; simpl in H.
  - injection H as <-. split; [lia|eauto].
  - destruct src as [|s src]; [discriminate|].
    destruct dst as [|d dst]; [discriminate|].
    apply bind_Ok in H as (rest & Hrest & H). injection H as <-.
    destruct (IH _ _ _ Hrest) as [IH1 IH2]. split.
    + intros [|i] Hi; simpl; [eauto|]. apply IH1. lia.
    + intros [|i] d0 Hd; simpl in *; [|by apply IH2].
      injection Hd as <-. eauto.
Qed.

Lemma setBindingLayout_Ok l this this' :
  Inst._setBindingLayout l this = Ok this' ->
  let d := _renderPipelineDescriptor this in
  let b := _bindingDescriptors0 this in
  this' =
    set_bindings
      {| bindingLayout := Some l;
         samplerBindings :=
           Inst.growTo (numSamplers l) {| sampler := None; texture := None |}
             (samplerBindings b);
         uniformBufferBindings :=
           Inst.growTo (numUniformBuffers l)
             {| buffer := None; wordCount := 0; wordOffset := 0 |}
             (uniformBufferBindings b) |}
      (set_pipeline (set_bindingLayouts (arraySetFirst (bindingLayouts d) l) d) this).
Proof.
  unfold Inst._setBindingLayout. intros H.
  apply bind_Ok in H as ([] & _ & H). by injection H as <-.
Qed.

Lemma setSamplerBindings_Ok m this this' :
  Inst.setSamplerBindings m this = Ok this' ->
  exists s,
    Inst.overwriteSamplers m (samplerBindings (_bindingDescriptors0 this)) = Ok s
    /\ this' = set_bindings (Inst.with_samplerBindings s (_bindingDescriptors0 this)) this.
Proof.
  unfold Inst.setSamplerBindings. intros H.
  apply bind_Ok in H as (s & Hs & H). injection H as <-. eauto.
Qed.

(** The steps of [setFromTemplate], one hypothesis per step. *)
Lemma setFromTemplate_Ok aliased o this R :
  Inst.setFromTemplate aliased o this = Ok R ->
  exists l this2 s u,
    bindingLayout (_bindingDescriptors0 o) = Some l
    /\ Inst._setBindingLayout l
         (set_uniformBuffer (_uniformBuffer o)
            (set_inputState (_inputState o)
               (set_pipeline
                  (set_topology (topology (_renderPipelineDescriptor o))
                     (set_inputLayout (inputLayout (_renderPipelineDescriptor o))
                        (set_program (program (_renderPipelineDescriptor o))
                           (set_megaState
                              (Helpers.setMegaStateFlags
                                 (megaStateDescriptor (_renderPipelineDescriptor this))
                                 (fullMegaState
                                    (megaStateDescriptor (_renderPipelineDescriptor o))))
                              (_renderPipelineDescriptor this)))))
                  this)))
       = Ok this2
    /\ Inst.overwriteSamplers
         (samplerBindings (_bindingDescriptors0 (if aliased then this2 else o)))
         (samplerBindings (_bindingDescriptors0 this2)) = Ok s
    /\ Inst.copyWordCounts (numUniformBuffers l)
         (uniformBufferBindings
            (_bindingDescriptors0
               (if aliased
                then set_bindings (Inst.with_samplerBindings s (_bindingDescriptors0 this2)) this2
                else o)))
         (uniformBufferBindings (_bindingDescriptors0 this2)) = Ok u
    /\ R = set_bindings
             (Inst.with_uniformBufferBindings u
                (Inst.with_samplerBindings s (_bindingDescriptors0 this2)))
             (set_bindings (Inst.with_samplerBindings s (_bindingDescriptors0 this2)) this2).
Proof.
  unfold Inst.setFromTemplate. intros H.
  apply bind_Ok in H as (l & Hl & H).
  apply bind_Ok in H as (this2 & H2 & H).
  apply bind_Ok in H as (this3 & H3 & H).
  apply bind_Ok in H as (u & Hu & H).
  injection H as <-.
  apply setSamplerBindings_Ok in H3 as (s & Hs & ->).
  exists l, this2, s, u.
  destruct (bindingLayout (_bindingDescriptors0 o)); [|discriminate].
  injection Hl as ->. done.
Qed.

(** [setFromTemplate] from a distinct template object. *)
Lemma setFromTemplate_copies o this R :
  Inst.setFromTemplate false o this = Ok R -> copiedFromTemplate o R.
Proof.
  intros H. apply setFromTemplate_Ok in H as (l & this2 & s & u & Hl & H2 & Hs & Hu & ->).
  apply setBindingLayout_Ok in H2. simpl in H2. subst this2. simpl in *.
  unfold copiedFromTemplate. simpl.
  rewrite setMegaStateFlags_full, Hl.
  repeat split; try done.
  - intros i x Hx. by eapply overwriteSamplers_lookup.
  - intros l' i Hl' Hi. injection Hl' as <-.
    destruct (copyWordCounts_lookup _ _ _ _ Hu) as [Hc _].
    destruct (Hc i Hi) as (bt & d & Hbt & Hd & Hres). eauto.
Qed.

(** [setFromTemplate] neither writes the sort key, the pass mask, the
    flags, the parent template index, the draw range nor any offset. *)
Lemma setFromTemplate_keeps aliased o this R :
  Inst.setFromTemplate aliased o this = Ok R ->
  sortKey R = sortKey this
  /\ passMask R = passMask this
  /\ _flags R = _flags this
  /\ _parentTemplateIndex R = _parentTemplateIndex this
  /\ unwrittenFieldsKept this R
  /\ offsetsKept this R.
Proof.
  intros H. apply setFromTemplate_Ok in H as (l & this2 & s & u & Hl & H2 & Hs & Hu & ->).
  apply setBindingLayout_Ok in H2. simpl in H2. subst this2. simpl in *.
  unfold unwrittenFieldsKept, offsetsKept. simpl.
  repeat split; try done.
  intros i b Hb.
  destruct (copyWordCounts_lookup _ _ _ _ Hu) as [_ Hc].
  apply (Hc i b). by apply growTo_lookup.
Qed.

Lemma setFromTemplate_declared aliased o this R l i :
  Inst.setFromTemplate aliased o this = Ok R ->
  bindingLayout (_bindingDescriptors0 R) = Some l -> i < numUniformBuffers l ->
  is_Some (uniformBufferBindings (_bindingDescriptors0 R) !! i).
Proof.
  intros H. apply setFromTemplate_Ok in H as (l' & this2 & s & u & Hl & H2 & Hs & Hu & ->).
  apply setBindingLayout_Ok in H2. simpl in H2. subst this2. simpl in *.
  intros Hl' Hi. injection Hl' as ->.
  destruct (copyWordCounts_lookup _ _ _ _ Hu) as [Hc _].
  destruct (Hc i Hi) as (bt & d & _ & _ & ->). eauto.
Qed.

(** [bindingBaseSet] is maintained by the copy from a template that
    satisfies it, by uniform-buffer allocation and by submission. *)
Lemma setFromTemplate_bindingBaseSet ubs aliased o this R :
  bindingBaseSet ubs o ->
  Inst.setFromTemplate aliased o this = Ok R -> bindingBaseSet ubs R.
Proof.
  intros Ho H. apply setFromTemplate_Ok in H as (l & this2 & s & u & Hl & H2 & Hs & Hu & ->).
  apply setBindingLayout_Ok in H2. simpl in H2. subst this2.
  unfold bindingBaseSet in *. rewrite Hl in Ho. simpl. exact Ho.
Qed.

Lemma bindingBaseSet_insert (ubs : UniformBufferStore) r ub this :
  bindingBaseSet ubs this -> bindingBaseSet (<[r := ub]> ubs) this.
Proof.
  unfold bindingBaseSet.
  destruct (bindingLayout (_bindingDescriptors0 this)); [|done].
  intros (r0 & ub0 & Hr0 & Hub0).
  destruct (lookup_lt_is_Some_2 (<[r := ub]> ubs) r0) as [ub1 Hub1].
  { rewrite length_insert. by eapply lookup_lt_Some. }
  eauto.
Qed.

Lemma allocateUniformBuffer_bindingBaseSet ubs bufferIndex words this ubs' this' offset :
  bindingBaseSet ubs this ->
  Inst.allocateUniformBuffer ubs bufferIndex words this = Ok (ubs', this', offset) ->
  bindingBaseSet ubs' this'.
Proof.
  intros Hb H. unfold Inst.allocateUniformBuffer in H.
  apply bind_Ok in H as (l & Hl & H). apply bind_Ok in H as (_ & _ & H).
  apply bind_Ok in H as (r & Hr & H). apply bind_Ok in H as (ub & Hub & H).
  destruct (allocateChunk ub words) as [ub' offset'] eqn:Hc.
  apply bind_Ok in H as (dst & Hdst & H). injection H as <- <- <-.
  apply (bindingBaseSet_insert ubs r ub') in Hb.
  unfold bindingBaseSet in *. simpl.
  destruct (bindingLayout (_bindingDescriptors0 this)); [exact Hb|discriminate].
Qed.

Lemma drawOnPass_bindingBaseSet env ubs this this' cmds :
  bindingBaseSet ubs this ->
  Inst.drawOnPass env ubs this = Ok (this', cmds) -> bindingBaseSet ubs this'.
Proof.
  intros Hb H. unfold Inst.drawOnPass in H.
  destruct (negb _); [by injection H as <- <-|].
  apply bind_Ok in H as (bs & Hbs & H). injection H as <- <-.
  unfold bindingBaseSet in *. simpl.
  destruct (bindingLayout (_bindingDescriptors0 this)); [done|].
  unfold Inst.fillBuffers in Hbs. rewrite Hb in Hbs. by injection Hbs as <-.
Qed.

(** ** Handing out instances *)

(** [allocRenderInstIndex] keeps every object of the store and creates at
    most one. *)
Lemma allocRenderInstIndex_store h p h1 p1 index :
  Pool.allocRenderInstIndex h p = (h1, p1, index) ->
  h1 = h \/ h1 = h ++ [Inst.new].
Proof.
  unfold Pool.allocRenderInstIndex. intros H.
  repeat case_bool_decide; injection H as <- <- <-; auto.
Qed.

Lemma allocRenderInstIndex_before h p h1 p1 index r x :
  Pool.allocRenderInstIndex h p = (h1, p1, index) ->
  h1 !! r = Some x -> (h ++ [Inst.new]) !! r = Some x.
Proof.
  intros H Hr. apply allocRenderInstIndex_store in H as [->| ->]; [|done].
  by apply lookup_app_l_Some.
Qed.

Lemma inheritFromTemplate_Ok h p templateIndex renderInst r this' :
  Manager.inheritFromTemplate h p templateIndex renderInst = Ok (r, this') ->
  exists this t o,
    renderInst = Some r /\ h !! r = Some this
    /\ arrayGet (pool p) templateIndex = Some t /\ h !! t = Some o
    /\ Inst.setFromTemplate (bool_decide (r = t)) o this = Ok this'.
Proof.
  unfold Manager.inheritFromTemplate. intros H.
  apply bind_Ok in H as (r0 & Hr & H).
  apply bind_Ok in H as (this & Hthis & H).
  apply bind_Ok in H as (t & Ht & H).
  apply bind_Ok in H as (o & Ho & H).
  apply bind_Ok in H as (this1 & H1 & H).
  injection H as <- <-.
  destruct renderInst; [|discriminate]. injection Hr as ->.
  destruct (h !! r0) eqn:E1; [|discriminate]. injection Hthis as ->.
  destruct (arrayGet (pool p) templateIndex); [|discriminate]. injection Ht as ->.
  destruct (h !! t) eqn:E2; [|discriminate]. injection Ho as ->.
  eauto 10.
Qed.

(** The shape of a successful [pushRenderInst]. *)
Lemma pushRenderInst_Ok h m h' m' r :
  Manager.pushRenderInst h m = Ok (h', m', r) ->
  exists h1 p1 index this this',
    Pool.allocRenderInstIndex h (gfxRenderInstPool m) = (h1, p1, index)
    /\ arrayGet (pool p1) index = Some r
    /\ h1 !! r = Some this
    /\ h' = <[r := set_flags VISIBLE this']> h1
    /\ gfxRenderInstPool m' = p1
    /\ renderInstTemplateIndex m' = renderInstTemplateIndex m
    /\ (((renderInstTemplateIndex m < 0)%Z /\ this' = Inst.reset this)
        \/ ((0 <= renderInstTemplateIndex m)%Z
            /\ exists t o,
                 arrayGet (pool p1) (renderInstTemplateIndex m) = Some t
                 /\ h1 !! t = Some o
                 /\ Inst.setFromTemplate (bool_decide (r = t)) o this = Ok this')).
Proof.
  unfold Manager.pushRenderInst. intros H.
  destruct (Pool.allocRenderInstIndex h (gfxRenderInstPool m)) as [[h1 p1] index] eqn:Ha.
  apply bind_Ok in H as ([r0 this'] & Hi & H). injection H as <- <- <-.
  destruct (Z.leb_spec 0 (renderInstTemplateIndex m)) as [Ht|Ht].
  - apply inheritFromTemplate_Ok in Hi as (this & t & o & Hr & Hthis & Ht' & Ho & Hs).
    exists h1, p1, index, this, this'. repeat split; try done.
    right. eauto 10.
  - apply bind_Ok in Hi as (r1 & Hr & Hi). apply bind_Ok in Hi as (this & Hthis & Hi).
    injection Hi as <- <-.
    destruct (arrayGet (pool p1) index) eqn:Hg; [|discriminate]. injection Hr as ->.
    destruct (h1 !! r1) eqn:E; [|discriminate]. injection Hthis as ->.
    exists h1, p1, index, this, (Inst.reset this). repeat split; try done.
    left. done.
Qed.

(** The object written back after [setFromTemplate], seen next to the
    template in the store. [g] is the write that follows the copy (the
    flags, or the parent template index). *)
Lemma inherited_copy (h1 : RenderInstStore) r t o this this'
  (g : GfxRenderInst -> GfxRenderInst) T R :
  (forall x, _renderPipelineDescriptor (g x) = _renderPipelineDescriptor x) ->
  (forall x, _bindingDescriptors0 (g x) = _bindingDescriptors0 x) ->
  (forall x, _inputState (g x) = _inputState x) ->
  (forall x, _uniformBuffer (g x) = _uniformBuffer x) ->
  h1 !! r = Some this ->
  h1 !! t = Some o ->
  Inst.setFromTemplate (bool_decide (r = t)) o this = Ok this' ->
  <[r := g this']> h1 !! t = Some T ->
  <[r := g this']> h1 !! r = Some R ->
  copiedFromTemplate T R.
Proof.
  intros Hd Hb Hi Hu Hthis Ho Hs HT HR.
  assert (r < length h1) as Hlt by (by eapply lookup_lt_Some).
  rewrite list_lookup_insert_eq in HR by done. injection HR as <-.
  destruct (decide (r = t)) as [->|Hne].
  - rewrite list_lookup_insert_eq in HT by done. injection HT as <-.
    unfold copiedFromTemplate. simpl. repeat split; try done.
    intros l i Hl Hlt'. rewrite Hb in *.
    destruct (setFromTemplate_declared _ _ _ _ l i Hs Hl Hlt') as [b Hb']. eauto.
  - rewrite list_lookup_insert_ne in HT by done.
    rewrite Ho in HT. injection HT as <-.
    rewrite bool_decide_eq_false_2 in Hs by done.
    apply setFromTemplate_copies in Hs.
    unfold copiedFromTemplate in *. simpl in *. by rewrite Hd, Hb, Hi, Hu.
Qed.

(** C2, as the code has it. An instance returned by [pushRenderInst] while
    a template [T] is active has the mega-state, program, input layout,
    topology, input state, uniform buffer and binding layout of [T], every
    sampler binding that [T] has, and the word count of [T] for each
    uniform buffer the layout declares. The dynamic uniform offsets and
    the word offsets are not copied: they are those the pooled object
    already had. *)
Theorem pushRenderInst_inherits_template h m h' m' r t T old R :
  (0 <= renderInstTemplateIndex m)%Z ->
  Manager.pushRenderInst h m = Ok (h', m', r) ->
  arrayGet (pool (gfxRenderInstPool m')) (renderInstTemplateIndex m) = Some t ->
  h' !! t = Some T ->
  h' !! r = Some R ->
  (h ++ [Inst.new]) !! r = Some old ->
  copiedFromTemplate T R /\ offsetsKept old R.
Proof.
  intros Htpl H Ht HT HR Hold.
  apply pushRenderInst_Ok in H
    as (h1 & p1 & index & this & this' & Ha & Hr & Hthis & -> & Hp & _ & Hcase).
  destruct Hcase as [[Hneg _]|(_ & t' & o & Ht' & Ho & Hs)]; [lia|].
  rewrite Hp, Ht' in Ht. injection Ht as ->.
  split.
  - by eapply (inherited_copy h1 r t o this this' (set_flags VISIBLE)).
  - assert (r < length h1) as Hlt by (by eapply lookup_lt_Some).
    rewrite list_lookup_insert_eq in HR by done. injection HR as <-.
    rewrite (allocRenderInstIndex_before _ _ _ _ _ _ _ Ha Hthis) in Hold.
    injection Hold as <-.
    apply setFromTemplate_keeps in Hs as (_ & _ & _ & _ & _ & Hk). exact Hk.
Qed.

Lemma pushRenderInst_inherits_template_witness :
  exists h m t h' m' r T R old,
    Scene.allocatedTemplate = Ok (h, m, t)
    /\ Manager.pushRenderInst h m = Ok (h', m', r)
    /\ h' !! t = Some T
    /\ h' !! r = Some R
    /\ copiedFromTemplate T R /\ offsetsKept old R.
Proof.
  let v := eval vm_compute in Scene.allocatedTemplate in
  match v with
  | Ok (?h, ?m, ?t) =>
      let w := eval vm_compute in (Manager.pushRenderInst h m) in
      match w with
      | Ok (?h', ?m', ?r) =>
          let vT := eval vm_compute in (h' !! t) in
          let vR := eval vm_compute in (h' !! r) in
          let vold := eval vm_compute in ((h ++ [Inst.new]) !! r) in
          match constr:((vT, vR, vold)) with
          | (Some ?T, Some ?R, Some ?old) =>
              exists h, m, t, h', m', r, T, R, old;
              split; [vm_compute; reflexivity|];
              split; [vm_compute; reflexivity|];
              split; [vm_compute; reflexivity|];
              split; [vm_compute; reflexivity|];
              apply (pushRenderInst_inherits_template h m h' m' r t T old R)
          end
      end
  end.
  - vm_compute. discriminate.
  - vm_compute. reflexivity.
  - vm_compute. reflexivity.
  - vm_compute. reflexivity.
  - vm_compute. reflexivity.
  - vm_compute. reflexivity.
Defined.

(** C2, counterexample to the claim as stated. A template allocates its
    uniform buffer 0 and so records dynamic offset 64; the instance pushed
    under it has dynamic offset 0 for that slot. *)
Lemma inherited_dynamic_offsets_differ :
  exists h m t r T R,
    Scene.instanceUnderAllocatedTemplate = Ok (h, m, t, r)
    /\ arrayGet (pool (gfxRenderInstPool m)) (renderInstTemplateIndex m) = Some t
    /\ h !! t = Some T
    /\ h !! r = Some R
    /\ _dynamicUniformBufferOffsets T !! 0 = Some (Some 64%Z)
    /\ _dynamicUniformBufferOffsets R !! 0 = Some (Some 0%Z)
    /\ ~ sameBindingsAndPipelineState T R.
Proof.
  let v := eval vm_compute in Scene.instanceUnderAllocatedTemplate in
  match v with
  | Ok (?h, ?m, ?t, ?r) =>
      let vT := eval vm_compute in (h !! t) in
      let vR := eval vm_compute in (h !! r) in
      match constr:((vT, vR)) with
      | (Some ?T, Some ?R) => exists h, m, t, r, T, R
      end
  end.
  split; [by_evaluation|]. split; [by_evaluation|].
  split; [by_evaluation|]. split; [by_evaluation|].
  split; [by_evaluation|]. split; [by_evaluation|].
  intros (_ & _ & _ & _ & H & _). vm_compute in H. discriminate H.
Qed.

(** The shape of a successful [pushTemplateRenderInst]. *)
Lemma pushTemplateRenderInst_Ok h m h' m' newTemplate :
  Manager.pushTemplateRenderInst h m = Ok (h', m', newTemplate) ->
  exists h1 p1 index,
    Pool.allocRenderInstIndex h (gfxRenderInstPool m) = (h1, p1, index)
    /\ newTemplate = arrayGet (pool p1) index
    /\ gfxRenderInstPool m' = p1
    /\ renderInstTemplateIndex m' = index
    /\ (((renderInstTemplateIndex m < 0)%Z /\ h' = h1)
        \/ ((0 <= renderInstTemplateIndex m)%Z
            /\ exists r this this' t o,
                 newTemplate = Some r
                 /\ h1 !! r = Some this
                 /\ arrayGet (pool p1) (renderInstTemplateIndex m) = Some t
                 /\ h1 !! t = Some o
                 /\ Inst.setFromTemplate (bool_decide (r = t)) o this = Ok this'
                 /\ h' = <[r := set_parentTemplateIndex (renderInstTemplateIndex m) this']> h1)).
Proof.
  unfold Manager.pushTemplateRenderInst. intros H.
  destruct (Pool.allocRenderInstIndex h (gfxRenderInstPool m)) as [[h1 p1] index] eqn:Ha.
  apply bind_Ok in H as (h2 & Hi & H). injection H as <- <- <-.
  exists h1, p1, index. repeat split.
  destruct (Z.leb_spec 0 (renderInstTemplateIndex m)) as [Ht|Ht].
  - apply bind_Ok in Hi as ([r this'] & Hi & H). injection H as <-.
    apply inheritFromTemplate_Ok in Hi as (this & t & o & Hr & Hthis & Ht' & Ho & Hs).
    right. split; [done|]. exists r, this, this', t, o. done.
  - injection Hi as <-. left. done.
Qed.




(** * Further properties of the code *)

(** ** Flags *)

Lemma hasFlag_lor_same flags :
  hasFlag (Z.lor flags DRAW_INDEXED) DRAW_INDEXED = true.
Proof.
  unfold hasFlag. apply negb_true_iff, Z.eqb_neq. intros H.
  assert (Z.testbit (Z.land (Z.lor flags DRAW_INDEXED) DRAW_INDEXED) 1 = true) as Hb.
  { rewrite Z.land_spec, Z.lor_spec. by rewrite orb_true_r. }
  rewrite H in Hb. by rewrite Z.bits_0 in Hb.
Qed.

Lemma hasFlag_lor_other flags :
  hasFlag (Z.lor flags DRAW_INDEXED) VISIBLE = hasFlag flags VISIBLE.
Proof.
  unfold hasFlag. f_equal. f_equal.
  apply Z.bits_inj'. intros n Hn.
  rewrite !Z.land_spec, Z.lor_spec.
  destruct (decide (n = 0%Z)) as [->|Hne]; [by rewrite orb_false_r|].
  replace (Z.testbit VISIBLE n) with false; [by rewrite !andb_false_r|].
  symmetry. change VISIBLE with (2 ^ 0)%Z. apply Z.pow2_bits_false. lia.
Qed.

(** ** Recording and submitting the draw kind *)

(** X1. Whatever its flags were, an instance on which [drawIndexes(count,
    start)] was called is submitted as an indexed draw of that range once
    its pipeline is ready, and the call does not change whether the
    instance is visible. *)
Theorem drawIndexes_submits_indexed_draw env ubs count start this :
  queryPipelineReady env (createRenderPipeline env (_renderPipelineDescriptor this)) = true ->
  uniformBufferBound ubs this ->
  visible (Inst.drawIndexes count start this) = visible this
  /\ exists this' gfxBindings,
       Inst.drawOnPass env ubs (Inst.drawIndexes count start this)
       = Ok (this',
             [ setPipeline (createRenderPipeline env (_renderPipelineDescriptor this));
               setInputStateCmd (_inputState this);
               setBindings 0 gfxBindings (_dynamicUniformBufferOffsets this);
               drawIndexed (Some count) (Some start) ]).
Proof.
  intros Hready Hb. split; [apply hasFlag_lor_other|].
  unfold Inst.drawOnPass. simpl. rewrite Hready. simpl.
  assert (exists bs, Inst.fillBuffers ubs (Inst.drawIndexes count start this) = Ok bs)
    as [bs Hbs].
  { unfold Inst.fillBuffers. simpl.
    destruct Hb as [->|(r & ub & -> & Hr)]; [eauto|].
    simpl. rewrite Hr. simpl.
    destruct (uniformBufferBindings (_bindingDescriptors0 this)); eauto. }
  rewrite Hbs. simpl. eexists _, _. unfold Inst.drawCommand. simpl.
  by rewrite hasFlag_lor_same.
Qed.

Lemma drawIndexes_submits_indexed_draw_witness :
  visible (Inst.drawIndexes 6 2 (set_flags VISIBLE Inst.new)) = visible (set_flags VISIBLE Inst.new)
  /\ exists this' gfxBindings,
       Inst.drawOnPass Scene.env Scene.uniformBuffers
         (Inst.drawIndexes 6 2 (set_flags VISIBLE Inst.new))
       = Ok (this',
             [ setPipeline 7; setInputStateCmd None;
               setBindings 0 gfxBindings (replicate 4 (Some 0%Z));
               drawIndexed (Some 6%Z) (Some 2%Z) ]).
Proof.
  apply (drawIndexes_submits_indexed_draw Scene.env Scene.uniformBuffers 6 2
           (set_flags VISIBLE Inst.new)).
  - reflexivity.
  - left. reflexivity.
Defined.

(** X2. An instance whose flags do not have the DRAW_INDEXED bit (as every
    instance handed out by [pushRenderInst], whose flags are VISIBLE) and
    on which [drawPrimitives(count, start)] was called is submitted as a
    non-indexed draw of that range. *)
Theorem drawPrimitives_submits_plain_draw env ubs count start this :
  queryPipelineReady env (createRenderPipeline env (_renderPipelineDescriptor this)) = true ->
  uniformBufferBound ubs this ->
  hasFlag (_flags this) DRAW_INDEXED = false ->
  exists this' gfxBindings,
    Inst.drawOnPass env ubs (Inst.drawPrimitives count start this)
    = Ok (this',
          [ setPipeline (createRenderPipeline env (_renderPipelineDescriptor this));
            setInputStateCmd (_inputState this);
            setBindings 0 gfxBindings (_dynamicUniformBufferOffsets this);
            draw (Some count) (Some start) ]).
Proof.
  intros Hready Hb Hf.
  unfold Inst.drawOnPass. simpl. rewrite Hready. simpl.
  assert (exists bs, Inst.fillBuffers ubs (Inst.drawPrimitives count start this) = Ok bs)
    as [bs Hbs].
  { unfold Inst.fillBuffers. simpl.
    destruct Hb as [->|(r & ub & -> & Hr)]; [eauto|].
    simpl. rewrite Hr. simpl.
    destruct (uniformBufferBindings (_bindingDescriptors0 this)); eauto. }
  rewrite Hbs. simpl. eexists _, _. unfold Inst.drawCommand. simpl.
  by rewrite Hf.
Qed.

Lemma drawPrimitives_submits_plain_draw_witness :
  exists this' gfxBindings,
    Inst.drawOnPass Scene.env Scene.uniformBuffers
      (Inst.drawPrimitives 3 1 (set_flags VISIBLE Inst.new))
    = Ok (this',
          [ setPipeline 7; setInputStateCmd None;
            setBindings 0 gfxBindings (replicate 4 (Some 0%Z));
            draw (Some 3%Z) (Some 1%Z) ]).
Proof.
  apply (drawPrimitives_submits_plain_draw Scene.env Scene.uniformBuffers 3 1
           (set_flags VISIBLE Inst.new)).
  - reflexivity.
  - left. reflexivity.
  - reflexivity.
Defined.

(** ** What submission does to the instance *)

Lemma fillBuffers_Ok ubs this bs :
  Inst.fillBuffers ubs this = Ok bs ->
  uniformBufferBindings (_bindingDescriptors0 this) = [] /\ bs = []
  \/ exists r ub,
       _uniformBuffer this = Some r /\ ubs !! r = Some ub
       /\ bs = map (set_buffer (Some (gfxBuffer ub)))
                 (uniformBufferBindings (_bindingDescriptors0 this)).
Proof.
  unfold Inst.fillBuffers. intros H.
  destruct (uniformBufferBindings (_bindingDescriptors0 this)) as [|b l] eqn:E.
  - injection H as <-. by left.
  - apply bind_Ok in H as (r & Hr & H). apply bind_Ok in H as (ub & Hub & H).
    injection H as <-. right. exists r, ub.
    destruct (_uniformBuffer this); [|discriminate]. injection Hr as ->.
    destruct (ubs !! r) eqn:E'; [|discriminate]. injection Hub as ->. done.
Qed.

(** X3. [drawOnPass] writes nothing but the buffer of each uniform-buffer
    binding: word counts, word offsets, sampler bindings, the binding
    layout and every other field of the instance are as before, and no
    binding is added or removed. With at least one uniform-buffer binding
    and a ready pipeline, every binding's buffer is afterwards the buffer
    of the instance's dynamic uniform buffer. *)
Theorem drawOnPass_writes_only_buffers env ubs this this' cmds :
  Inst.drawOnPass env ubs this = Ok (this', cmds) ->
  this' = set_bindings
            (Inst.with_uniformBufferBindings
               (uniformBufferBindings (_bindingDescriptors0 this'))
               (_bindingDescriptors0 this))
            this
  /\ map wordCount (uniformBufferBindings (_bindingDescriptors0 this'))
     = map wordCount (uniformBufferBindings (_bindingDescriptors0 this))
  /\ map wordOffset (uniformBufferBindings (_bindingDescriptors0 this'))
     = map wordOffset (uniformBufferBindings (_bindingDescriptors0 this))
  /\ (cmds <> [] ->
      forall i b, uniformBufferBindings (_bindingDescriptors0 this') !! i = Some b ->
        exists r ub, _uniformBuffer this = Some r /\ ubs !! r = Some ub
                     /\ buffer b = Some (gfxBuffer ub)).
Proof.
  unfold Inst.drawOnPass. intros H.
  destruct (negb _).
  - injection H as <- <-. repeat split; [by destruct this as [? ? ? ? []]|done].
  - apply bind_Ok in H as (bs & Hbs & H). injection H as <- <-. simpl.
    split; [done|].
    apply fillBuffers_Ok in Hbs as [[-> ->]|(r & ub & Hr & Hub & ->)].
    + repeat split. intros _ i b Hi. by rewrite lookup_nil in Hi.
    + rewrite !map_map. simpl. repeat split.
      intros _ i b Hi. exists r, ub. repeat split; [done..|].
      rewrite list_lookup_fmap in Hi.
      destruct (uniformBufferBindings (_bindingDescriptors0 this) !! i); [|done].
      by injection Hi as <-.
Qed.

Lemma drawOnPass_writes_only_buffers_witness :
  exists this this' (cmds : list PassCommand),
    Scene.boundInst = Ok this
    /\ this' = set_bindings
                 (Inst.with_uniformBufferBindings
                    (uniformBufferBindings (_bindingDescriptors0 this'))
                    (_bindingDescriptors0 this))
                 this
    /\ map wordCount (uniformBufferBindings (_bindingDescriptors0 this'))
       = map wordCount (uniformBufferBindings (_bindingDescriptors0 this))
    /\ map wordOffset (uniformBufferBindings (_bindingDescriptors0 this'))
       = map wordOffset (uniformBufferBindings (_bindingDescriptors0 this))
    /\ (cmds <> [] ->
        forall i b, uniformBufferBindings (_bindingDescriptors0 this') !! i = Some b ->
          exists r ub, _uniformBuffer this = Some r /\ Scene.uniformBuffers !! r = Some ub
                       /\ buffer b = Some (gfxBuffer ub)).
Proof.
  let v := eval vm_compute in Scene.boundInst in
  match v with
  | Ok ?this =>
      let w := eval vm_compute in (Inst.drawOnPass Scene.env Scene.uniformBuffers this) in
      match w with
      | Ok (?this', ?cmds) =>
          exists this, this', cmds;
          split; [vm_compute; reflexivity|];
          apply (drawOnPass_writes_only_buffers Scene.env Scene.uniformBuffers this this' cmds)
      end
  end.
  vm_compute. reflexivity.
Defined.

(** X4. Submitting an instance a second time issues the same commands and
    leaves the instance as the first submission left it, provided the
    collaborators answer the second time as they did the first: the cache
    returns the same pipeline and the same bindings, the readiness query
    gives the same answer, and the dynamic uniform buffer has the same
    platform buffer (its allocation offset may have moved). *)
Theorem drawOnPass_idempotent env ubs env' ubs' this this' cmds :
  Inst.drawOnPass env ubs this = Ok (this', cmds) ->
  createRenderPipeline env' (_renderPipelineDescriptor this)
  = createRenderPipeline env (_renderPipelineDescriptor this) ->
  queryPipelineReady env' (createRenderPipeline env (_renderPipelineDescriptor this))
  = queryPipelineReady env (createRenderPipeline env (_renderPipelineDescriptor this)) ->
  createBindings env' (_bindingDescriptors0 this')
  = createBindings env (_bindingDescriptors0 this') ->
  (forall r, _uniformBuffer this = Some r ->
     gfxBuffer <$> ubs' !! r = gfxBuffer <$> ubs !! r) ->
  Inst.drawOnPass env' ubs' this' = Ok (this', cmds).
Proof.
  unfold Inst.drawOnPass. intros H Hpipe Hready Hbind Hbuf.
  destruct (negb (queryPipelineReady env
                    (createRenderPipeline env (_renderPipelineDescriptor this)))) eqn:Hr.
  - injection H as <- <-. by rewrite Hpipe, Hready, Hr.
  - apply bind_Ok in H as (bs & Hbs & H). injection H as <- <-.
    cbn [_renderPipelineDescriptor set_bindings].
    rewrite Hpipe, Hready, Hr.
    assert (Inst.fillBuffers ubs'
              (set_bindings (Inst.with_uniformBufferBindings bs (_bindingDescriptors0 this))
                 this) = Ok bs) as ->.
    { apply fillBuffers_Ok in Hbs as [[He ->]|(r & ub & Hu & Hub & ->)].
      - reflexivity.
      - unfold Inst.fillBuffers.
        cbn [uniformBufferBindings _bindingDescriptors0 set_bindings
             Inst.with_uniformBufferBindings _uniformBuffer].
        destruct (uniformBufferBindings (_bindingDescriptors0 this)) as [|b l];
          [reflexivity|].
        cbn [map]. rewrite Hu. simpl.
        specialize (Hbuf r Hu). rewrite Hub in Hbuf.
        destruct (ubs' !! r) as [ub'|]; [|discriminate]. injection Hbuf as Hbuf.
        simpl. rewrite Hbuf. rewrite map_map. reflexivity. }
    simpl. simpl in Hbind.
    assert (Inst.with_uniformBufferBindings bs
              (Inst.with_uniformBufferBindings bs (_bindingDescriptors0 this))
            = Inst.with_uniformBufferBindings bs (_bindingDescriptors0 this)) as Hidem
      by reflexivity.
    rewrite !Hidem, Hbind. reflexivity.
Qed.

Lemma drawOnPass_idempotent_witness :
  exists this this' (cmds : list PassCommand),
    Scene.boundInst = Ok this
    /\ Inst.drawOnPass Scene.env Scene.uniformBuffers this = Ok (this', cmds)
    /\ cmds <> []
    /\ Inst.drawOnPass Scene.env [ {| gfxBuffer := 42; currentWordOffset := 80 |} ] this'
       = Ok (this', cmds).
Proof.
  let v := eval vm_compute in Scene.boundInst in
  match v with
  | Ok ?this =>
      let w := eval vm_compute in (Inst.drawOnPass Scene.env Scene.uniformBuffers this) in
      match w with
      | Ok (?this', ?cmds) =>
          exists this, this', cmds;
          split; [vm_compute; reflexivity|];
          split; [vm_compute; reflexivity|];
          split; [discriminate|];
          apply (drawOnPass_idempotent Scene.env Scene.uniformBuffers
                   Scene.env [ {| gfxBuffer := 42; currentWordOffset := 80 |} ]
                   this this' cmds)
      end
  end.
  - vm_compute. reflexivity.
  - reflexivity.
  - reflexivity.
  - reflexivity.
  - intros r Hr. vm_compute in Hr. injection Hr as <-. reflexivity.
Defined.

(** ** Sharing a uniform-buffer region *)

(** X5. [copyUniformBufferBinding(bufferIndex, src)] changes only the word
    offset of the binding at [bufferIndex], which becomes that of [src]'s
    binding at the same index: that binding's buffer and word count, every
    other binding and every other field of the instance are as before. It
    returns only if both instances have a binding at that index. *)
Theorem copyUniformBufferBinding_changes_only_word_offset bufferIndex src this this' :
  Inst.copyUniformBufferBinding bufferIndex src this = Ok this' ->
  exists s d,
    uniformBufferBindings (_bindingDescriptors0 src) !! bufferIndex = Some s
    /\ uniformBufferBindings (_bindingDescriptors0 this) !! bufferIndex = Some d
    /\ uniformBufferBindings (_bindingDescriptors0 this') !! bufferIndex
       = Some {| buffer := buffer d; wordCount := wordCount d; wordOffset := wordOffset s |}
    /\ (forall j, j <> bufferIndex ->
          uniformBufferBindings (_bindingDescriptors0 this') !! j
          = uniformBufferBindings (_bindingDescriptors0 this) !! j)
    /\ this' = set_bindings
                 (Inst.with_uniformBufferBindings
                    (uniformBufferBindings (_bindingDescriptors0 this'))
                    (_bindingDescriptors0 this))
                 this.
Proof.
  unfold Inst.copyUniformBufferBinding. intros H.
  apply bind_Ok in H as (l & _ & H). apply bind_Ok in H as (_ & _ & H).
  apply bind_Ok in H as (s & Hs & H). apply bind_Ok in H as (d & Hd & H).
  injection H as <-.
  destruct (uniformBufferBindings (_bindingDescriptors0 src) !! bufferIndex) eqn:Es;
    [|discriminate].
  destruct (uniformBufferBindings (_bindingDescriptors0 this) !! bufferIndex) eqn:Ed;
    [|discriminate].
  injection Hs as ->. injection Hd as ->.
  exists s, d. simpl. repeat split.
  - apply list_lookup_insert_eq. by eapply lookup_lt_Some.
  - intros j Hj. by apply list_lookup_insert_ne.
Qed.

Lemma copyUniformBufferBinding_changes_only_word_offset_witness :
  exists src this this',
    Scene.boundInst = Ok this
    /\ src = set_bindings
               (Inst.with_uniformBufferBindings
                  [{| buffer := None; wordCount := 16; wordOffset := 8 |}]
                  (_bindingDescriptors0 this))
               this
    /\ exists s d,
         uniformBufferBindings (_bindingDescriptors0 src) !! 0 = Some s
         /\ uniformBufferBindings (_bindingDescriptors0 this) !! 0 = Some d
         /\ uniformBufferBindings (_bindingDescriptors0 this') !! 0
            = Some {| buffer := buffer d; wordCount := wordCount d; wordOffset := wordOffset s |}
         /\ (forall j, j <> 0 ->
               uniformBufferBindings (_bindingDescriptors0 this') !! j
               = uniformBufferBindings (_bindingDescriptors0 this) !! j)
         /\ this' = set_bindings
                      (Inst.with_uniformBufferBindings
                         (uniformBufferBindings (_bindingDescriptors0 this'))
                         (_bindingDescriptors0 this))
                      this.
Proof.
  let v := eval vm_compute in Scene.boundInst in
  match v with
  | Ok ?this =>
      let src := eval vm_compute in
                   (set_bindings
                      (Inst.with_uniformBufferBindings
                         [{| buffer := None; wordCount := 16; wordOffset := 8 |}]
                         (_bindingDescriptors0 this))
                      this) in
      let w := eval vm_compute in (Inst.copyUniformBufferBinding 0 src this) in
      match w with
      | Ok ?this' =>
          exists src, this, this';
          split; [vm_compute; reflexivity|];
          split; [vm_compute; reflexivity|];
          apply (copyUniformBufferBinding_changes_only_word_offset 0 src this this')
      end
  end.
  vm_compute. reflexivity.
Defined.

(** ** Sampler bindings *)

Lemma overwriteSamplers_fits m dst :
  length m <= length dst ->
  Inst.overwriteSamplers m dst = Ok (m ++ drop (length m) dst).
Proof.
  revert dst. induction m as [|s m IH]; intros dst Hle; simpl.
  - by rewrite drop_0.
  - destruct dst as [|d dst]; simpl in *; [lia|].
    rewrite IH by lia. simpl. by destruct s.
Qed.

Lemma overwriteSamplers_short m dst :
  length dst < length m -> Inst.overwriteSamplers m dst = Throw TypeError.
Proof.
  revert dst. induction m as [|s m IH]; intros dst Hlt; simpl in *; [lia|].
  destruct dst as [|d dst]; simpl in *; [done|].
  rewrite IH by lia. done.
Qed.

(** X6. [setSamplerBindings(m)] overwrites the first [m.length] sampler
    bindings with the entries of [m] and touches neither the later
    bindings nor any other field; when [m] is longer than the instance's
    array of sampler bindings, it raises a TypeError. *)
Theorem setSamplerBindings_overwrites_prefix m this :
  (length m <= length (samplerBindings (_bindingDescriptors0 this)) ->
   Inst.setSamplerBindings m this
   = Ok (set_bindings
           (Inst.with_samplerBindings
              (m ++ drop (length m) (samplerBindings (_bindingDescriptors0 this)))
              (_bindingDescriptors0 this))
           this))
  /\ (length (samplerBindings (_bindingDescriptors0 this)) < length m ->
      Inst.setSamplerBindings m this = Throw TypeError).
Proof.
  unfold Inst.setSamplerBindings. split; intros H.
  - by rewrite overwriteSamplers_fits.
  - by rewrite overwriteSamplers_short.
Qed.

Lemma setSamplerBindings_overwrites_prefix_witness :
  Inst.setSamplerBindings [{| sampler := Some 3; texture := Some 4 |}]
    (set_bindings
       {| bindingLayout := None;
          samplerBindings := [defaultSamplerBinding; defaultSamplerBinding];
          uniformBufferBindings := [] |} Inst.new)
  = Ok (set_bindings
          {| bindingLayout := None;
             samplerBindings := [{| sampler := Some 3; texture := Some 4 |};
                                 defaultSamplerBinding];
             uniformBufferBindings := [] |} Inst.new)
  /\ Inst.setSamplerBindings [{| sampler := Some 3; texture := Some 4 |}] Inst.new
     = Throw TypeError.
Proof.
  split.
  - apply (proj1 (setSamplerBindings_overwrites_prefix
                    [{| sampler := Some 3; texture := Some 4 |}]
                    (set_bindings
                       {| bindingLayout := None;
                          samplerBindings := [defaultSamplerBinding; defaultSamplerBinding];
                          uniformBufferBindings := [] |} Inst.new))).
    simpl. lia.
  - apply (proj2 (setSamplerBindings_overwrites_prefix
                    [{| sampler := Some 3; texture := Some 4 |}] Inst.new)).
    simpl. lia.
Defined.

(** X7. [setSamplerBindingsFromTextureMappings(m)] gives sampler binding
    [i], for every [i] below [m.length], the texture and the sampler of
    mapping [i], and leaves the bindings from [m.length] on as they were;
    when [m] is longer than the array of sampler bindings, it raises a
    TypeError. *)
Theorem setSamplerBindingsFromTextureMappings_overwrites_prefix m this :
  (length m <= length (samplerBindings (_bindingDescriptors0 this)) ->
   exists this',
     Inst.setSamplerBindingsFromTextureMappings m this = Ok this'
     /\ (forall i t, m !! i = Some t ->
           samplerBindings (_bindingDescriptors0 this') !! i
           = Some {| sampler := gfxSampler t; texture := gfxTexture t |})
     /\ (forall i, length m <= i ->
           samplerBindings (_bindingDescriptors0 this') !! i
           = samplerBindings (_bindingDescriptors0 this) !! i)
     /\ length (samplerBindings (_bindingDescriptors0 this'))
        = length (samplerBindings (_bindingDescriptors0 this)))
  /\ (length (samplerBindings (_bindingDescriptors0 this)) < length m ->
      Inst.setSamplerBindingsFromTextureMappings m this = Throw TypeError).
Proof.
  unfold Inst.setSamplerBindingsFromTextureMappings, Inst.setSamplerBindings.
  split; intros H.
  - rewrite overwriteSamplers_fits by (by rewrite length_map).
    eexists. split; [reflexivity|]. simpl. rewrite length_map. repeat split.
    + intros i t Hi. rewrite lookup_app_l by (rewrite length_map; by eapply lookup_lt_Some).
      change (map ?f ?l) with (f <$> l). by rewrite list_lookup_fmap, Hi.
    + intros i Hi. rewrite lookup_app_r by (by rewrite length_map).
      rewrite length_map, lookup_drop. f_equal. lia.
    + rewrite length_app, length_map, length_drop. lia.
  - rewrite overwriteSamplers_short by (by rewrite length_map). done.
Qed.

Lemma setSamplerBindingsFromTextureMappings_overwrites_prefix_witness :
  (exists this',
     Inst.setSamplerBindingsFromTextureMappings
       [{| gfxTexture := Some 4; gfxSampler := Some 3 |}]
       (set_bindings
          {| bindingLayout := None;
             samplerBindings := [defaultSamplerBinding; defaultSamplerBinding];
             uniformBufferBindings := [] |} Inst.new)
     = Ok this'
     /\ (forall i t, [{| gfxTexture := Some 4; gfxSampler := Some 3 |}] !! i = Some t ->
           samplerBindings (_bindingDescriptors0 this') !! i
           = Some {| sampler := gfxSampler t; texture := gfxTexture t |})
     /\ (forall i, 1 <= i ->
           samplerBindings (_bindingDescriptors0 this') !! i
           = [defaultSamplerBinding; defaultSamplerBinding] !! i)
     /\ length (samplerBindings (_bindingDescriptors0 this')) = 2)
  /\ Inst.setSamplerBindingsFromTextureMappings
       [{| gfxTexture := Some 4; gfxSampler := Some 3 |}] Inst.new
     = Throw TypeError.
Proof.
  split.
  - apply (proj1 (setSamplerBindingsFromTextureMappings_overwrites_prefix
                    [{| gfxTexture := Some 4; gfxSampler := Some 3 |}]
                    (set_bindings
                       {| bindingLayout := None;
                          samplerBindings := [defaultSamplerBinding; defaultSamplerBinding];
                          uniformBufferBindings := [] |} Inst.new))).
    simpl. lia.
  - apply (proj2 (setSamplerBindingsFromTextureMappings_overwrites_prefix
                    [{| gfxTexture := Some 4; gfxSampler := Some 3 |}] Inst.new)).
    simpl. lia.
Defined.

(** ** Declaring the binding layout *)

Lemma growTo_short {A : Type} (n : nat) (d : A) (a : list A) :
  n <= length a -> Inst.growTo n d a = a.
Proof.
  intros H. unfold Inst.growTo.
  replace (n - length a) with 0 by lia. apply app_nil_r.
Qed.

Lemma growTo_length_max {A : Type} (n : nat) (d : A) (a : list A) :
  length (Inst.growTo n d a) = length a `max` n.
Proof. unfold Inst.growTo. rewrite length_app, length_replicate. lia. Qed.

Lemma growTo_twice {A : Type} (n : nat) (d : A) (a : list A) :
  Inst.growTo n d (Inst.growTo n d a) = Inst.growTo n d a.
Proof. apply growTo_short. rewrite growTo_length_max. lia. Qed.

Lemma growTo_lookup_new {A : Type} (n : nat) (d : A) (a : list A) i :
  length a <= i < n -> Inst.growTo n d a !! i = Some d.
Proof.
  intros H. unfold Inst.growTo. rewrite lookup_app_r by lia.
  apply lookup_replicate_2. lia.
Qed.

(** X8. [setBindingBase] returns exactly when it is given one binding
    layout whose uniform-buffer count is below the length of the
    dynamic-offsets array (4 on a constructed instance, so a layout may
    declare at most 3 uniform buffers); in every other case it fails with
    the assertion, and never with a TypeError. *)
Theorem setBindingBase_asserts ls uniformBuffer this :
  ((exists this', Inst.setBindingBase ls uniformBuffer this = Ok this')
   <-> exists l, ls = [l]
                 /\ numUniformBuffers l < length (_dynamicUniformBufferOffsets this))
  /\ Inst.setBindingBase ls uniformBuffer this <> Throw TypeError.
Proof.
  unfold Inst.setBindingBase, Inst._setBindingLayout, assert.
  destruct ls as [|l [|l' ls]]; simpl.
  - split; [|discriminate].
    split; [intros [? ?]; discriminate|intros (l & ? & _); discriminate].
  - case_bool_decide as Hc; simpl.
    + split; [|discriminate].
      split; [intros _; by exists l|eauto].
    + split; [|discriminate].
      split; [intros [? ?]; discriminate|].
      intros (l0 & E & Hlt). injection E as <-. lia.
  - split; [|discriminate].
    split; [intros [? ?]; discriminate|intros (l0 & ? & _); discriminate].
Qed.

(** X9. A successful [setBindingBase([l], uniformBuffer)] only grows the
    two binding arrays: each has afterwards the larger of its former
    length and the count the layout declares, every former binding is
    kept as it was, and every added binding is a default one (no sampler
    and no texture; no buffer, word count 0, word offset 0). The layout and
    the uniform buffer are recorded, and the pipeline descriptor lists the
    layout first. *)
Theorem setBindingBase_grows_bindings l uniformBuffer this this' :
  Inst.setBindingBase [l] uniformBuffer this = Ok this' ->
  let b := _bindingDescriptors0 this in
  let b' := _bindingDescriptors0 this' in
  length (samplerBindings b') = length (samplerBindings b) `max` numSamplers l
  /\ length (uniformBufferBindings b')
     = length (uniformBufferBindings b) `max` numUniformBuffers l
  /\ (forall i x, samplerBindings b !! i = Some x -> samplerBindings b' !! i = Some x)
  /\ (forall i x, uniformBufferBindings b !! i = Some x ->
        uniformBufferBindings b' !! i = Some x)
  /\ (forall i, length (samplerBindings b) <= i < numSamplers l ->
        samplerBindings b' !! i = Some defaultSamplerBinding)
  /\ (forall i, length (uniformBufferBindings b) <= i < numUniformBuffers l ->
        uniformBufferBindings b' !! i = Some defaultBufferBinding)
  /\ bindingLayout b' = Some l
  /\ _uniformBuffer this' = Some uniformBuffer
  /\ bindingLayouts (_renderPipelineDescriptor this') !! 0 = Some l.
Proof.
  unfold Inst.setBindingBase. intros H.
  apply bind_Ok in H as (_ & _ & H). apply bind_Ok in H as (_ & _ & H).
  apply bind_Ok in H as (l0 & Hl0 & H). apply bind_Ok in H as (this1 & H1 & H).
  injection Hl0 as <-. injection H as <-.
  apply setBindingLayout_Ok in H1. simpl in H1. subst this1. simpl.
  rewrite !growTo_length_max.
  repeat split; auto using @growTo_lookup, @growTo_lookup_new.
  by destruct (bindingLayouts (_renderPipelineDescriptor this)).
Qed.

Lemma setBindingBase_grows_bindings_witness :
  exists this',
    Inst.setBindingBase [Scene.layout 1 0] 0
      (set_bindings
         {| bindingLayout := None;
            samplerBindings := [defaultSamplerBinding; defaultSamplerBinding];
            uniformBufferBindings := [] |} Inst.new)
    = Ok this'
    /\ length (samplerBindings (_bindingDescriptors0 this')) = 2
    /\ length (uniformBufferBindings (_bindingDescriptors0 this')) = 1
    /\ uniformBufferBindings (_bindingDescriptors0 this') !! 0 = Some defaultBufferBinding.
Proof.
  let w := eval vm_compute in
             (Inst.setBindingBase [Scene.layout 1 0] 0
                (set_bindings
                   {| bindingLayout := None;
                      samplerBindings := [defaultSamplerBinding; defaultSamplerBinding];
                      uniformBufferBindings := [] |} Inst.new)) in
  match w with
  | Ok ?this' =>
      exists this'; split; [vm_compute; reflexivity|];
      pose proof (setBindingBase_grows_bindings (Scene.layout 1 0) 0
                    (set_bindings
                       {| bindingLayout := None;
                          samplerBindings := [defaultSamplerBinding; defaultSamplerBinding];
                          uniformBufferBindings := [] |} Inst.new)
                    this' eq_refl) as (H1 & H2 & _ & _ & _ & H6 & _)
  end.
  split; [exact H1|]. split; [exact H2|]. apply H6. simpl. lia.
Defined.

(** X10. Setting the same binding base a second time changes nothing. *)
Theorem setBindingBase_idempotent ls uniformBuffer this this' :
  Inst.setBindingBase ls uniformBuffer this = Ok this' ->
  Inst.setBindingBase ls uniformBuffer this' = Ok this'.
Proof.
  unfold Inst.setBindingBase. intros H.
  apply bind_Ok in H as ([] & Ha1 & H). apply bind_Ok in H as ([] & Ha2 & H).
  apply bind_Ok in H as (l & Hl & H). apply bind_Ok in H as (this1 & H1 & H).
  injection H as <-. rewrite Ha1, Ha2, Hl. simpl.
  pose proof (setBindingLayout_fields _ _ _ H1) as (_ & _ & _ & Hcap).
  apply setBindingLayout_Ok in H1. simpl in H1. subst this1.
  unfold Inst._setBindingLayout, assert. simpl.
  rewrite bool_decide_eq_true_2 by done. simpl.
  rewrite !growTo_twice.
  by destruct (bindingLayouts (_renderPipelineDescriptor this)).
Qed.

Lemma setBindingBase_idempotent_witness :
  exists this',
    Scene.boundInst = Ok this'
    /\ Inst.setBindingBase [Scene.layout 1 1] 0 this' = Ok this'.
Proof.
  let v := eval vm_compute in Scene.boundInst in
  match v with
  | Ok ?this' =>
      exists this'; split; [vm_compute; reflexivity|];
      apply (setBindingBase_idempotent [Scene.layout 1 1] 0
               (set_flags VISIBLE Inst.new) this')
  end.
  vm_compute. reflexivity.
Defined.

(** ** Copying from a template *)

Lemma overwriteSamplers_returns m dst res :
  Inst.overwriteSamplers m dst = Ok res -> length m <= length dst.
Proof.
  intros H. destruct (le_lt_dec (length m) (length dst)) as [|Hlt]; [done|].
  by rewrite overwriteSamplers_short in H.
Qed.

Lemma copyWordCounts_fits n src dst :
  n <= length src -> n <= length dst -> exists res, Inst.copyWordCounts n src dst = Ok res.
Proof.
  revert src dst. induction n as [|n IH]; intros src dst Hs Hd; simpl; [eauto|].
  destruct src as [|s src]; simpl in *; [lia|].
  destruct dst as [|d dst]; simpl in *; [lia|].
  destruct (IH src dst) as [res ->]; [lia..|]. simpl. eauto.
Qed.

Lemma copyWordCounts_returns n src dst res :
  Inst.copyWordCounts n src dst = Ok res -> n <= length src /\ n <= length dst.
Proof.
  revert src dst res. induction n as [|n IH]; intros src dst res H; simpl in *; [lia|].
  destruct src as [|s src]; [discriminate|].
  destruct dst as [|d dst]; [discriminate|].
  apply bind_Ok in H as (rest & Hrest & _). apply IH in Hrest. simpl. lia.
Qed.

(** X11. [this.setFromTemplate(o)], for a template [o] that is another
    object, returns exactly when [o] has a binding layout, the layout's
    uniform-buffer count is below the length of [this]'s dynamic-offsets
    array, [o] has no more sampler bindings than [this] has once grown to
    the layout's sampler count, and [o] has a uniform-buffer binding for
    every uniform buffer the layout declares. *)
Theorem setFromTemplate_returns_iff o this :
  (exists R, Inst.setFromTemplate false o this = Ok R)
  <-> exists l,
        bindingLayout (_bindingDescriptors0 o) = Some l
        /\ numUniformBuffers l < length (_dynamicUniformBufferOffsets this)
        /\ length (samplerBindings (_bindingDescriptors0 o))
           <= length (samplerBindings (_bindingDescriptors0 this)) `max` numSamplers l
        /\ numUniformBuffers l <= length (uniformBufferBindings (_bindingDescriptors0 o)).
Proof.
  split.
  - intros [R H].
    apply setFromTemplate_Ok in H as (l & this2 & s & u & Hl & H2 & Hs & Hu & _).
    pose proof (setBindingLayout_fields _ _ _ H2) as (_ & _ & _ & Hcap). simpl in Hcap.
    apply setBindingLayout_Ok in H2. simpl in H2. subst this2. simpl in *.
    apply overwriteSamplers_returns in Hs. rewrite growTo_length_max in Hs.
    apply copyWordCounts_returns in Hu as [Hu _].
    exists l. done.
  - intros (l & Hl & Hcap & Hs & Hu).
    unfold Inst.setFromTemplate. rewrite Hl. simpl.
    unfold Inst._setBindingLayout, assert. simpl.
    rewrite bool_decide_eq_true_2 by done. simpl.
    unfold Inst.setSamplerBindings. simpl.
    rewrite overwriteSamplers_fits by (by rewrite growTo_length_max). simpl.
    destruct (copyWordCounts_fits (numUniformBuffers l)
                (uniformBufferBindings (_bindingDescriptors0 o))
                (Inst.growTo (numUniformBuffers l)
                   {| buffer := None; wordCount := 0; wordOffset := 0 |}
                   (uniformBufferBindings (_bindingDescriptors0 this)))) as [u ->];
      [done|rewrite growTo_length_max; lia|].
    simpl. eauto.
Qed.

Lemma new_layoutsConsistent : layoutsConsistent Inst.new.
Proof. reflexivity. Qed.

Lemma setBindingBase_layoutsConsistent ls uniformBuffer this this' :
  layoutsConsistent this ->
  Inst.setBindingBase ls uniformBuffer this = Ok this' -> layoutsConsistent this'.
Proof.
  unfold Inst.setBindingBase, layoutsConsistent. intros Hc H.
  apply bind_Ok in H as (_ & _ & H). apply bind_Ok in H as (_ & _ & H).
  apply bind_Ok in H as (l & _ & H). apply bind_Ok in H as (this1 & H1 & H).
  injection H as <-. apply setBindingLayout_Ok in H1. simpl in H1. subst this1.
  simpl. rewrite Hc. by destruct (bindingLayout (_bindingDescriptors0 this)).
Qed.

(** X12. An object that copies from a template has afterwards the
    template's whole pipeline descriptor, so that the cache resolves both
    to the same pipeline. This holds for objects whose pipeline descriptor
    lists exactly their binding layout, which the constructor establishes
    and [setBindingBase] and [setFromTemplate] maintain. *)
Theorem setFromTemplate_shares_pipeline_descriptor env o this R :
  layoutsConsistent o ->
  layoutsConsistent this ->
  Inst.setFromTemplate false o this = Ok R ->
  _renderPipelineDescriptor R = _renderPipelineDescriptor o
  /\ createRenderPipeline env (_renderPipelineDescriptor R)
     = createRenderPipeline env (_renderPipelineDescriptor o)
  /\ layoutsConsistent R.
Proof.
  intros Ho Hthis H.
  apply setFromTemplate_Ok in H as (l & this2 & s & u & Hl & H2 & Hs & Hu & ->).
  apply setBindingLayout_Ok in H2. simpl in H2. subst this2.
  unfold layoutsConsistent in *. rewrite Hl in Ho. simpl.
  assert (arraySetFirst (bindingLayouts (_renderPipelineDescriptor this)) l = [l]) as ->.
  { rewrite Hthis. by destruct (bindingLayout (_bindingDescriptors0 this)). }
  rewrite setMegaStateFlags_full.
  match goal with
  | |- ?d = ?d' /\ _ => assert (d = d') as Heq
  end.
  { destruct (_renderPipelineDescriptor o). simpl in *. by subst. }
  split; [exact Heq|]. split; [by rewrite Heq|done].
Qed.

Lemma setFromTemplate_shares_pipeline_descriptor_witness :
  exists o R,
    Scene.boundInst = Ok o
    /\ Inst.setFromTemplate false o Inst.new = Ok R
    /\ _renderPipelineDescriptor R = _renderPipelineDescriptor o
    /\ createRenderPipeline Scene.env (_renderPipelineDescriptor R)
       = createRenderPipeline Scene.env (_renderPipelineDescriptor o)
    /\ layoutsConsistent R.
Proof.
  let v := eval vm_compute in Scene.boundInst in
  match v with
  | Ok ?o =>
      let w := eval vm_compute in (Inst.setFromTemplate false o Inst.new) in
      match w with
      | Ok ?R =>
          exists o, R;
          split; [vm_compute; reflexivity|];
          split; [vm_compute; reflexivity|];
          apply (setFromTemplate_shares_pipeline_descriptor Scene.env o Inst.new R)
      end
  end.
  - reflexivity.
  - reflexivity.
  - vm_compute. reflexivity.
Defined.

(** ** Mapping what was allocated *)

(** X13. After [allocateUniformBuffer(bufferIndex, wordCount)] has
    returned an offset, [mapUniformBufferF32(bufferIndex)] on the same
    instance asks the dynamic uniform buffer for a view of exactly
    [wordCount] words at that offset. *)
Theorem allocateUniformBuffer_then_map ubs bufferIndex words this ubs' this' offset :
  Inst.allocateUniformBuffer ubs bufferIndex words this = Ok (ubs', this', offset) ->
  exists r ub',
    _uniformBuffer this' = Some r /\ ubs' !! r = Some ub'
    /\ mapUniformBufferF32 ubs' bufferIndex this'
       = Ok {| viewBuffer := gfxBuffer ub'; viewOffset := Some offset; viewLength := words |}.
Proof.
  unfold Inst.allocateUniformBuffer. intros H.
  apply bind_Ok in H as (l & _ & H). apply bind_Ok in H as (_ & _ & H).
  apply bind_Ok in H as (r & Hr & H). apply bind_Ok in H as (ub & Hub & H).
  destruct (allocateChunk ub words) as [ub' offset'] eqn:Hc.
  apply bind_Ok in H as (dst & Hdst & H). injection H as <- <- <-.
  destruct (_uniformBuffer this) as [r0|] eqn:Er; [|discriminate]. injection Hr as ->.
  destruct (ubs !! r) eqn:Eub; [|discriminate]. injection Hub as ->.
  destruct (uniformBufferBindings (_bindingDescriptors0 this) !! bufferIndex) eqn:Ed;
    [|discriminate].
  injection Hdst as ->.
  assert (<[r := ub']> ubs !! r = Some ub') as Hub'
    by (apply list_lookup_insert_eq; by eapply lookup_lt_Some).
  exists r, ub'. split; [done|]. split; [done|].
  unfold mapUniformBufferF32. simpl. rewrite Er. simpl. rewrite Hub'. simpl.
  rewrite list_lookup_insert_eq by (by eapply lookup_lt_Some). simpl.
  by rewrite arraySet_lookup.
Qed.

Lemma allocateUniformBuffer_then_map_witness :
  exists this ubs' this',
    Scene.boundInst = Ok this
    /\ Inst.allocateUniformBuffer Scene.uniformBuffers 0 16 this = Ok (ubs', this', 64%Z)
    /\ exists r ub',
         _uniformBuffer this' = Some r /\ ubs' !! r = Some ub'
         /\ mapUniformBufferF32 ubs' 0 this'
            = Ok {| viewBuffer := gfxBuffer ub'; viewOffset := Some 64%Z; viewLength := 16 |}.
Proof.
  let v := eval vm_compute in Scene.boundInst in
  match v with
  | Ok ?this =>
      let w := eval vm_compute in
                 (Inst.allocateUniformBuffer Scene.uniformBuffers 0 16 this) in
      match w with
      | Ok (?ubs', ?this', _) =>
          exists this, ubs', this';
          split; [vm_compute; reflexivity|];
          split; [vm_compute; reflexivity|];
          apply (allocateUniformBuffer_then_map Scene.uniformBuffers 0 16 this
                   ubs' this' 64%Z)
      end
  end.
  vm_compute. reflexivity.
Defined.

(** ** Allocation from the pool *)

Lemma findIndexFrom_spec {A : Type} (f : A -> bool) (a : list A) (i : Z) :
  (0 <= i)%Z ->
  findIndexFrom f a i = (-1)%Z /\ Forall (fun x => f x = false) a
  \/ exists k x,
       findIndexFrom f a i = (i + Z.of_nat k)%Z
       /\ a !! k = Some x /\ f x = true
       /\ forall j y, j < k -> a !! j = Some y -> f y = false.
Proof.
  revert i. induction a as [|x a IH]; intros i Hi; simpl.
  - left. split; [done|constructor].
  - destruct (f x) eqn:Hx.
    + right. exists 0, x. repeat split; [lia|done|]. intros j y Hj. lia.
    + destruct (IH (i + 1)%Z) as [[He Hall]|(k & y & He & Hk & Hy & Hbefore)]; [lia|..].
      * left. split; [done|by constructor].
      * right. exists (S k), y. repeat split; [rewrite He; lia|done..|].
        intros [|j] z Hj Hz; simpl in Hz; [by injection Hz as <-|].
        apply (Hbefore j); [lia|done].
Qed.

(** X14. When the free count is positive, [allocRenderInstIndex] creates
    no object, leaves the array and the allocation count as they are and
    decrements the free count. It returns the first index of the whole
    array (not only of the live range) whose object has flags 0, or -1
    when no object of the array has flags 0. *)
Theorem allocRenderInstIndex_returns_first_free h p h1 p1 index :
  0 < renderInstFreeCount p ->
  Pool.allocRenderInstIndex h p = (h1, p1, index) ->
  h1 = h /\ pool p1 = pool p
  /\ renderInstAllocCount p1 = renderInstAllocCount p
  /\ S (renderInstFreeCount p1) = renderInstFreeCount p
  /\ (index = (-1)%Z /\ Forall (fun r => Pool.isFree h r = false) (pool p)
      \/ exists k r,
           index = Z.of_nat k /\ pool p !! k = Some r /\ Pool.isFree h r = true
           /\ forall j r', j < k -> pool p !! j = Some r' -> Pool.isFree h r' = false).
Proof.
  unfold Pool.allocRenderInstIndex. intros Hfree H.
  rewrite bool_decide_eq_true_2 in H by done. injection H as <- <- <-. simpl.
  repeat split; [lia|].
  destruct (findIndexFrom_spec (Pool.isFree h) (pool p) 0 ltac:(lia))
    as [[He Hall]|(k & r & He & Hk & Hr & Hbefore)]; [by left|].
  right. exists k, r. unfold findIndex. rewrite He. repeat split; done.
Qed.

Lemma allocRenderInstIndex_returns_first_free_witness :
  exists h1 p1,
    Pool.allocRenderInstIndex
      [set_flags VISIBLE Inst.new; Inst.new; Inst.new]
      {| pool := [0; 1; 2]; renderInstAllocCount := 2; renderInstFreeCount := 1 |}
    = (h1, p1, 1%Z)
    /\ h1 = [set_flags VISIBLE Inst.new; Inst.new; Inst.new]
    /\ pool p1 = [0; 1; 2]
    /\ renderInstAllocCount p1 = 2
    /\ S (renderInstFreeCount p1) = 1.
Proof.
  eexists _, _. split; [reflexivity|].
  pose proof (allocRenderInstIndex_returns_first_free
                [set_flags VISIBLE Inst.new; Inst.new; Inst.new]
                {| pool := [0; 1; 2]; renderInstAllocCount := 2; renderInstFreeCount := 1 |}
                _ _ 1%Z ltac:(simpl; lia) eq_refl) as (H1 & H2 & H3 & H4 & _).
  done.
Defined.

Lemma isFree_alter_same h r :
  is_Some (h !! r) -> Pool.isFree (alter (set_flags 0) r h) r = true.
Proof.
  intros [x Hx]. unfold Pool.isFree. by rewrite list_lookup_alter_eq, Hx.
Qed.

Lemma isFree_alter_other (h : RenderInstStore) r r' (f : GfxRenderInst -> GfxRenderInst) :
  r' <> r -> Pool.isFree (alter f r h) r' = Pool.isFree h r'.
Proof. intros Hne. unfold Pool.isFree. by rewrite list_lookup_alter_ne. Qed.

(** X15. An instance that is returned to the pool is the next one handed
    out, when no earlier slot of the array is free: after
    [returnRenderInst] of the object in slot [k], [allocRenderInstIndex]
    returns [k], creates no object, and the pool's array and counts are
    those from before the return. *)
Theorem returnRenderInst_then_alloc h p k r :
  pool p !! k = Some r ->
  is_Some (h !! r) ->
  (forall j r', j < k -> pool p !! j = Some r' -> r' <> r /\ Pool.isFree h r' = false) ->
  Pool.allocRenderInstIndex
    (fst (Pool.returnRenderInst h p r)) (snd (Pool.returnRenderInst h p r))
  = (alter (set_flags 0) r h, p, Z.of_nat k).
Proof.
  intros Hk Hr Hbefore.
  destruct (Pool.allocRenderInstIndex
              (fst (Pool.returnRenderInst h p r)) (snd (Pool.returnRenderInst h p r)))
    as [[h1 p1] index] eqn:Ha.
  unfold Pool.allocRenderInstIndex, Pool.returnRenderInst in Ha.
  rewrite bool_decide_eq_true_2 in Ha by (simpl; lia).
  simpl in Ha. injection Ha as <- <- <-.
  f_equal; [f_equal|].
  - destruct p. simpl. f_equal. lia.
  - destruct (findIndexFrom_spec (Pool.isFree (alter (set_flags 0) r h)) (pool p) 0
                ltac:(lia))
      as [[He Hall]|(k' & r' & He & Hk' & Hr' & Hbefore')].
    + rewrite Forall_forall in Hall.
      assert (Pool.isFree (alter (set_flags 0) r h) r = false) as Hf
        by (apply Hall, list_elem_of_lookup; eauto).
      by rewrite isFree_alter_same in Hf.
    + unfold findIndex. rewrite He.
      destruct (lt_eq_lt_dec k k') as [[Hlt|Heq]|Hgt]; [|lia|].
      * specialize (Hbefore' k r Hlt Hk). by rewrite isFree_alter_same in Hbefore'.
      * destruct (Hbefore k' r' Hgt Hk') as [Hne Hnf].
        rewrite isFree_alter_other in Hr' by done. congruence.
Qed.

Lemma returnRenderInst_then_alloc_witness :
  Pool.allocRenderInstIndex
    (fst (Pool.returnRenderInst Scene.threeInsts
            {| pool := [1; 2; 0]; renderInstAllocCount := 3; renderInstFreeCount := 0 |} 2))
    (snd (Pool.returnRenderInst Scene.threeInsts
            {| pool := [1; 2; 0]; renderInstAllocCount := 3; renderInstFreeCount := 0 |} 2))
  = (alter (set_flags 0) 2 Scene.threeInsts,
     {| pool := [1; 2; 0]; renderInstAllocCount := 3; renderInstFreeCount := 0 |},
     1%Z).
Proof.
  apply (returnRenderInst_then_alloc Scene.threeInsts
           {| pool := [1; 2; 0]; renderInstAllocCount := 3; renderInstFreeCount := 0 |}
           1 2).
  - reflexivity.
  - eexists. reflexivity.
  - intros j r' Hj Hr'. assert (j = 0) as -> by lia.
    injection Hr' as <-. split; [lia|reflexivity].
Defined.

(** X16. When no slot is counted free, [allocRenderInstIndex] hands out
    the slot after the live range. It constructs an object only when the
    live range already covers the whole array: then exactly one newly
    constructed object is appended to the store and its reference to the
    array; otherwise the store and the array are untouched and the
    pooled object of that slot is reused. *)
Theorem allocRenderInstIndex_creates_only_when_full h p h1 p1 index :
  renderInstFreeCount p = 0 ->
  renderInstAllocCount p <= length (pool p) ->
  Pool.allocRenderInstIndex h p = (h1, p1, index) ->
  index = Z.of_nat (renderInstAllocCount p)
  /\ renderInstAllocCount p1 = S (renderInstAllocCount p)
  /\ renderInstFreeCount p1 = 0
  /\ (renderInstAllocCount p < length (pool p) -> h1 = h /\ pool p1 = pool p)
  /\ (renderInstAllocCount p = length (pool p) ->
      h1 = h ++ [Inst.new] /\ pool p1 = pool p ++ [length h]).
Proof.
  unfold Pool.allocRenderInstIndex. intros Hfree Hle H.
  rewrite bool_decide_eq_false_2 in H by lia.
  case_bool_decide; injection H as <- <- <-; simpl; repeat split; try lia; try done.
Qed.

Lemma allocRenderInstIndex_creates_only_when_full_witness :
  exists h1 p1 index,
    Pool.allocRenderInstIndex Scene.threeInsts Scene.threeInstsPool = (h1, p1, index)
    /\ index = 3%Z
    /\ renderInstAllocCount p1 = 4
    /\ renderInstFreeCount p1 = 0
    /\ (3 < 3 -> h1 = Scene.threeInsts /\ pool p1 = [0; 1; 2])
    /\ (3 = 3 -> h1 = Scene.threeInsts ++ [Inst.new] /\ pool p1 = [0; 1; 2] ++ [3]).
Proof.
  eexists _, _, _. split; [reflexivity|].
  apply (allocRenderInstIndex_creates_only_when_full Scene.threeInsts Scene.threeInstsPool).
  - reflexivity.
  - simpl. lia.
  - reflexivity.
Defined.

(** ** Handing out when the free count is stale *)

Lemma findIndex_none {A : Type} (f : A -> bool) (a : list A) :
  Forall (fun x => f x = false) a -> findIndex f a = (-1)%Z.
Proof.
  intros Hall. unfold findIndex.
  destruct (findIndexFrom_spec f a 0 ltac:(lia)) as [[He _]|(k & x & _ & Hk & Hx & _)];
    [done|].
  rewrite Forall_forall in Hall. rewrite Hall in Hx; [done|].
  apply list_elem_of_lookup. eauto.
Qed.

(** X17. When the free count is positive but no object of the array has
    flags 0 (in particular after [destroy], which empties the array and
    keeps the free count), [pushRenderInst] raises a TypeError, and
    [pushTemplateRenderInst] with no template active raises nothing: it
    returns undefined, decrements the free count and sets the active
    template index to -1. *)
Theorem handing_out_without_free_slot h m :
  0 < renderInstFreeCount (gfxRenderInstPool m) ->
  Forall (fun r => Pool.isFree h r = false) (pool (gfxRenderInstPool m)) ->
  Manager.pushRenderInst h m = Throw TypeError
  /\ ((renderInstTemplateIndex m < 0)%Z ->
      Manager.pushTemplateRenderInst h m
      = Ok (h,
            {| gfxRenderInstPool :=
                 {| pool := pool (gfxRenderInstPool m);
                    renderInstAllocCount := renderInstAllocCount (gfxRenderInstPool m);
                    renderInstFreeCount := renderInstFreeCount (gfxRenderInstPool m) - 1 |};
               renderInstTemplateIndex := -1 |},
            None)).
Proof.
  intros Hfree Hall.
  unfold Manager.pushRenderInst, Manager.pushTemplateRenderInst,
    Pool.allocRenderInstIndex.
  rewrite bool_decide_eq_true_2 by done.
  rewrite (findIndex_none _ _ Hall). simpl. split.
  - by destruct (0 <=? renderInstTemplateIndex m)%Z.
  - intros Hneg. destruct (Z.leb_spec 0 (renderInstTemplateIndex m)); [lia|done].
Qed.

Lemma handing_out_without_free_slot_witness :
  exists h m,
    Scene.templateFrame = Ok (h, m)
    /\ renderInstFreeCount (gfxRenderInstPool (Manager.destroy m)) = 1
    /\ Manager.pushRenderInst h (Manager.destroy m) = Throw TypeError
    /\ ((renderInstTemplateIndex (Manager.destroy m) < 0)%Z ->
        Manager.pushTemplateRenderInst h (Manager.destroy m)
        = Ok (h,
              {| gfxRenderInstPool :=
                   {| pool := [];
                      renderInstAllocCount := 0;
                      renderInstFreeCount := 1 - 1 |};
                 renderInstTemplateIndex := -1 |},
              None)).
Proof.
  let v := eval vm_compute in Scene.templateFrame in
  match v with
  | Ok (?h, ?m) =>
      exists h, m;
      split; [vm_compute; reflexivity|];
      split; [vm_compute; reflexivity|];
      apply (handing_out_without_free_slot h (Manager.destroy m))
  end.
  - vm_compute. lia.
  - constructor.
Defined.

(** ** The template stack *)

(** X18. [popTemplateRenderInst] with no template active raises a
    TypeError. *)
Theorem popTemplateRenderInst_without_template h m :
  (renderInstTemplateIndex m < 0)%Z ->
  Manager.popTemplateRenderInst h m = Throw TypeError.
Proof.
  intros Hneg. unfold Manager.popTemplateRenderInst, arrayGet.
  destruct (Z.ltb_spec (renderInstTemplateIndex m) 0); [done|lia].
Qed.

Lemma popTemplateRenderInst_without_template_witness :
  Manager.popTemplateRenderInst Scene.threeInsts
    {| gfxRenderInstPool := Scene.threeInstsPool; renderInstTemplateIndex := -1 |}
  = Throw TypeError.
Proof.
  apply (popTemplateRenderInst_without_template Scene.threeInsts
           {| gfxRenderInstPool := Scene.threeInstsPool; renderInstTemplateIndex := -1 |}).
  simpl. lia.
Defined.

(** The shape of a successful [popTemplateRenderInst]. *)
Lemma popTemplateRenderInst_Ok h m h' m' :
  Manager.popTemplateRenderInst h m = Ok (h', m') ->
  exists r this,
    arrayGet (pool (gfxRenderInstPool m)) (renderInstTemplateIndex m) = Some r
    /\ h !! r = Some this
    /\ h' = alter (set_flags 0) r h
    /\ pool (gfxRenderInstPool m') = pool (gfxRenderInstPool m)
    /\ renderInstAllocCount (gfxRenderInstPool m')
       = renderInstAllocCount (gfxRenderInstPool m)
    /\ renderInstFreeCount (gfxRenderInstPool m')
       = S (renderInstFreeCount (gfxRenderInstPool m))
    /\ renderInstTemplateIndex m' = _parentTemplateIndex this.
Proof.
  unfold Manager.popTemplateRenderInst. intros H.
  apply bind_Ok in H as (r & Hr & H). apply bind_Ok in H as (this & Hthis & H).
  simpl in H. apply bind_Ok in H as (this1 & H1 & H). injection H as <- <-.
  destruct (arrayGet _ _) eqn:Eg; [|discriminate]. injection Hr as ->.
  destruct (h !! r) eqn:Eh; [|discriminate]. injection Hthis as ->.
  rewrite list_lookup_alter_eq, Eh in H1. injection H1 as <-.
  exists r, this. done.
Qed.

Lemma popTemplateRenderInst_defined h m r this :
  arrayGet (pool (gfxRenderInstPool m)) (renderInstTemplateIndex m) = Some r ->
  h !! r = Some this ->
  Manager.popTemplateRenderInst h m
  = Ok (alter (set_flags 0) r h,
        {| gfxRenderInstPool :=
             {| pool := pool (gfxRenderInstPool m);
                renderInstAllocCount := renderInstAllocCount (gfxRenderInstPool m);
                renderInstFreeCount := S (renderInstFreeCount (gfxRenderInstPool m)) |};
           renderInstTemplateIndex := _parentTemplateIndex this |}).
Proof.
  intros Hr Hthis. unfold Manager.popTemplateRenderInst.
  rewrite Hr. simpl. rewrite Hthis. simpl.
  by rewrite list_lookup_alter_eq, Hthis.
Qed.

(** X19. A template pushed while a template is active and popped again
    restores the active template index: after the pair of calls the index
    is what it was, the pool array and the allocation count are those
    after the push, the free count is one more, and the popped object has
    flags 0. The pop cannot fail. *)
Theorem pushTemplate_then_pop_restores h m h1 m1 r :
  (0 <= renderInstTemplateIndex m)%Z ->
  Manager.pushTemplateRenderInst h m = Ok (h1, m1, Some r) ->
  exists h2 m2,
    Manager.popTemplateRenderInst h1 m1 = Ok (h2, m2)
    /\ renderInstTemplateIndex m2 = renderInstTemplateIndex m
    /\ pool (gfxRenderInstPool m2) = pool (gfxRenderInstPool m1)
    /\ renderInstAllocCount (gfxRenderInstPool m2)
       = renderInstAllocCount (gfxRenderInstPool m1)
    /\ renderInstFreeCount (gfxRenderInstPool m2)
       = S (renderInstFreeCount (gfxRenderInstPool m1))
    /\ _flags <$> h2 !! r = Some 0%Z.
Proof.
  intros Hpos H.
  apply pushTemplateRenderInst_Ok in H
    as (h0 & p1 & index & Ha & Hnew & Hp & Hidx & Hcase).
  destruct Hcase
    as [[Hneg _]|(_ & r' & this & this' & t & o & E & Hthis & _ & _ & _ & ->)]; [lia|].
  injection E as <-.
  assert (r < length h0) as Hlt by (by eapply lookup_lt_Some).
  eexists _, _. split.
  - apply (popTemplateRenderInst_defined _ _ r).
    + by rewrite Hidx, Hp.
    + by apply list_lookup_insert_eq.
  - simpl. repeat split. by rewrite list_lookup_alter_eq, list_lookup_insert_eq.
Qed.

Lemma pushTemplate_then_pop_restores_witness :
  exists h m t h1 m1 r h2 m2,
    Scene.allocatedTemplate = Ok (h, m, t)
    /\ Manager.pushTemplateRenderInst h m = Ok (h1, m1, Some r)
    /\ Manager.popTemplateRenderInst h1 m1 = Ok (h2, m2)
    /\ renderInstTemplateIndex m2 = renderInstTemplateIndex m
    /\ renderInstTemplateIndex m = 0%Z.
Proof.
  let v := eval vm_compute in Scene.allocatedTemplate in
  match v with
  | Ok (?h, ?m, ?t) =>
      let w := eval vm_compute in (Manager.pushTemplateRenderInst h m) in
      match w with
      | Ok (?h1, ?m1, Some ?r) =>
          destruct (pushTemplate_then_pop_restores h m h1 m1 r)
            as (h2 & m2 & Hpop & Htpl & _);
          [vm_compute; discriminate|vm_compute; reflexivity|];
          exists h, m, t, h1, m1, r, h2, m2;
          split; [vm_compute; reflexivity|];
          split; [vm_compute; reflexivity|];
          split; [exact Hpop|];
          split; [exact Htpl|vm_compute; reflexivity]
      end
  end.
Defined.

(** X20. A template pushed while no template is active is handed out as
    the pooled object is, and popping it sets the active template index
    to that object's own parent template index: -1 for a newly
    constructed object, and the index recorded in an earlier lifetime for
    a reused one. *)
Theorem top_level_template_pop_reads_parent_index h m h1 m1 r old :
  (renderInstTemplateIndex m < 0)%Z ->
  Manager.pushTemplateRenderInst h m = Ok (h1, m1, Some r) ->
  is_Some (h1 !! r) ->
  (h ++ [Inst.new]) !! r = Some old ->
  h1 !! r = Some old
  /\ exists h2 m2,
       Manager.popTemplateRenderInst h1 m1 = Ok (h2, m2)
       /\ renderInstTemplateIndex m2 = _parentTemplateIndex old.
Proof.
  intros Hneg H [x Hx] Hold.
  apply pushTemplateRenderInst_Ok in H
    as (h0 & p1 & index & Ha & Hnew & Hp & Hidx & Hcase).
  destruct Hcase as [[_ ->]|(Hpos & _)]; [|lia].
  rewrite (allocRenderInstIndex_before _ _ _ _ _ _ _ Ha Hx) in Hold.
  injection Hold as <-. split; [done|].
  eexists _, _. split.
  - apply (popTemplateRenderInst_defined _ _ r x); [by rewrite Hidx, Hp|done].
  - done.
Qed.

Lemma top_level_template_pop_reads_parent_index_witness :
  exists h m h1 m1 r old h2 m2,
    staleParentScene = Ok (h, m)
    /\ renderInstTemplateIndex m = (-1)%Z
    /\ Manager.pushTemplateRenderInst h m = Ok (h1, m1, Some r)
    /\ r = 1
    /\ Manager.popTemplateRenderInst h1 m1 = Ok (h2, m2)
    /\ renderInstTemplateIndex m2 = _parentTemplateIndex old
    /\ _parentTemplateIndex old = 0%Z.
Proof.
  let v := eval vm_compute in staleParentScene in
  match v with
  | Ok (?h, ?m) =>
      let w := eval vm_compute in (Manager.pushTemplateRenderInst h m) in
      match w with
      | Ok (?h1, ?m1, Some ?r) =>
          let vold := eval vm_compute in ((h ++ [Inst.new]) !! r) in
          match vold with
          | Some ?old =>
              destruct (top_level_template_pop_reads_parent_index h m h1 m1 r old)
                as (_ & h2 & m2 & Hpop & Htpl);
              [vm_compute; reflexivity
              |vm_compute; reflexivity
              |eexists; vm_compute; reflexivity
              |vm_compute; reflexivity
              |];
              exists h, m, h1, m1, r, old, h2, m2;
              split; [vm_compute; reflexivity|];
              split; [vm_compute; reflexivity|];
              split; [vm_compute; reflexivity|];
              split; [reflexivity|];
              split; [exact Hpop|];
              split; [exact Htpl|vm_compute; reflexivity]
          end
      end
  end.
Defined.

(** [allocRenderInstIndex] keeps every entry of the array and every object
    of the store where it is. *)
Lemma allocRenderInstIndex_extends h p h1 p1 index :
  Pool.allocRenderInstIndex h p = (h1, p1, index) ->
  (forall i t, arrayGet (pool p) i = Some t -> arrayGet (pool p1) i = Some t)
  /\ (forall r x, h !! r = Some x -> h1 !! r = Some x)
  /\ length h <= length h1.
Proof.
  unfold Pool.allocRenderInstIndex. intros H.
  repeat case_bool_decide; injection H as <- <- <-; simpl; repeat split; auto.
  - intros i t. unfold arrayGet. destruct (i <? 0)%Z; [done|]. apply lookup_app_l_Some.
  - intros r x. apply lookup_app_l_Some.
  - rewrite length_app. lia.
Qed.

Lemma inheritFromTemplate_without_layout h p templateIndex renderInst t T :
  arrayGet (pool p) templateIndex = Some t ->
  h !! t = Some T ->
  bindingLayout (_bindingDescriptors0 T) = None ->
  Manager.inheritFromTemplate h p templateIndex renderInst = Throw TypeError.
Proof.
  intros Ht HT Hl. unfold Manager.inheritFromTemplate.
  destruct renderInst as [r|]; [|done]. simpl.
  destruct (h !! r) as [this|]; [|done]. simpl.
  rewrite Ht. simpl. rewrite HT. simpl.
  unfold Inst.setFromTemplate. by rewrite Hl.
Qed.

(** X21. While the active template has no binding layout (neither
    [setBindingBase] nor a copy from a template was ever made on that
    object), both [pushRenderInst] and [pushTemplateRenderInst] raise a
    TypeError. *)
Theorem pushing_under_template_without_layout h m t T :
  (0 <= renderInstTemplateIndex m)%Z ->
  arrayGet (pool (gfxRenderInstPool m)) (renderInstTemplateIndex m) = Some t ->
  h !! t = Some T ->
  bindingLayout (_bindingDescriptors0 T) = None ->
  Manager.pushRenderInst h m = Throw TypeError
  /\ Manager.pushTemplateRenderInst h m = Throw TypeError.
Proof.
  intros Hpos Ht HT Hl.
  unfold Manager.pushRenderInst, Manager.pushTemplateRenderInst.
  destruct (Pool.allocRenderInstIndex h (gfxRenderInstPool m)) as [[h1 p1] index] eqn:Ha.
  apply allocRenderInstIndex_extends in Ha as (Hpool & Hstore & _).
  destruct (Z.leb_spec 0 (renderInstTemplateIndex m)); [|lia].
  rewrite (inheritFromTemplate_without_layout h1 p1 _ _ t T); auto.
Qed.

Lemma pushing_under_template_without_layout_witness :
  exists h m,
    Manager.pushTemplateRenderInst [] Manager.new = Ok (h, m, Some 0)
    /\ Manager.pushRenderInst h m = Throw TypeError
    /\ Manager.pushTemplateRenderInst h m = Throw TypeError.
Proof.
  let v := eval vm_compute in (Manager.pushTemplateRenderInst [] Manager.new) in
  match v with
  | Ok (?h, ?m, _) =>
      exists h, m; split; [vm_compute; reflexivity|];
      apply (pushing_under_template_without_layout h m 0 Inst.new)
  end.
  - vm_compute. discriminate.
  - reflexivity.
  - reflexivity.
  - reflexivity.
Defined.

(** ** The pool array across the manager's calls *)

Lemma poolRefsValid_length h h' p :
  length h <= length h' -> poolRefsValid h p -> poolRefsValid h' p.
Proof.
  unfold poolRefsValid. intros Hlen Hv. eapply Forall_impl; [exact Hv|]. intros r Hr.
  apply lookup_lt_is_Some. apply lookup_lt_is_Some in Hr. lia.
Qed.

Lemma allocRenderInstIndex_wellFormed h p h1 p1 index :
  Pool.allocRenderInstIndex h p = (h1, p1, index) ->
  poolWellFormed h p -> poolWellFormed h1 p1.
Proof.
  unfold Pool.allocRenderInstIndex, poolWellFormed, poolRefsValid.
  intros H (Hnd & Hv & Hle).
  repeat case_bool_decide; injection H as <- <- <-; simpl; repeat split;
    try done; try lia.
  - apply NoDup_app. repeat split; [done| |apply NoDup_singleton].
    intros r Hr Hin. apply list_elem_of_singleton in Hin as ->.
    rewrite Forall_forall in Hv. apply Hv, lookup_lt_is_Some in Hr. lia.
  - apply Forall_app. split.
    + eapply Forall_impl; [exact Hv|]. intros r Hr.
      apply lookup_lt_is_Some. apply lookup_lt_is_Some in Hr.
      rewrite length_app. simpl. lia.
    + constructor; [|constructor]. apply lookup_lt_is_Some.
      rewrite length_app. simpl. lia.
  - rewrite length_app. simpl. lia.
Qed.

Lemma drawLoop_length env ubs h a i n h' cmds :
  Manager.drawLoop env ubs h a i n = Ok (h', cmds) -> length h' = length h.
Proof.
  revert h i h' cmds. induction n as [|n IH]; intros h i h' cmds H; simpl in H.
  - by injection H as <- <-.
  - apply bind_Ok in H as (r & _ & H). apply bind_Ok in H as (this & _ & H).
    destruct (negb _); [by injection H as <- <-|].
    apply bind_Ok in H as ([this' c] & _ & H).
    apply bind_Ok in H as ([h2 rest] & H2 & H). injection H as <- <-.
    apply IH in H2. by rewrite length_insert in H2.
Qed.

(** The shape of a successful [executeOnPass] with a non-empty frame. *)
Lemma executeOnPass_Ok env ubs h m h' m' cmds :
  Manager.executeOnPass env ubs h m = Ok (h', m', cmds) ->
  renderInstAllocCount (gfxRenderInstPool m) <> 0 ->
  exists h1,
    Manager.drawLoop env ubs h (pool (Manager.sortPool h (gfxRenderInstPool m))) 0
      (renderInstAllocCount (gfxRenderInstPool m)) = Ok (h1, cmds)
    /\ Pool.reset h1 (Manager.sortPool h (gfxRenderInstPool m))
       = Ok (h', gfxRenderInstPool m')
    /\ renderInstTemplateIndex m' = renderInstTemplateIndex m.
Proof.
  unfold Manager.executeOnPass. intros H Hne.
  rewrite bool_decide_eq_false_2 in H by done.
  apply bind_Ok in H as ([h1 c] & H1 & H).
  apply bind_Ok in H as ([h2 p2] & H2 & H). injection H as <- <- <-.
  exists h1. done.
Qed.

(** X22. Every call of the manager that returns keeps the pool array an
    array of pairwise distinct references to objects of the store, with
    the allocation count at most its length; no call removes an object
    from the store. *)
Theorem manager_calls_keep_pool_well_formed c h m h' m' :
  runCall c h m = Ok (h', m') ->
  poolWellFormed h (gfxRenderInstPool m) ->
  poolWellFormed h' (gfxRenderInstPool m') /\ length h <= length h'.
Proof.
  intros H Hwf. destruct c; simpl in H.
  - apply bind_Ok in H as ([[h0 m0] r] & H & E). injection E as -> ->.
    apply pushRenderInst_Ok in H
      as (h1 & p1 & index & this & this' & Ha & _ & _ & -> & -> & _).
    pose proof (allocRenderInstIndex_wellFormed _ _ _ _ _ Ha Hwf) as (Hnd & Hv & Hle).
    apply allocRenderInstIndex_extends in Ha as (_ & _ & Hlen).
    rewrite length_insert. split; [|done]. repeat split; [done| |done].
    eapply poolRefsValid_length; [|exact Hv]. by rewrite length_insert.
  - apply bind_Ok in H as ([[h0 m0] r] & H & E). injection E as -> ->.
    apply pushTemplateRenderInst_Ok in H as (h1 & p1 & index & Ha & _ & -> & _ & Hcase).
    pose proof (allocRenderInstIndex_wellFormed _ _ _ _ _ Ha Hwf) as (Hnd & Hv & Hle).
    apply allocRenderInstIndex_extends in Ha as (_ & _ & Hlen).
    destruct Hcase as [[_ ->]|(_ & r' & this & this' & t & o & _ & _ & _ & _ & _ & ->)].
    + done.
    + rewrite length_insert. split; [|done]. repeat split; [done| |done].
      eapply poolRefsValid_length; [|exact Hv]. by rewrite length_insert.
  - apply popTemplateRenderInst_Ok in H
      as (r & this & _ & _ & -> & Hp & Ha & _ & _).
    destruct Hwf as (Hnd & Hv & Hle). rewrite length_alter.
    split; [|done]. unfold poolWellFormed, poolRefsValid. rewrite Hp, Ha.
    repeat split; [done| |done].
    eapply Forall_impl; [exact Hv|]. intros r0 Hr0.
    apply lookup_lt_is_Some. apply lookup_lt_is_Some in Hr0. by rewrite length_alter.
  - apply bind_Ok in H as ([[h0 m0] cmds] & H & E). injection E as -> ->.
    destruct (decide (renderInstAllocCount (gfxRenderInstPool m) = 0)) as [Hz|Hnz].
    + unfold Manager.executeOnPass in H. rewrite bool_decide_eq_true_2 in H by done.
      by injection H as <- <- <-.
    + apply executeOnPass_Ok in H as (h1 & Hd & Hr & _); [|done].
      apply drawLoop_length in Hd.
      pose proof (reset_retains_objects _ _ _ _ Hr) as (Ha & Hp & Hlen).
      destruct Hwf as (Hnd & Hv & Hle).
      split; [|lia]. unfold poolWellFormed, poolRefsValid. rewrite Ha, Hp.
      repeat split; [| |lia].
      * by rewrite (sortPool_Permutation h (gfxRenderInstPool m)).
      * rewrite (sortPool_Permutation h (gfxRenderInstPool m)).
        eapply Forall_impl; [exact Hv|]. intros r0 Hr0.
        apply lookup_lt_is_Some. apply lookup_lt_is_Some in Hr0. lia.
Qed.

Lemma manager_calls_keep_pool_well_formed_witness :
  exists h m h' m',
    Scene.templateStillPushed = Ok (h, m)
    /\ runCall (CallExecuteOnPass Scene.env Scene.uniformBuffers) h m = Ok (h', m')
    /\ poolWellFormed h' (gfxRenderInstPool m') /\ length h <= length h'.
Proof.
  let v := eval vm_compute in Scene.templateStillPushed in
  match v with
  | Ok (?h, ?m) =>
      let w := eval vm_compute in
                 (runCall (CallExecuteOnPass Scene.env Scene.uniformBuffers) h m) in
      match w with
      | Ok (?h', ?m') =>
          exists h, m, h', m';
          split; [vm_compute; reflexivity|];
          split; [vm_compute; reflexivity|];
          apply (manager_calls_keep_pool_well_formed
                   (CallExecuteOnPass Scene.env Scene.uniformBuffers) h m h' m')
      end
  end.
  - vm_compute. reflexivity.
  - repeat split.
    + apply (bool_decide_unpack _). vm_compute. exact I.
    + repeat constructor; eexists; reflexivity.
    + simpl. lia.
Defined.

(** ** The frame *)

Section Pointwise.
Context (R : GfxRenderInst -> GfxRenderInst -> Prop).
Hypothesis R_refl : forall x, R x x.
Hypothesis R_trans : forall x y z, R x y -> R y z -> R x z.
Hypothesis R_flags : forall x, R x (set_flags 0 x).

Lemma clearFlags_pointwise h a i n h' :
  Pool.clearFlags h a i n = Ok h' ->
  forall r x, h !! r = Some x -> exists x', h' !! r = Some x' /\ R x x'.
Proof.
  revert h i. induction n as [|n IH]; intros h i H r x Hx; simpl in H.
  - injection H as <-. eauto.
  - apply bind_Ok in H as (r0 & _ & H).
    destruct (decide (r0 = r)) as [->|Hne].
    + destruct (IH _ _ H r (set_flags 0 x)) as (x' & Hx' & HR).
      { by rewrite list_lookup_alter_eq, Hx. }
      eauto.
    + apply (IH _ _ H). by rewrite list_lookup_alter_ne.
Qed.

Lemma drawLoop_pointwise env ubs h a i n h' cmds :
  (forall x x' c, Inst.drawOnPass env ubs x = Ok (x', c) -> R x x') ->
  Manager.drawLoop env ubs h a i n = Ok (h', cmds) ->
  forall r x, h !! r = Some x -> exists x', h' !! r = Some x' /\ R x x'.
Proof.
  intros Hdraw. revert h i h' cmds.
  induction n as [|n IH]; intros h i h' cmds H r x Hx; simpl in H.
  - injection H as <- <-. eauto.
  - apply bind_Ok in H as (r0 & _ & H). apply bind_Ok in H as (this & Hthis & H).
    destruct (negb _); [injection H as <- <-; eauto|].
    apply bind_Ok in H as ([this' c] & Hd & H).
    apply bind_Ok in H as ([h2 rest] & H2 & H). injection H as <- <-.
    destruct (h !! r0) eqn:E; [|discriminate]. injection Hthis as ->.
    destruct (decide (r0 = r)) as [->|Hne].
    + rewrite Hx in E. injection E as <-.
      destruct (IH _ _ _ _ H2 r this') as (x' & Hx' & HR).
      { apply list_lookup_insert_eq. by eapply lookup_lt_Some. }
      eauto.
    + apply (IH _ _ _ _ H2). by rewrite list_lookup_insert_ne.
Qed.

Lemma executeOnPass_pointwise env ubs h m h' m' cmds :
  (forall x x' c, Inst.drawOnPass env ubs x = Ok (x', c) -> R x x') ->
  Manager.executeOnPass env ubs h m = Ok (h', m', cmds) ->
  forall r x, h !! r = Some x -> exists x', h' !! r = Some x' /\ R x x'.
Proof.
  intros Hdraw H r x Hx.
  destruct (decide (renderInstAllocCount (gfxRenderInstPool m) = 0)) as [Hz|Hnz].
  - unfold Manager.executeOnPass in H. rewrite bool_decide_eq_true_2 in H by done.
    injection H as <- <- <-. eauto.
  - apply executeOnPass_Ok in H as (h1 & Hd & Hr & _); [|done].
    destruct (drawLoop_pointwise _ _ _ _ _ _ _ _ Hdraw Hd r x Hx) as (x1 & Hx1 & HR1).
    unfold Pool.reset in Hr. apply bind_Ok in Hr as (h2 & H2 & Hr). injection Hr as <- _.
    destruct (clearFlags_pointwise _ _ _ _ _ H2 r x1 Hx1) as (x' & Hx' & HR).
    eauto.
Qed.

End Pointwise.

Lemma onlyFlagsAndBuffersWritten_refl x : onlyFlagsAndBuffersWritten x x.
Proof. unfold onlyFlagsAndBuffersWritten. by destruct x as [? ? ? ? []]. Qed.

Lemma onlyFlagsAndBuffersWritten_trans x y z :
  onlyFlagsAndBuffersWritten x y -> onlyFlagsAndBuffersWritten y z ->
  onlyFlagsAndBuffersWritten x z.
Proof.
  unfold onlyFlagsAndBuffersWritten. intros (Hy & Hc & Ho) (Hz & Hc' & Ho').
  split; [|split; congruence].
  clear Hc Ho Hc' Ho'.
  destruct x as [? ? ? ? [? ? ?] ? ? ? ? ? ?], y as [? ? ? ? [? ? ?] ? ? ? ? ? ?],
    z as [? ? ? ? [? ? ?] ? ? ? ? ? ?].
  unfold set_flags, set_bindings, Inst.with_uniformBufferBindings in *. simpl in *.
  injection Hy. injection Hz. intros. subst. reflexivity.
Qed.

Lemma drawOnPass_onlyFlagsAndBuffersWritten env ubs x x' c :
  Inst.drawOnPass env ubs x = Ok (x', c) -> onlyFlagsAndBuffersWritten x x'.
Proof.
  unfold Inst.drawOnPass. intros H. destruct (negb _).
  - injection H as <- <-. apply onlyFlagsAndBuffersWritten_refl.
  - apply bind_Ok in H as (bs & Hbs & H). injection H as <- <-.
    unfold onlyFlagsAndBuffersWritten. simpl. split; [by destruct x|].
    apply fillBuffers_Ok in Hbs as [[-> ->]|(r & ub & _ & _ & ->)]; [done|].
    by rewrite !map_map.
Qed.

(** X23. An [executeOnPass] that returns retires the frame without
    creating, dropping or duplicating anything: the allocation count is 0,
    the active template index and the free count are as before, the pool
    array is a rearrangement of the array before, the store has the same
    objects, and each object is as before except for its flags and for the
    buffers of its uniform-buffer bindings (sort keys, pipeline state,
    sampler bindings, word counts and offsets are not written). *)
Theorem executeOnPass_retires_frame env ubs h m h' m' cmds :
  Manager.executeOnPass env ubs h m = Ok (h', m', cmds) ->
  renderInstAllocCount (gfxRenderInstPool m') = 0
  /\ renderInstTemplateIndex m' = renderInstTemplateIndex m
  /\ renderInstFreeCount (gfxRenderInstPool m') = renderInstFreeCount (gfxRenderInstPool m)
  /\ Permutation (pool (gfxRenderInstPool m')) (pool (gfxRenderInstPool m))
  /\ length h' = length h
  /\ forall r x, h !! r = Some x ->
       exists x', h' !! r = Some x' /\ onlyFlagsAndBuffersWritten x x'.
Proof.
  intros H.
  assert (forall r x, h !! r = Some x ->
            exists x', h' !! r = Some x' /\ onlyFlagsAndBuffersWritten x x') as Hpw.
  { apply (executeOnPass_pointwise onlyFlagsAndBuffersWritten) with (5 := H).
    - apply onlyFlagsAndBuffersWritten_refl.
    - apply onlyFlagsAndBuffersWritten_trans.
    - intros x. unfold onlyFlagsAndBuffersWritten. by destruct x as [? ? ? ? []].
    - apply drawOnPass_onlyFlagsAndBuffersWritten. }
  destruct (decide (renderInstAllocCount (gfxRenderInstPool m) = 0)) as [Hz|Hnz].
  - unfold Manager.executeOnPass in H. rewrite bool_decide_eq_true_2 in H by done.
    injection H as <- <- <-. done.
  - apply executeOnPass_Ok in H as (h1 & Hd & Hr & Ht); [|done].
    apply drawLoop_length in Hd.
    pose proof (reset_retains_objects _ _ _ _ Hr) as (Ha & Hp & Hlen).
    pose proof (reset_freeCount _ _ _ _ Hr) as Hf.
    repeat split; [done..| |lia|done].
    rewrite Hp. apply sortPool_Permutation.
Qed.

Lemma executeOnPass_retires_frame_witness :
  exists h m h' m' cmds,
    Scene.templateFrame = Ok (h, m)
    /\ Manager.executeOnPass Scene.env Scene.uniformBuffers h m = Ok (h', m', cmds)
    /\ renderInstAllocCount (gfxRenderInstPool m) = 2
    /\ renderInstAllocCount (gfxRenderInstPool m') = 0
    /\ renderInstTemplateIndex m' = renderInstTemplateIndex m
    /\ renderInstFreeCount (gfxRenderInstPool m') = renderInstFreeCount (gfxRenderInstPool m)
    /\ Permutation (pool (gfxRenderInstPool m')) (pool (gfxRenderInstPool m))
    /\ length h' = length h
    /\ forall r x, h !! r = Some x ->
         exists x', h' !! r = Some x' /\ onlyFlagsAndBuffersWritten x x'.
Proof.
  let v := eval vm_compute in Scene.templateFrame in
  match v with
  | Ok (?h, ?m) =>
      let w := eval vm_compute in
                 (Manager.executeOnPass Scene.env Scene.uniformBuffers h m) in
      match w with
      | Ok (?h', ?m', ?cmds) =>
          exists h, m, h', m', cmds;
          split; [vm_compute; reflexivity|];
          split; [vm_compute; reflexivity|];
          split; [vm_compute; reflexivity|];
          apply (executeOnPass_retires_frame Scene.env Scene.uniformBuffers h m h' m' cmds)
      end
  end.
  vm_compute. reflexivity.
Defined.

(** X24. While no pipeline is ready, an [executeOnPass] that returns has
    issued no command on the render pass and has written nothing but
    flags: the frame is retired as usual and every draw is dropped. *)
Theorem executeOnPass_with_no_ready_pipeline env ubs h m h' m' cmds :
  (forall p, queryPipelineReady env p = false) ->
  Manager.executeOnPass env ubs h m = Ok (h', m', cmds) ->
  cmds = []
  /\ forall r x, h !! r = Some x -> exists x', h' !! r = Some x' /\ onlyFlagsWritten x x'.
Proof.
  intros Hpending H.
  assert (forall x x' c, Inst.drawOnPass env ubs x = Ok (x', c) -> x' = x /\ c = []) as Hd.
  { intros x x' c Hx. unfold Inst.drawOnPass in Hx. rewrite Hpending in Hx.
    by injection Hx as <- <-. }
  split.
  - destruct (decide (renderInstAllocCount (gfxRenderInstPool m) = 0)) as [Hz|Hnz].
    + unfold Manager.executeOnPass in H. rewrite bool_decide_eq_true_2 in H by done.
      by injection H as <- <- <-.
    + apply executeOnPass_Ok in H as (h1 & Hl & _); [|done].
      revert Hl. generalize (pool (Manager.sortPool h (gfxRenderInstPool m))) as a.
      generalize 0 as i. generalize (renderInstAllocCount (gfxRenderInstPool m)) as n.
      clear -Hd. intros n. revert h h1 cmds.
      induction n as [|n IH]; intros h h1 cmds i a Hl; simpl in Hl.
      * by injection Hl as <- <-.
      * apply bind_Ok in Hl as (r0 & _ & Hl). apply bind_Ok in Hl as (this & _ & Hl).
        destruct (negb _); [by injection Hl as <- <-|].
        apply bind_Ok in Hl as ([this' c] & Hx & Hl).
        apply bind_Ok in Hl as ([h2 rest] & H2 & Hl). injection Hl as <- <-.
        apply Hd in Hx as [_ ->]. apply IH in H2 as ->. done.
  - apply (executeOnPass_pointwise onlyFlagsWritten) with (5 := H).
    + intros x. unfold onlyFlagsWritten. by destruct x.
    + unfold onlyFlagsWritten. intros x y z Hy Hz.
      destruct x, y, z. unfold set_flags in *. simpl in *.
      injection Hy. injection Hz. intros. subst. reflexivity.
    + intros x. unfold onlyFlagsWritten. by destruct x.
    + intros x x' c Hx. apply Hd in Hx as [-> _]. unfold onlyFlagsWritten. by destruct x.
Qed.

Lemma executeOnPass_with_no_ready_pipeline_witness :
  exists h m h' m' cmds,
    Scene.templateFrame = Ok (h, m)
    /\ Manager.executeOnPass Scene.envPending Scene.uniformBuffers h m = Ok (h', m', cmds)
    /\ cmds = []
    /\ forall r x, h !! r = Some x -> exists x', h' !! r = Some x' /\ onlyFlagsWritten x x'.
Proof.
  let v := eval vm_compute in Scene.templateFrame in
  match v with
  | Ok (?h, ?m) =>
      let w := eval vm_compute in
                 (Manager.executeOnPass Scene.envPending Scene.uniformBuffers h m) in
      match w with
      | Ok (?h', ?m', ?cmds) =>
          exists h, m, h', m', cmds;
          split; [vm_compute; reflexivity|];
          split; [vm_compute; reflexivity|];
          apply (executeOnPass_with_no_ready_pipeline
                   Scene.envPending Scene.uniformBuffers h m h' m' cmds)
      end
  end.
  - reflexivity.
  - vm_compute. reflexivity.
Defined.

Lemma drawOnPass_returns env ubs this :
  uniformBufferBound ubs this -> exists res, Inst.drawOnPass env ubs this = Ok res.
Proof.
  intros Hb. unfold Inst.drawOnPass. destruct (negb _); [eauto|].
  assert (exists bs, Inst.fillBuffers ubs this = Ok bs) as [bs ->]; [|simpl; eauto].
  unfold Inst.fillBuffers.
  destruct Hb as [->|(r & ub & -> & Hr)]; [eauto|].
  simpl. rewrite Hr. simpl.
  destruct (uniformBufferBindings (_bindingDescriptors0 this)); eauto.
Qed.

Lemma drawLoop_total env ubs a n :
  forall i h,
    i + n <= length a ->
    Forall (fun r => r < length h) a ->
    Forall (bindingBaseSet ubs) h ->
    exists h' cmds, Manager.drawLoop env ubs h a i n = Ok (h', cmds).
Proof.
  induction n as [|n IH]; intros i h Hn Hv Hb; simpl; [eauto|].
  destruct (lookup_lt_is_Some_2 a i) as [r Hr]; [lia|]. rewrite Hr. simpl.
  assert (r < length h) as Hlt.
  { rewrite Forall_forall in Hv. apply Hv, list_elem_of_lookup. eauto. }
  destruct (lookup_lt_is_Some_2 h r Hlt) as [this Hthis]. rewrite Hthis. simpl.
  destruct (negb _); [eauto|].
  assert (bindingBaseSet ubs this) as Hbt.
  { rewrite Forall_forall in Hb. apply Hb, list_elem_of_lookup. eauto. }
  destruct (drawOnPass_returns env ubs this (bindingBaseSet_bound _ _ Hbt))
    as [[this' c] Hd].
  rewrite Hd. simpl.
  destruct (IH (S i) (<[r := this']> h)) as (h' & rest & ->).
  - lia.
  - by rewrite length_insert.
  - apply Forall_insert; [done|]. by eapply drawOnPass_bindingBaseSet.
  - simpl. eauto.
Qed.

(** X25. On a manager whose pool array holds distinct references to
    objects of the store, with the allocation count within the array, and
    whose objects all have a uniform buffer once they have a binding
    layout (as [setBindingBase] and the copy from a template leave them),
    [executeOnPass] raises nothing. *)
Theorem executeOnPass_never_raises env ubs h m :
  poolWellFormed h (gfxRenderInstPool m) ->
  Forall (bindingBaseSet ubs) h ->
  exists h' m' cmds, Manager.executeOnPass env ubs h m = Ok (h', m', cmds).
Proof.
  intros (Hnd & Hv & Hle) Hb. unfold Manager.executeOnPass.
  case_bool_decide; [eauto|].
  destruct (drawLoop_total env ubs (pool (Manager.sortPool h (gfxRenderInstPool m)))
              (renderInstAllocCount (Manager.sortPool h (gfxRenderInstPool m))) 0 h)
    as (h1 & cmds & ->).
  - pose proof (sortPool_allocCount h _ Hle). lia.
  - rewrite (sortPool_Permutation h (gfxRenderInstPool m)).
    eapply Forall_impl; [exact Hv|]. intros r Hr. by apply lookup_lt_is_Some.
  - done.
  - simpl.
    destruct (reset_total h1 (Manager.sortPool h (gfxRenderInstPool m)))
      as (h2 & p2 & ->); [by apply sortPool_allocCount|].
    simpl. eauto.
Qed.

Lemma executeOnPass_never_raises_witness :
  exists h m h' m' cmds,
    Scene.templateStillPushed = Ok (h, m)
    /\ Manager.executeOnPass Scene.env Scene.uniformBuffers h m = Ok (h', m', cmds).
Proof.
  let v := eval vm_compute in Scene.templateStillPushed in
  match v with
  | Ok (?h, ?m) =>
      destruct (executeOnPass_never_raises Scene.env Scene.uniformBuffers h m)
        as (h' & m' & cmds & Hex);
      [|
       |exists h, m, h', m', cmds; split; [vm_compute; reflexivity|exact Hex]]
  end.
  - repeat split.
    + apply (bool_decide_unpack _). vm_compute. exact I.
    + repeat constructor; eexists; reflexivity.
    + simpl. lia.
  - repeat (constructor;
            [cbv; first [reflexivity | do 2 eexists; split; reflexivity]|]).
    constructor.
Defined.

Lemma defined_Ok {A : Type} (o : option A) (a : A) :
  defined o = Ok a -> o = Some a.
Proof. destruct o; simpl; congruence. Qed.

Lemma derefAll_ext h1 h2 a :
  (forall r, r ∈ a -> h1 !! r = h2 !! r) -> derefAll h1 a = derefAll h2 a.
Proof.
  induction a as [|r a IH]; intros H; simpl; [done|].
  rewrite (H r) by left. rewrite IH; [done|].
  intros r' Hr'. apply H. by right.
Qed.

Lemma derefAll_cons h r a insts :
  derefAll h (r :: a) = Some insts ->
  exists x xs, h !! r = Some x /\ derefAll h a = Some xs /\ insts = x :: xs.
Proof.
  simpl. destruct (h !! r) as [x|]; [|done]. simpl.
  destruct (derefAll h a) as [xs|]; [|done]. simpl.
  intros [= <-]. eauto.
Qed.

Lemma derefAll_valid h a :
  Forall (fun r => is_Some (h !! r)) a ->
  exists insts, derefAll h a = Some insts /\ length insts = length a.
Proof.
  induction 1 as [|r a [x Hx] _ (xs & IH & Hlen)]; simpl; [eauto|].
  rewrite Hx, IH. simpl. eexists. split; [done|]. simpl. by rewrite Hlen.
Qed.

Lemma derefAll_Forall h (P : GfxRenderInst -> Prop) (Q : nat -> Prop) a :
  (forall r x, Q r -> h !! r = Some x -> P x) ->
  forall insts, Forall Q a -> derefAll h a = Some insts -> Forall P insts.
Proof.
  intros HPQ. induction a as [|r a IH]; intros insts HQ H.
  - injection H as <-. constructor.
  - apply derefAll_cons in H as (x & xs & Hx & Hxs & ->).
    inversion HQ; subst. constructor; eauto.
Qed.

Lemma derefAll_StronglySorted h a :
  StronglySorted (refsInOrder h) a ->
  forall insts, derefAll h a = Some insts -> StronglySorted inOrder insts.
Proof.
  induction 1 as [|r a Hs IH Hr]; intros insts H.
  - injection H as <-. constructor.
  - apply derefAll_cons in H as (x & xs & Hx & Hxs & ->).
    constructor; [by apply IH|].
    eapply (derefAll_Forall h _ (refsInOrder h r)); [|exact Hr|exact Hxs].
    intros r' y (x' & y' & Hx' & Hy' & Hord) Hy. congruence.
Qed.

Lemma leadingVisible_elem x l :
  x ∈ leadingVisible l -> x ∈ l /\ visible x = true.
Proof.
  induction l as [|y l IH]; simpl; [by intros ?%elem_of_nil|].
  destruct (visible y) eqn:Hy; [|by intros ?%elem_of_nil].
  intros [->|Hx]%elem_of_cons.
  - split; [left|done].
  - destruct (IH Hx). split; [by right|done].
Qed.

(** In a sequence in the order of the sort step, nothing visible comes
    after the first invisible instance, and the visible ones have
    ascending sort keys. *)
Lemma leadingVisible_sorted l :
  StronglySorted inOrder l ->
  leadingVisible l = List.filter visible l
  /\ StronglySorted (fun a b => (sortKey a <= sortKey b)%Z) (leadingVisible l).
Proof.
  induction 1 as [|x l Hs [IHf IHs] Hx]; simpl; [split; [done|constructor]|].
  destruct (visible x) eqn:Hvx.
  - split; [by rewrite IHf|]. constructor; [done|].
    apply Forall_forall. intros y [Hy Hvy]%leadingVisible_elem.
    rewrite Forall_forall in Hx. destruct (Hx y Hy) as [(_ & _ & Hle)|Hn]; [done|].
    congruence.
  - split; [|constructor].
    symmetry. clear IHf IHs Hs. induction l as [|y l IH]; simpl; [done|].
    inversion Hx as [|? ? Hy Hl]; subst.
    destruct Hy as [(Hc & _)|Hn]; [congruence|]. rewrite Hn. by apply IH.
Qed.

(** The commands of the submission loop are those of the leading visible
    instances of the slots it visits, read before the loop starts. *)
Lemma drawLoop_commands env ubs a n :
  NoDup a ->
  forall i h h' cmds insts,
    Manager.drawLoop env ubs h a i n = Ok (h', cmds) ->
    derefAll h (take n (drop i a)) = Some insts ->
    cmds = flat_map (submitted env ubs) (leadingVisible insts).
Proof.
  intros Hnd. induction n as [|n IH]; intros i h h' cmds insts H Hd; simpl in H.
  - injection H as <- <-. rewrite take_0 in Hd. by injection Hd as <-.
  - apply bind_Ok in H as (r & Hr & H). apply bind_Ok in H as (this & Hthis & H).
    apply defined_Ok in Hr. apply defined_Ok in Hthis.
    rewrite (drop_S _ _ _ Hr) in Hd. rewrite firstn_cons in Hd.
    apply derefAll_cons in Hd as (x & xs & Hx & Hxs & ->).
    assert (x = this) as -> by congruence.
    simpl. unfold visible. destruct (hasFlag (_flags this) VISIBLE) eqn:Hv; simpl in H.
    + apply bind_Ok in H as ([this' c] & Hdraw & H).
      apply bind_Ok in H as ([h2 rest] & H2 & H). injection H as <- <-.
      simpl. f_equal.
      * unfold submitted. by rewrite Hdraw.
      * eapply IH; [exact H2|]. rewrite <- Hxs. apply derefAll_ext.
        intros r' Hr'. apply list_lookup_insert_ne. intros <-.
        apply elem_of_take in Hr' as (j & Hj & _).
        rewrite lookup_drop in Hj.
        pose proof (NoDup_lookup _ _ _ _ Hnd Hr Hj). lia.
    + by injection H as <- <-.
Qed.

(** X26. On a well-formed pool, a call of [executeOnPass] that returns
    has submitted exactly the visible instances among the live slots of
    the sorted array, each with the commands of its own [drawOnPass], in
    ascending order of their sort keys: the [break] at the first invisible
    instance leaves no visible instance out. *)
Theorem executeOnPass_submits_visible_by_sort_key env ubs h m h' m' cmds :
  poolWellFormed h (gfxRenderInstPool m) ->
  Manager.executeOnPass env ubs h m = Ok (h', m', cmds) ->
  exists insts,
    instsAt h (pool (Manager.sortPool h (gfxRenderInstPool m)))
      (renderInstAllocCount (gfxRenderInstPool m)) = Some insts
    /\ length insts = renderInstAllocCount (gfxRenderInstPool m)
    /\ cmds = flat_map (submitted env ubs) (List.filter visible insts)
    /\ StronglySorted (fun a b => (sortKey a <= sortKey b)%Z)
         (List.filter visible insts).
Proof.
  intros (Hnd & Hv & Hle) H.
  set (p1 := Manager.sortPool h (gfxRenderInstPool m)).
  assert (Forall (fun r => is_Some (h !! r)) (pool p1)) as Hv1.
  { unfold p1. by rewrite (sortPool_Permutation h (gfxRenderInstPool m)). }
  assert (NoDup (pool p1)) as Hnd1.
  { unfold p1. by rewrite (sortPool_Permutation h (gfxRenderInstPool m)). }
  assert (length (pool p1) = length (pool (gfxRenderInstPool m))) as Hlen1.
  { unfold p1. by rewrite (sortPool_Permutation h (gfxRenderInstPool m)). }
  destruct (derefAll_valid h (take (renderInstAllocCount (gfxRenderInstPool m)) (pool p1)))
    as (insts & Hd & Hlen).
  { by apply Forall_take. }
  exists insts. split; [exact Hd|]. split.
  { rewrite Hlen, length_take. lia. }
  assert (StronglySorted inOrder insts) as Hs.
  { eapply derefAll_StronglySorted; [|exact Hd].
    pose proof (sortPool_StronglySorted h _ Hv) as Hss. fold p1 in Hss.
    rewrite <- (take_drop (renderInstAllocCount (gfxRenderInstPool m)) (pool p1)) in Hss.
    by apply StronglySorted_app_1_l in Hss. }
  destruct (leadingVisible_sorted insts Hs) as [<- Hk]. split; [|exact Hk].
  destruct (decide (renderInstAllocCount (gfxRenderInstPool m) = 0)) as [H0|Hne].
  - unfold Manager.executeOnPass in H. rewrite bool_decide_eq_true_2 in H by done.
    injection H as <- <- <-. rewrite H0, take_0 in Hd. by injection Hd as <-.
  - apply executeOnPass_Ok in H as (h1 & Hloop & _); [|done].
    eapply drawLoop_commands; [exact Hnd1|exact Hloop|]. by rewrite drop_0.
Qed.

Lemma executeOnPass_submits_visible_by_sort_key_witness :
  exists h m h' m' cmds insts,
    twoKeysFrame = Ok (h, m)
    /\ Manager.executeOnPass Scene.env Scene.uniformBuffers h m = Ok (h', m', cmds)
    /\ instsAt h (pool (Manager.sortPool h (gfxRenderInstPool m)))
         (renderInstAllocCount (gfxRenderInstPool m)) = Some insts
    /\ length insts = 3
    /\ map sortKey (List.filter visible insts) = [5; 10]%Z
    /\ cmds = flat_map (submitted Scene.env Scene.uniformBuffers)
                (List.filter visible insts).
Proof.
  let v := eval vm_compute in twoKeysFrame in
  match v with
  | Ok (?h, ?m) =>
      let w := eval vm_compute in
        (Manager.executeOnPass Scene.env Scene.uniformBuffers h m) in
      match w with
      | Ok (?h', ?m', ?cmds) =>
          destruct (executeOnPass_submits_visible_by_sort_key
                      Scene.env Scene.uniformBuffers h m h' m' cmds)
            as (insts & Hi & Hlen & Hc & _);
          [| |exists h, m, h', m', cmds, insts]
      end
  end.
  - repeat split.
    + apply (bool_decide_unpack _). vm_compute. exact I.
    + repeat constructor; eexists; reflexivity.
    + simpl. lia.
  - vm_compute. reflexivity.
  - split; [vm_compute; reflexivity|]. split; [vm_compute; reflexivity|].
    split; [exact Hi|]. split; [exact Hlen|]. split; [|exact Hc].
    vm_compute in Hi. injection Hi as <-. vm_compute. reflexivity.
Defined.
